(** * MemMachine profile memory: a shallow embedding and its checked properties

    The development follows [memmachine/profile_memory/profile_memory.py]
    and [memmachine/profile_memory/util/lru_cache.py].  Python values are
    modelled as follows.

    - similarity scores and the two thresholds of [range_filter] are
      binary64 floats ([PrimFloat.float]) with the rounding of IEEE 754;
      [x ** 0.5] follows the cases of the interpreter, and the C library
      it calls for a finite positive [x] is a parameter;
    - a [dict] is an association list in insertion order with pairwise
      distinct keys, because [json.dumps] and iteration observe that order;
    - the doubly linked list of [LRUCache] is the list of its nodes from
      [head.next] to [tail.prev]; the [cache] dictionary of the class is the
      key set of that list;
    - asynchronous methods are run to completion one after the other
      (explicit state passing over the cache, the storage and the tracker);
      the tasks of an [asyncio.gather] all run, in the order of the call,
      and the first exception among them is the one raised;
    - the language model, the embedder and the extraction of a JSON document
      from a text of the model without think tags are parameters; a text
      with the tags follows the source;
    - the concrete storage driver is not among the sources: its operations
      are modelled from the specification, over two tables and a log of the
      write calls received. *)

From Stdlib Require Import String Ascii List Bool ZArith QArith Lia.
From Stdlib Require Import DecimalString.
From Stdlib Require DecimalNat.
From Stdlib Require Import Lqa.
From Stdlib Require Import Floats.
From Stdlib Require Uint63.
From Stdlib Require Import Permutation Sorted OrderedTypeEx.
Import ListNotations.

Set Implicit Arguments.

(* ===================================================================== *)
(** * Range filter ([ProfileMemory.range_filter])                         *)
(* ===================================================================== *)

Module RangeFilter.

Local Open Scope float_scope.

(** What a call does: it returns a list, or raises [TypeError]. *)
Inductive outcome (A : Type) : Type :=
| Returns (l : list A)
| RaisesTypeError.
Arguments Returns {A} l.
Arguments RaisesTypeError {A}.

(** The value of [x ** 0.5] for a float [x]: a float, or a complex
    number. *)
Inductive power : Type :=
| PFloat (f : float)
| PComplex.

(** [itertools.accumulate] on floats: the first output is the first
    input, every later one is [total + element]. *)
Fixpoint accumulate_from (total : float) (l : list float) : list float :=
  match l with
  | [] => []
  | x :: t => (total + x) :: accumulate_from (total + x) t
  end.

Definition accumulate (l : list float) : list float :=
  match l with
  | [] => []
  | x :: t => x :: accumulate_from x t
  end.

(** [range(1, n + 1)]. *)
Definition divs (n : nat) : list nat := seq 1 n.

(** The float an [int] operand of [/] is converted to (exact below
    [2 ** 53]). *)
Definition float_of_nat (d : nat) : float :=
  PrimFloat.of_uint63 (Uint63.of_Z (Z.of_nat d)).

(** [zip] of three iterables. *)
Definition zip3 {X Y W : Type} (a : list X) (b : list Y) (c : list W)
  : list (X * Y * W) := combine (combine a b) c.

(** [max] of a non-empty iterable of integers. *)
Definition py_max (x : Z) (l : list Z) : Z := fold_left Z.max l x.

(** The first [None] of the list, or all the values. *)
Fixpoint sequence {X : Type} (l : list (option X)) : option (list X) :=
  match l with
  | [] => Some []
  | None :: _ => None
  | Some x :: t => option_map (cons x) (sequence t)
  end.

Section RangeFilter.

(** The C library's [pow(x, 0.5)], which [float.__pow__] calls for a
    finite positive [x] other than 1; for such an [x] the library returns
    a finite float and leaves [errno] alone, so the call raises nothing. *)
Variable libm_pow : float -> float.

(** [iv ** 0.5] ([float_pow] of the interpreter, with [iw = 0.5]): a nan
    stays a nan, an infinity gives [fabs(iv)], a zero gives [0.0], a
    negative number gives a complex number, [1.0] gives [1.0], and every
    other number goes to the C library. *)
Definition pow_half (iv : float) : power :=
  if PrimFloat.is_nan iv then PFloat iv
  else if PrimFloat.is_infinity iv then PFloat (PrimFloat.abs iv)
  else if iv =? 0 then PFloat 0
  else if iv <? 0 then PComplex
  else if iv =? 1 then PFloat 1
  else PFloat (libm_pow iv).

(** The radicand [(sq - s * s / d) / d]. *)
Definition radicand (s sq : float) (d : nat) : float :=
  (sq - s * s / float_of_nat d) / float_of_nat d.

(** The generator element [(d if ((sq - s * s / d) / d) ** 0.5 < max_std
    else -1)]; [None] stands for the [TypeError] of comparing a complex
    number with a float. *)
Definition gate (max_std : float) (t : float * float * nat) : option Z :=
  let '(s, sq, d) := t in
  match pow_half (radicand s sq d) with
  | PFloat root => Some (if root <? max_std then Z.of_nat d else (-1)%Z)
  | PComplex => None
  end.

(** [i * i] of the generator [(i * i for i in k2)]. *)
Definition sqf (i : float) : float := i * i.

(** [take] of the source; [None] when an element of the generator
    raises.  The generator has an element wherever the source reaches
    this line, the list being non-empty there. *)
Definition take_of (k : list float) (max_std : float) : option Z :=
  match sequence (map (gate max_std)
                      (zip3 (accumulate k) (accumulate (map sqf k))
                            (divs (length k)))) with
  | None => None
  | Some [] => Some (-1)%Z
  | Some (x :: l) => Some (py_max x l)
  end.

(** [range_filter(arr, max_range, max_std)]. *)
Definition range_filter {A : Type} (arr : list (float * A))
  (max_range max_std : float) : outcome A :=
  match arr with
  | [] => Returns []
  | (s0, _) :: _ =>
    let new_min := s0 - max_range in
    let k := map fst arr in
    let v := map snd arr in
    match take_of k max_std with
    | None => RaisesTypeError
    | Some take =>
        Returns
          (map snd
             (filter (fun fv : float * A => new_min <? fst fv)
                     (firstn (Z.to_nat take) (combine k v))))
    end
  end.

End RangeFilter.

End RangeFilter.

(* ===================================================================== *)
(** * LRU cache ([util/lru_cache.py])                                     *)
(* ===================================================================== *)

Module LRU.

Section LRUCache.

Variables K V : Type.
Variable K_eq_dec : forall a b : K, {a = b} + {a <> b}.

(** A node of the doubly linked list. *)
Record Node := mkNode { key : K; value : V }.

(** [capacity] and the nodes between the two sentinels, from [head.next]
    (most recently used) to [tail.prev] (least recently used).  The
    dictionary [self.cache] maps the key of each of these nodes to it. *)
Record LRUCache := mkLRU { capacity : Z; nodes : list Node }.

(** [LRUCache(capacity)]; [None] stands for the [ValueError]. *)
Definition new (capacity : Z) : option LRUCache :=
  if (capacity <=? 0)%Z then None else Some (mkLRU capacity []).

(** [self.cache[key]], [None] when [key not in self.cache]. *)
Definition lookup (k : K) (c : LRUCache) : option Node :=
  find (fun n => if K_eq_dec (key n) k then true else false) (nodes c).

(** [_remove_node] on the node stored under [k]: unlink it. *)
Fixpoint remove_node (k : K) (l : list Node) : list Node :=
  match l with
  | [] => []
  | n :: t => if K_eq_dec (key n) k then t else n :: remove_node k t
  end.

(** [_add_to_front]. *)
Definition add_to_front (n : Node) (l : list Node) : list Node := n :: l.

Definition erase (k : K) (c : LRUCache) : LRUCache :=
  match lookup k c with
  | Some _ => mkLRU (capacity c) (remove_node k (nodes c))
  | None => c
  end.

Definition get (k : K) (c : LRUCache) : option V * LRUCache :=
  match lookup k c with
  | Some n =>
      (Some (value n),
       mkLRU (capacity c) (add_to_front n (remove_node k (nodes c))))
  | None => (None, c)
  end.

Definition put (k : K) (v : V) (c : LRUCache) : LRUCache :=
  match lookup k c with
  | Some n =>
      mkLRU (capacity c)
            (add_to_front (mkNode (key n) v) (remove_node k (nodes c)))
  | None =>
      let l := if (Z.of_nat (length (nodes c)) >=? capacity c)%Z
               then removelast (nodes c)      (* evict [tail.prev] *)
               else nodes c in
      mkLRU (capacity c) (add_to_front (mkNode k v) l)
  end.

(** The keys resident in the cache, most recently used first. *)
Definition resident (c : LRUCache) : list K := map key (nodes c).

(** ** Access sequences *)

Inductive op := Get (k : K) | Put (k : K) (v : V) | Erase (k : K).

Definition step (c : LRUCache) (o : op) : LRUCache :=
  match o with
  | Get k => snd (get k c)
  | Put k v => put k v c
  | Erase k => erase k c
  end.

Definition run (ops : list op) (c : LRUCache) : LRUCache :=
  fold_left step ops c.

Definition is_erase (o : op) : bool :=
  match o with Erase _ => true | _ => false end.

(** ** The words of the specification

    The keys touched and not subsequently erased, most recently touched
    first.  A touch is a [put], or a [get] that hits. *)
Definition touch (k : K) (r : list K) : list K := k :: remove K_eq_dec k r.

Definition track (st : LRUCache * list K) (o : op) : LRUCache * list K :=
  let (c, r) := st in
  match o with
  | Get k =>
      match lookup k c with
      | Some _ => (step c o, touch k r)
      | None => (step c o, r)
      end
  | Put k _ => (step c o, touch k r)
  | Erase k => (step c o, remove K_eq_dec k r)
  end.

Definition live_touched (ops : list op) (c0 : LRUCache) : list K :=
  snd (fold_left track ops (c0, [])).

(** The keys touched and since then neither erased nor evicted, most
    recently touched first, for a cache of capacity [N]: a touch moves its
    key to the front; a [put] of a key that is not among them, while
    there are [N] of them, first evicts the least recently touched one;
    an [erase] takes its key out.  The values play no part. *)
Definition held_step (N : Z) (h : list K) (o : op) : list K :=
  match o with
  | Get k => if in_dec K_eq_dec k h then touch k h else h
  | Put k _ =>
      if in_dec K_eq_dec k h then touch k h
      else k :: (if (Z.of_nat (length h) >=? N)%Z then removelast h else h)
  | Erase k => remove K_eq_dec k h
  end.

Definition held (N : Z) (ops : list op) : list K :=
  fold_left (held_step N) ops [].

(** The representation invariant of the class together with the link to
    the touch history [r]: the resident keys are the first keys of [r], and
    there are at most [capacity] of them. *)
Definition inv (c : LRUCache) (r : list K) : Prop :=
  NoDup r /\
  resident c = firstn (length (nodes c)) r /\
  (0 < capacity c)%Z /\
  (Z.of_nat (length (nodes c)) <= capacity c)%Z.

(** As long as nothing was erased the cache is as full as it can be. *)
Definition filled (c : LRUCache) (r : list K) : Prop :=
  length (nodes c) = Nat.min (Z.to_nat (capacity c)) (length r).

End LRUCache.

End LRU.

(* ===================================================================== *)
(** * Python dictionaries with string keys                                *)
(* ===================================================================== *)

Module PyDict.

Section Dict.

Variable V : Type.

(** Insertion-ordered association list; the keys are pairwise distinct. *)
Definition dict := list (string * V).

Definition keys (d : dict) : list string := map fst d.

(** [d.get(k)]. *)
Fixpoint get (k : string) (d : dict) : option V :=
  match d with
  | [] => None
  | (k', v) :: t => if String.eqb k' k then Some v else get k t
  end.

(** [k in d]. *)
Definition contains (k : string) (d : dict) : bool :=
  match get k d with Some _ => true | None => false end.

(** [d[k] = v]: an existing key keeps its place, a new key goes last. *)
Fixpoint set (k : string) (v : V) (d : dict) : dict :=
  match d with
  | [] => [(k, v)]
  | (k', v') :: t =>
      if String.eqb k' k then (k', v) :: t else (k', v') :: set k v t
  end.

(** [del d[k]]. *)
Fixpoint del (k : string) (d : dict) : dict :=
  match d with
  | [] => []
  | (k', v') :: t => if String.eqb k' k then t else (k', v') :: del k t
  end.

End Dict.

End PyDict.

(* ===================================================================== *)
(** * Update trackers ([ProfileUpdateTracker], [ProfileUpdateTrackerManager]) *)
(* ===================================================================== *)

Module Tracker.

(** Times are seconds on the clock [datetime.datetime.now()] as exact
    rationals; every operation that reads the clock takes the reading
    [now] as an argument. *)
Record ProfileUpdateTracker := mkTracker {
  user : string;
  message_limit : Z;
  time_limit : Q;
  message_count : Z;
  first_updated : option Q
}.

Definition new_tracker (u : string) (message_limit : Z) (time_limit_sec : Q)
  : ProfileUpdateTracker :=
  mkTracker u message_limit time_limit_sec 0 None.

Definition mark_update (now : Q) (t : ProfileUpdateTracker)
  : ProfileUpdateTracker :=
  mkTracker (user t) (message_limit t) (time_limit t)
            (message_count t + 1)
            (match first_updated t with
             | None => Some now
             | Some f => Some f
             end).

Definition seconds_from_first_update (now : Q) (t : ProfileUpdateTracker)
  : option Q :=
  match first_updated t with
  | None => None
  | Some f => Some (now - f)%Q
  end.

Definition reset (t : ProfileUpdateTracker) : ProfileUpdateTracker :=
  mkTracker (user t) (message_limit t) (time_limit t) 0 None.

Definition should_update (now : Q) (t : ProfileUpdateTracker) : bool :=
  if (message_count t =? 0)%Z then false
  else
    let elapsed := seconds_from_first_update now t in
    let exceed_time_limit :=
      match elapsed with
      | Some e => Qle_bool (time_limit t) e
      | None => false
      end in
    let exceed_msg_limit := (message_limit t <=? message_count t)%Z in
    exceed_time_limit || exceed_msg_limit.

Record ProfileUpdateTrackerManager := mkManager {
  trackers : PyDict.dict ProfileUpdateTracker;
  mgr_message_limit : Z;
  mgr_time_limit_sec : Q
}.

Definition new_manager (message_limit : Z) (time_limit_sec : Q)
  : ProfileUpdateTrackerManager :=
  mkManager [] message_limit time_limit_sec.

Definition mgr_mark_update (u : string) (now : Q)
  (m : ProfileUpdateTrackerManager) : ProfileUpdateTrackerManager :=
  let ts :=
    if PyDict.contains u (trackers m) then trackers m
    else PyDict.set u (new_tracker u (mgr_message_limit m)
                                   (mgr_time_limit_sec m)) (trackers m) in
  let ts' :=
    match PyDict.get u ts with
    | Some t => PyDict.set u (mark_update now t) ts
    | None => ts
    end in
  mkManager ts' (mgr_message_limit m) (mgr_time_limit_sec m).

(** The loop of [get_users_to_update] over [self._trackers.items()]. *)
Fixpoint drain (now : Q) (ts : PyDict.dict ProfileUpdateTracker)
  : list string * PyDict.dict ProfileUpdateTracker :=
  match ts with
  | [] => ([], [])
  | (u, t) :: rest =>
      let (ret, rest') := drain now rest in
      if should_update now t
      then (u :: ret, (u, reset t) :: rest')
      else (ret, (u, t) :: rest')
  end.

Definition get_users_to_update (now : Q) (m : ProfileUpdateTrackerManager)
  : list string * ProfileUpdateTrackerManager :=
  let (ret, ts) := drain now (trackers m) in
  (ret, mkManager ts (mgr_message_limit m) (mgr_time_limit_sec m)).

(** The firing condition in the words of the specification, for a tracker
    with [n] pending messages first touched at [f]. *)
Definition fires (M : Z) (T : Q) (now : Q) (t : ProfileUpdateTracker) : Prop :=
  (1 <= message_count t)%Z /\
  ((M <= message_count t)%Z \/
   exists f, first_updated t = Some f /\ (T <= now - f)%Q).

(** What holds of every manager the class can build. *)
Definition wf (m : ProfileUpdateTrackerManager) : Prop :=
  NoDup (PyDict.keys (trackers m)) /\
  forall u t, In (u, t) (trackers m) ->
    message_limit t = mgr_message_limit m /\
    time_limit t = mgr_time_limit_sec m /\
    (0 <= message_count t)%Z /\
    (message_count t = 0%Z <-> first_updated t = None).

End Tracker.

(* ===================================================================== *)
(** * JSON values and [json.dumps]                                        *)
(* ===================================================================== *)

Module Json.

Local Open Scope string_scope.

(** A decoded JSON document ([json.loads]).  Non-integral numbers are kept
    as exact rationals. *)
#[local] Unset Elimination Schemes.
Inductive json : Type :=
| JNull
| JBool (b : bool)
| JInt (z : Z)
| JFloat (q : Q)
| JStr (s : string)
| JList (l : list json)
| JDict (d : list (string * json)).
#[local] Set Elimination Schemes.

(** [isinstance(x, dict)], [isinstance(x, list)], [isinstance(x, int)]
    ([bool] is a subclass of [int]). *)
Definition is_dict (j : json) : bool :=
  match j with JDict _ => true | _ => false end.

Definition is_list (j : json) : bool :=
  match j with JList _ => true | _ => false end.

Definition as_int (j : json) : option Z :=
  match j with
  | JInt z => Some z
  | JBool b => Some (if b then 1 else 0)%Z
  | _ => None
  end.

(** [x == "text"] for a decoded value [x]. *)
Definition eq_str (j : json) (s : string) : bool :=
  match j with JStr s' => String.eqb s' s | _ => false end.

(** The values of an isolation map, [bool | int | str]; [float] values are
    left out of the model. *)
Inductive scalar : Type :=
| SBool (b : bool)
| SInt (z : Z)
| SStr (s : string).

Definition isolations := PyDict.dict scalar.

(** Python [==] on these values: [True == 1] and [False == 0]. *)
Definition scalar_num (a : scalar) : option Z :=
  match a with
  | SBool b => Some (if b then 1 else 0)%Z
  | SInt z => Some z
  | SStr _ => None
  end.

Definition py_eqb (a b : scalar) : bool :=
  match a, b with
  | SStr x, SStr y => String.eqb x y
  | SStr _, _ | _, SStr _ => false
  | _, _ =>
      match scalar_num a, scalar_num b with
      | Some x, Some y => (x =? y)%Z
      | _, _ => false
      end
  end.

(** ** [json.dumps] of an isolation map

    Default separators [", "] and [": "], [ensure_ascii=True]; a character
    of a string is a code point below 256. *)

Definition quote : string := String (ascii_of_nat 34) EmptyString.
Definition backslash : string := String (ascii_of_nat 92) EmptyString.

Definition hex_digit (n : nat) : string :=
  String (ascii_of_nat (if Nat.ltb n 10 then 48 + n else 87 + n)) EmptyString.

Definition escape_char (c : ascii) : string :=
  let n := nat_of_ascii c in
  if Nat.eqb n 34 then backslash ++ quote
  else if Nat.eqb n 92 then backslash ++ backslash
  else if Nat.eqb n 10 then backslash ++ "n"
  else if Nat.eqb n 13 then backslash ++ "r"
  else if Nat.eqb n 9 then backslash ++ "t"
  else if Nat.eqb n 8 then backslash ++ "b"
  else if Nat.eqb n 12 then backslash ++ "f"
  else if Nat.ltb n 32 || Nat.ltb 126 n
       then backslash ++ "u00" ++ hex_digit (n / 16) ++ hex_digit (n mod 16)
  else String c EmptyString.

Fixpoint escape (s : string) : string :=
  match s with
  | EmptyString => EmptyString
  | String c t => escape_char c ++ escape t
  end.

Definition dumps_str (s : string) : string := quote ++ escape s ++ quote.

Definition dumps_int (z : Z) : string :=
  DecimalString.NilZero.string_of_int (Z.to_int z).

Definition dumps_scalar (a : scalar) : string :=
  match a with
  | SBool true => "true"
  | SBool false => "false"
  | SInt z => dumps_int z
  | SStr s => dumps_str s
  end.

(** [sorted(d.items())]: insertion sort on the keys. *)
Fixpoint insert_item (x : string * scalar) (l : list (string * scalar))
  : list (string * scalar) :=
  match l with
  | [] => [x]
  | y :: t => if String.leb (fst x) (fst y) then x :: y :: t
              else y :: insert_item x t
  end.

Definition sort_items (d : isolations) : list (string * scalar) :=
  fold_right insert_item [] d.

Definition dumps_item (kv : string * scalar) : string :=
  dumps_str (fst kv) ++ ": " ++ dumps_scalar (snd kv).

(** [json.dumps(d, sort_keys=sort_keys)]. *)
Definition dumps (sort_keys : bool) (d : isolations) : string :=
  "{" ++ String.concat ", "
           (map dumps_item (if sort_keys then sort_items d else d))
      ++ "}".

(** Two maps hold the same key-value pairs. *)
Definition same_pairs (d1 d2 : isolations) : Prop :=
  forall k, PyDict.get k d1 = PyDict.get k d2.

End Json.

(* ===================================================================== *)
(** * Profile storage ([ProfileStorageBase])                              *)
(* ===================================================================== *)

Module Storage.
Import Json.

Section Storage.

(** The type of embedding vectors. *)
Variable Emb : Type.

(** A row of [profile_features] with its citations. *)
Record ProfileEntry := mkEntry {
  pe_id : Z;
  pe_user : string;
  pe_feature : string;
  pe_value : string;
  pe_tag : string;
  pe_embedding : Emb;
  pe_metadata : PyDict.dict string;
  pe_isolations : isolations;
  pe_citations : list Z;
  pe_deleted : bool
}.

(** A row of [history_messages]. *)
Record HistoryRow := mkRow {
  h_id : Z;
  h_user : string;
  h_content : string;
  h_metadata : PyDict.dict string;
  h_isolations : isolations;
  h_ingested : bool
}.

(** The write calls received by the storage, oldest first. *)
Inductive call : Type :=
| CAddFeature (user feature value tag : string) (iso : isolations)
              (citations : list Z)
| CDeleteFeature (user feature tag : string) (value : option string)
                 (iso : isolations)
| CDeleteById (pid : Z)
| CDeleteProfile (user : string) (iso : isolations)
| CAddHistory (user content : string) (iso : isolations)
| CMarkIngested (ids : list Z).

Record Storage := mkStorage {
  features : list ProfileEntry;
  history : list HistoryRow;
  next_feature_id : Z;
  next_history_id : Z;
  calls : list call
}.

Definition log (c : call) (st : Storage) : Storage :=
  mkStorage (features st) (history st) (next_feature_id st)
            (next_history_id st) (calls st ++ [c]).

Definition with_features (fs : list ProfileEntry) (st : Storage) : Storage :=
  mkStorage fs (history st) (next_feature_id st) (next_history_id st)
            (calls st).

Definition with_history (hs : list HistoryRow) (st : Storage) : Storage :=
  mkStorage (features st) hs (next_feature_id st) (next_history_id st)
            (calls st).

(** Modelled from the spec: the isolation filter of the concrete storage
    driver, which is not among the sources.  A row matches iff, for every
    key of the query isolation, its stored isolation has the same value for
    that key. *)
Definition iso_match (query stored : isolations) : bool :=
  forallb (fun kv : string * scalar =>
             match PyDict.get (fst kv) stored with
             | Some v => py_eqb (snd kv) v
             | None => false
             end) query.

(** Modelled from the spec: the isolation key of the concrete storage
    driver; two isolation maps are equal iff their canonical (sorted-key)
    serializations match. *)
Definition iso_eqb (a b : isolations) : bool :=
  String.eqb (dumps true a) (dumps true b).

Definition live (e : ProfileEntry) : bool := negb (pe_deleted e).

Definition mark_deleted (e : ProfileEntry) : ProfileEntry :=
  mkEntry (pe_id e) (pe_user e) (pe_feature e) (pe_value e) (pe_tag e)
          (pe_embedding e) (pe_metadata e) (pe_isolations e)
          (pe_citations e) true.

(** Modelled from the spec: [get_profile] of the concrete storage driver;
    the non-deleted entries of the user restricted to the isolation (the
    nested mapping tag, feature, values is kept as the list of entries). *)
Definition get_profile (user : string) (iso : isolations) (st : Storage)
  : list ProfileEntry :=
  filter (fun e => live e && String.eqb (pe_user e) user
                   && iso_match iso (pe_isolations e)) (features st).

(** Modelled from the spec: [add_profile_feature] of the concrete storage
    driver; inserts, or does nothing when a non-deleted entry with the same
    user, feature, tag, value and isolations exists. *)
Definition add_profile_feature (user feature value tag : string) (emb : Emb)
  (metadata : PyDict.dict string) (iso : isolations) (citations : list Z)
  (st : Storage) : Storage :=
  let st := log (CAddFeature user feature value tag iso citations) st in
  if existsb (fun e => live e && String.eqb (pe_user e) user
                       && String.eqb (pe_feature e) feature
                       && String.eqb (pe_tag e) tag
                       && String.eqb (pe_value e) value
                       && iso_eqb (pe_isolations e) iso) (features st)
  then st
  else
    mkStorage
      (features st ++
         [mkEntry (next_feature_id st) user feature value tag emb metadata
                  iso citations false])
      (history st) (next_feature_id st + 1) (next_history_id st) (calls st).

(** Modelled from the spec: [delete_profile_feature] of the concrete
    storage driver; soft-deletes the matching rows, all values of the
    (feature, tag) pair when [value] is absent. *)
Definition delete_profile_feature (user feature tag : string)
  (value : option string) (iso : isolations) (st : Storage) : Storage :=
  let st := log (CDeleteFeature user feature tag value iso) st in
  with_features
    (map (fun e =>
            if String.eqb (pe_user e) user
               && String.eqb (pe_feature e) feature
               && String.eqb (pe_tag e) tag
               && match value with
                  | Some v => String.eqb (pe_value e) v
                  | None => true
                  end
               && iso_match iso (pe_isolations e)
            then mark_deleted e else e) (features st)) st.

(** Modelled from the spec: [delete_profile_feature_by_id] of the concrete
    storage driver; soft-deletes one entry. *)
Definition delete_profile_feature_by_id (pid : Z) (st : Storage) : Storage :=
  let st := log (CDeleteById pid) st in
  with_features
    (map (fun e => if (pe_id e =? pid)%Z then mark_deleted e else e)
         (features st)) st.

(** Modelled from the spec: [delete_profile] of the concrete storage
    driver. *)
Definition delete_profile (user : string) (iso : isolations) (st : Storage)
  : Storage :=
  let st := log (CDeleteProfile user iso) st in
  with_features
    (map (fun e => if String.eqb (pe_user e) user
                      && iso_match iso (pe_isolations e)
                   then mark_deleted e else e) (features st)) st.

(** Modelled from the spec: [get_large_profile_sections] of the concrete
    storage driver; every (feature, tag) group of the profile with at least
    [thresh] entries. *)
Definition same_section (a b : ProfileEntry) : bool :=
  String.eqb (pe_feature a) (pe_feature b)
  && String.eqb (pe_tag a) (pe_tag b).

Fixpoint sections (fuel : nat) (l : list ProfileEntry)
  : list (list ProfileEntry) :=
  match fuel, l with
  | S fuel, e :: t =>
      (e :: filter (same_section e) t)
        :: sections fuel (filter (fun x => negb (same_section e x)) t)
  | _, _ => []
  end.

Definition get_large_profile_sections (user : string) (thresh : Z)
  (iso : isolations) (st : Storage) : list (list ProfileEntry) :=
  let prof := get_profile user iso st in
  filter (fun g => (thresh <=? Z.of_nat (length g))%Z)
         (sections (length prof) prof).

(** Modelled from the spec: [get_all_citations_for_ids] of the concrete
    storage driver; the history rows cited by the entries [pids], each with
    its isolations. *)
Definition get_all_citations_for_ids (pids : list Z) (st : Storage)
  : list (Z * isolations) :=
  flat_map
    (fun e =>
       if existsb (Z.eqb (pe_id e)) pids
       then flat_map
              (fun c => match find (fun h => (h_id h =? c)%Z) (history st) with
                        | Some h => [(c, h_isolations h)]
                        | None => []
                        end) (pe_citations e)
       else []) (features st).

(** Modelled from the spec: [add_history] of the concrete storage driver;
    appends an uningested row. *)
Definition add_history (user content : string) (metadata : PyDict.dict string)
  (iso : isolations) (st : Storage) : Storage :=
  let st := log (CAddHistory user content iso) st in
  mkStorage (features st)
            (history st ++
               [mkRow (next_history_id st) user content metadata iso false])
            (next_feature_id st) (next_history_id st + 1) (calls st).

(** Modelled from the spec: [get_history_messages_by_ingestion_status] of
    the concrete storage driver; oldest first, at most [k] rows when
    [k > 0]. *)
Definition get_history_messages_by_ingestion_status (user : string) (k : Z)
  (is_ingested : bool) (st : Storage) : list HistoryRow :=
  let rows := filter (fun h => String.eqb (h_user h) user
                               && Bool.eqb (h_ingested h) is_ingested)
                     (history st) in
  if (0 <? k)%Z then firstn (Z.to_nat k) rows else rows.

(** Modelled from the spec: [get_uningested_history_messages_count]. *)
Definition get_uningested_history_messages_count (st : Storage) : Z :=
  Z.of_nat (length (filter (fun h => negb (h_ingested h)) (history st))).

(** Modelled from the spec: [mark_messages_ingested] of the concrete
    storage driver; flips [is_ingested] to true for the given ids. *)
Definition mark_messages_ingested (ids : list Z) (st : Storage) : Storage :=
  let st := log (CMarkIngested ids) st in
  with_history
    (map (fun h => if existsb (Z.eqb (h_id h)) ids
                   then mkRow (h_id h) (h_user h) (h_content h) (h_metadata h)
                              (h_isolations h) true
                   else h) (history st)) st.

Definition empty : Storage := mkStorage [] [] 1 1 [].

End Storage.

End Storage.

(* ===================================================================== *)
(** * The profile facade, ingestion and consolidation ([ProfileMemory])   *)
(* ===================================================================== *)

Module ProfileMemory.
Import Json Storage.

Local Open Scope string_scope.

(** The exceptions a collaborator can raise; [OtherError] stands for every
    class outside the [except] clauses of the module. *)
Inductive exn : Type :=
| ExternalServiceAPIError
| ValueError
| RuntimeError
| OtherError.

(** [except (ExternalServiceAPIError, ValueError, RuntimeError)]. *)
Definition caught (e : exn) : bool :=
  match e with
  | OtherError => false
  | _ => true
  end.

(** The keys handed to the profile cache: the tuple
    [(user_id, json.dumps(isolations))], and the bare [user_id] string. *)
Inductive cache_key : Type :=
| KUser (user_id : string)
| KPair (user_id : string) (dumped : string).

Definition cache_key_eq_dec (a b : cache_key) : {a = b} + {a <> b}.
Proof. decide equality; apply string_dec. Defined.

(** [ConsolidateMemory], the validated shape of a consolidated entry. *)
Record ConsolidateMemory := mkCM {
  cm_tag : string;
  cm_feature : string;
  cm_value : string;
  cm_citations : list Z
}.

Fixpoint all_ints (l : list json) : option (list Z) :=
  match l with
  | [] => Some []
  | JInt z :: t => option_map (cons z) (all_ints t)
  | _ :: _ => None
  end.

(** [ConsolidateMemory] built from the entries of [memory]; [None] stands
    for the validation error.
    The validation library is not among the sources and its coercions
    are not modelled: the three texts must be strings and the citations
    a list of integers, the shape the prompt asks the model for. *)
Definition validate_memory (memory : json) : option ConsolidateMemory :=
  match memory with
  | JDict d =>
      match PyDict.get "tag" d, PyDict.get "feature" d,
            PyDict.get "value" d, PyDict.get "metadata" d with
      | Some (JStr tag), Some (JStr feature), Some (JStr value),
        Some (JDict md) =>
          match PyDict.get "citations" md with
          | Some (JList cs) =>
              option_map (mkCM tag feature value) (all_ints cs)
          | _ => None
          end
      | _, _, _, _ => None
      end
  | _ => None
  end.

(** ** Isolations of a consolidated entry (lines 1095-1105) *)

(** [bad.add(k)]. *)
Definition set_add (k : string) (bad : list string) : list string :=
  if existsb (String.eqb k) bad then bad else bad ++ [k].

(** The body of the inner loop [for k, v in i[1].items()]. *)
Definition derive_step (acc : isolations * list string)
  (kv : string * scalar) : isolations * list string :=
  let (new_isolations, bad) := acc in
  match PyDict.get (fst kv) new_isolations with
  | None => (PyDict.set (fst kv) (snd kv) new_isolations, bad)
  | Some old_val =>
      if negb (py_eqb old_val (snd kv))
      then (new_isolations, set_add (fst kv) bad)
      else (new_isolations, bad)
  end.

Definition derive_loop (associations : list (Z * isolations))
  : isolations * list string :=
  fold_left (fun acc i => fold_left derive_step (snd i) acc)
            associations ([], []).

Definition derive_isolations (associations : list (Z * isolations))
  : isolations :=
  let (new_isolations, bad) := derive_loop associations in
  fold_left (fun d k => PyDict.del k d) bad new_isolations.

(** The words of the specification: the values seen for [k] over the cited
    rows, in order. *)
Definition vals (k : string) (items : list (string * scalar)) : list scalar :=
  map snd (filter (fun kv : string * scalar => String.eqb (fst kv) k) items).

Definition values_seen (k : string) (associations : list (Z * isolations))
  : list scalar :=
  vals k (flat_map snd associations).

(** ** Validation of update commands (lines 775-822) *)

Definition valid_command (command : json) : bool :=
  match command with
  | JDict c =>
      match PyDict.get "command" c with
      | None => false
      | Some cmd =>
          (eq_str cmd "add" || eq_str cmd "delete")
          && PyDict.contains "feature" c
          && PyDict.contains "tag" c
          && negb (eq_str cmd "add" && negb (PyDict.contains "value" c))
      end
  | _ => false
  end.

(** [metadata['speaker'] sends 'content'] (line 443). *)
Definition speaker_content (metadata : PyDict.dict string) (content : string)
  : string :=
  match PyDict.get "speaker" metadata with
  | Some speaker => speaker ++ " sends '" ++ content ++ "'"
  | None => content
  end.

Definition or_empty {V : Type} (d : option (PyDict.dict V)) : PyDict.dict V :=
  match d with Some d => d | None => [] end.

(** [sorted(rows, key=key_fn)] is stable. *)
Fixpoint insert_by {A : Type} (key : A -> string) (x : A) (l : list A)
  : list A :=
  match l with
  | [] => [x]
  | y :: t => if String.leb (key x) (key y) then x :: y :: t
              else y :: insert_by key x t
  end.

Definition sorted_by {A : Type} (key : A -> string) (l : list A) : list A :=
  fold_right (insert_by key) [] l.

(** [itertools.groupby]. *)
Fixpoint groupby {A : Type} (key : A -> string) (l : list A)
  : list (list A) :=
  match l with
  | [] => []
  | x :: t =>
      match groupby key t with
      | (y :: g) :: gs =>
          if String.eqb (key x) (key y) then (x :: y :: g) :: gs
          else [x] :: (y :: g) :: gs
      | _ => [[x]]
      end
  end.

(** ** The think tags of an answer (lines 591-595, 903-907) *)

(** [sub in s]. *)
Fixpoint str_contains (sub s : string) : bool :=
  String.prefix sub s ||
  match s with
  | EmptyString => false
  | String _ t => str_contains sub t
  end.

(** [s[n:]]. *)
Definition drop (n : nat) (s : string) : string :=
  substring n (String.length s - n) s.

(** [s.removeprefix(p)]. *)
Definition removeprefix (p s : string) : string :=
  if String.prefix p s then drop (String.length p) s else s.

(** [s.rpartition(sep)[2]]: what follows the last occurrence of [sep], all
    of [s] when there is none. *)
Fixpoint after_last (sep s : string) : string :=
  match s with
  | EmptyString => EmptyString
  | String _ t =>
      if str_contains sep t then after_last sep t
      else if String.prefix sep s then drop (String.length sep) s
      else s
  end.

(** ["<think>" in response_text and "</think>" in response_text]. *)
Definition has_think_tags (response_text : string) : bool :=
  str_contains "<think>" response_text
  && str_contains "</think>" response_text.

(** [response_json] of strategy 1. *)
Definition think_json (response_text : string) : string :=
  after_last "</think>" (removeprefix "<think>" response_text).

(** [if response_json:]. *)
Definition nonempty (t : string) : bool :=
  match t with EmptyString => false | String _ _ => true end.

Section ProfileMemory.

Variable Emb : Type.

(** [self._embeddings.ingest_embed([value])[0]]. *)
Variable ingest_embed : string -> Emb.

Abbreviation Entry := (ProfileEntry Emb).
Abbreviation Profile := (list (ProfileEntry Emb)).
Abbreviation Store := (Storage.Storage Emb).

(** What the language model is asked: the update prompt is rendered from
    the old profile and the message, the consolidation prompt from the
    section. *)
Inductive request : Type :=
| UpdateRequest (profile : Profile) (memory_content : string)
| ConsolidationRequest (memories : list Entry).

Inductive llm_result : Type :=
| Response (response_text : string)
| Raises (e : exn).

(** [self._model.generate_response]; the first argument counts the calls
    made so far, so that the model may answer the same request differently
    over time. *)
Variable generate_response : nat -> request -> llm_result.

(** The extraction of a JSON document from a response text without the
    two think tags: strategy 2 and what follows it (lines 596-760,
    respectively 908-987); [None] when the method gives up and returns. *)
Variable parse_update : string -> option json.
Variable parse_consolidation : string -> option json.

Record PM := mkPM {
  profile_cache : LRU.LRUCache cache_key Profile;
  profile_storage : Store;
  dirty_users : Tracker.ProfileUpdateTrackerManager;
  max_cache_size : Z;
  llm_calls : nat
}.

Definition with_cache (c : LRU.LRUCache cache_key Profile) (s : PM) : PM :=
  mkPM c (profile_storage s) (dirty_users s) (max_cache_size s) (llm_calls s).

Definition with_storage (st : Store) (s : PM) : PM :=
  mkPM (profile_cache s) st (dirty_users s) (max_cache_size s) (llm_calls s).

Definition with_dirty (d : Tracker.ProfileUpdateTrackerManager) (s : PM) : PM :=
  mkPM (profile_cache s) (profile_storage s) d (max_cache_size s) (llm_calls s).

(** ** Methods that may raise *)

Inductive result (A : Type) : Type :=
| Ok (a : A)
| Raise (e : exn).
Arguments Ok {A} a.
Arguments Raise {A} e.

Definition M (A : Type) : Type := PM -> result A * PM.

Definition ret {A : Type} (a : A) : M A := fun s => (Ok a, s).

Definition raise {A : Type} (e : exn) : M A := fun s => (Raise e, s).

Definition bind {A B : Type} (m : M A) (k : A -> M B) : M B :=
  fun s => match m s with
           | (Ok a, s') => k a s'
           | (Raise e, s') => (Raise e, s')
           end.

Notation "x <- c ;; k" := (bind c (fun x => k))
  (at level 61, c at next level, right associativity).
Notation "c ;;; k" := (bind c (fun _ => k))
  (at level 61, right associativity).

Definition cache_erase (k : cache_key) : M unit :=
  fun s => (Ok tt, with_cache (LRU.erase cache_key_eq_dec k (profile_cache s)) s).

Definition storage_do (f : Store -> Store) : M unit :=
  fun s => (Ok tt, with_storage (f (profile_storage s)) s).

Definition call_llm (r : request) : M llm_result :=
  fun s => (Ok (generate_response (llm_calls s) r),
            mkPM (profile_cache s) (profile_storage s) (dirty_users s)
                 (max_cache_size s) (S (llm_calls s))).

(** [for x in l: body(x)]. *)
Fixpoint for_each {A : Type} (l : list A) (body : A -> M unit) : M unit :=
  match l with
  | [] => ret tt
  | x :: t => body x ;;; for_each t body
  end.

(** [await asyncio.gather] of the tasks [body(x) for x in l], the tasks
    run to completion one after the other: every task runs, also after
    one of them has raised, and the call raises the first exception. *)
Fixpoint gather {A : Type} (l : list A) (body : A -> M unit) : M unit :=
  match l with
  | [] => ret tt
  | x :: t =>
      fun s =>
        match body x s with
        | (Ok _, s') => gather t body s'
        | (Raise e, s') => (Raise e, snd (gather t body s'))
        end
  end.

(** ** CRUD *)

(** [(user_id, json.dumps(isolations))]. *)
Definition cache_key_of (user_id : string) (iso : isolations) : cache_key :=
  KPair user_id (dumps false iso).

Definition get_user_profile (user_id : string) (iso : option isolations)
  : M Profile :=
  fun s =>
    let iso := or_empty iso in
    let (r, cache) :=
      LRU.get cache_key_eq_dec (cache_key_of user_id iso) (profile_cache s) in
    match r with
    | Some profile => (Ok profile, with_cache cache s)
    | None =>
        let profile := get_profile user_id iso (profile_storage s) in
        (Ok profile,
         with_cache (LRU.put cache_key_eq_dec (cache_key_of user_id iso)
                             profile cache) s)
    end.

Definition delete_user_profile (user_id : string) (iso : option isolations)
  : M unit :=
  let iso := or_empty iso in
  cache_erase (cache_key_of user_id iso) ;;;
  storage_do (delete_profile user_id iso).

Definition add_new_profile (user_id feature value tag : string)
  (metadata : option (PyDict.dict string)) (iso : option isolations)
  (citations : option (list Z)) : M unit :=
  let iso := or_empty iso in
  let metadata := or_empty metadata in
  let citations := match citations with Some c => c | None => [] end in
  cache_erase (cache_key_of user_id iso) ;;;
  let emb := ingest_embed value in
  storage_do (add_profile_feature user_id feature value tag emb metadata
                                  iso citations).

Definition delete_user_profile_feature (user_id feature tag : string)
  (value : option string) (iso : option isolations) : M unit :=
  let iso := or_empty iso in
  cache_erase (cache_key_of user_id iso) ;;;
  storage_do (delete_profile_feature user_id feature tag value iso).

(** ** Ingestion *)

Definition add_persona_message (content : string)
  (metadata : option (PyDict.dict string)) (iso : option isolations)
  (user_id : string) (now : Q) : M unit :=
  let metadata := or_empty metadata in
  let iso := or_empty iso in
  let content := speaker_content metadata content in
  storage_do (add_history user_id content metadata iso) ;;;
  fun s => (Ok tt, with_dirty (Tracker.mgr_mark_update user_id now
                                 (dirty_users s)) s).

Definition uningested_message_count : M Z :=
  fun s => (Ok (get_uningested_history_messages_count (profile_storage s)), s).

(** [r["isolations"]]: the column holds a JSON text (line 545 decodes
    it), the serialization of the dictionary [add_history] was given. *)
Definition isolations_text (r : HistoryRow) : string :=
  dumps false (h_isolations r).

(** [key_fn] of [_get_isolation_grouped_memories].  Its argument is the
    text of the column, a string: [json.dumps] quotes it, and
    [sort_keys=True] finds no dictionary to sort. *)
Definition key_fn (r : HistoryRow) : string := dumps_str (isolations_text r).

Definition get_isolation_grouped_memories (user_id : string)
  : M (list (list HistoryRow)) :=
  fun s =>
    let rows := get_history_messages_by_ingestion_status user_id 100 false
                  (profile_storage s) in
    (Ok (groupby key_fn (sorted_by key_fn rows)), s).

(** ** Consolidation ([_deduplicate_profile]) *)

(** Lines 1077-1121 for one element of [consolidate_memories]. *)
Definition consolidate_one (user_id : string) (memory : json) : M unit :=
  match validate_memory memory with
  | None => ret tt
  | Some consolidate_memory =>
      fun s =>
        let associations :=
          get_all_citations_for_ids (cm_citations consolidate_memory)
                                    (profile_storage s) in
        let new_citations := map fst associations in
        let new_isolations := derive_isolations associations in
        add_new_profile user_id (cm_feature consolidate_memory)
                        (cm_value consolidate_memory)
                        (cm_tag consolidate_memory)
                        None (Some new_isolations) (Some new_citations) s
  end.

(** Lines 1061-1066 for one element of [memories]. *)
Definition delete_unkept (user_id : string) (valid_keep_memories : list Z)
  (memory : Entry) : M unit :=
  if negb (existsb (Z.eqb (pe_id memory)) valid_keep_memories)
  then cache_erase (KUser user_id) ;;;
       storage_do (delete_profile_feature_by_id (pe_id memory))
  else ret tt.

(** [valid_keep_memories]: the elements that are instances of [int]. *)
Definition valid_keep (keep_memories : list json) : list Z :=
  flat_map (fun j => match as_int j with Some z => [z] | None => [] end)
           keep_memories.

(** Lines 998-1121, from the decoded response on.  The two missing keys
    are defaulted to the empty list; only a missing ['keep_memories'] sets
    [keep_all_memories]. *)
Definition dedup_parsed (user_id : string) (memories : list Entry)
  (updated_profile_entries : json) : M unit :=
  match updated_profile_entries with
  | JDict d =>
      let consolidate_memories :=
        match PyDict.get "consolidate_memories" d with
        | Some v => v
        | None => JList []
        end in
      let keep_all_memories := false in
      let keep_all_memories :=
        if PyDict.contains "keep_memories" d then keep_all_memories
        else true in
      let keep_memories :=
        match PyDict.get "keep_memories" d with
        | Some v => v
        | None => JList []
        end in
      let (consolidate_memories, keep_all_memories) :=
        match consolidate_memories with
        | JList l => (l, keep_all_memories)
        | _ => ([], true)
        end in
      let (keep_memories, keep_all_memories) :=
        match keep_memories with
        | JList l => (l, keep_all_memories)
        | _ => ([], true)
        end in
      (if negb keep_all_memories
       then for_each memories
              (delete_unkept user_id (valid_keep keep_memories))
       else ret tt) ;;;
      for_each consolidate_memories (consolidate_one user_id)
  | _ => ret tt
  end.

Definition deduplicate_profile (user_id : string) (memories : list Entry)
  : M unit :=
  r <- call_llm (ConsolidationRequest memories) ;;
  match r with
  | Raises e => if caught e then ret tt else raise e
  | Response response_text =>
      if has_think_tags response_text then
        (* strategy 1: the name [re] is local to the method and bound by
           the [import] of the other branch only *)
        if nonempty (think_json response_text)
        then raise OtherError       (* [UnboundLocalError], line 946 *)
        else ret tt                 (* the empty text does not decode: return *)
      else
        match parse_consolidation response_text with
        | None => ret tt
        | Some updated_profile_entries =>
            dedup_parsed user_id memories updated_profile_entries
        end
  end.

(** ** Update from one message ([_update_user_profile_think]) *)

(** Modelled from the spec: the storage driver, which is not among the
    sources, takes strings for the feature, the tag and the value of an
    entry (section 3: string key, string category, string payload).  A
    command that holds another JSON value there is outside its contract;
    the facade passes the value on all the same, after it has erased the
    cache key, and the model lets the driver raise. *)
Definition text_field (j : json) : option string :=
  match j with
  | JStr s => Some s
  | _ => None
  end.

(** Lines 829-867 for one valid command; a missing key is the [KeyError]
    of the subscript, raised before the facade is called. *)
Definition apply_command (user_id : string) (citation_id : Z)
  (iso : isolations) (command : json) : M unit :=
  match command with
  | JDict c =>
      match PyDict.get "command" c with
      | None => raise OtherError
      | Some cmd =>
          if eq_str cmd "add" then
            match PyDict.get "feature" c, PyDict.get "value" c,
                  PyDict.get "tag" c with
            | Some feature, Some value, Some tag =>
                match text_field feature, text_field value,
                      text_field tag with
                | Some feature, Some value, Some tag =>
                    add_new_profile user_id feature value tag None
                                    (Some iso) (Some [citation_id])
                | _, _, _ =>
                    cache_erase (cache_key_of user_id iso) ;;;
                    raise OtherError
                end
            | _, _, _ => raise OtherError
            end
          else if eq_str cmd "delete" then
            (* value = command["value"] if "value" in command else None *)
            let value := PyDict.get "value" c in
            match PyDict.get "feature" c, PyDict.get "tag" c with
            | Some feature, Some tag =>
                match text_field feature, text_field tag, value with
                | Some feature, Some tag, (None | Some JNull) =>
                    delete_user_profile_feature user_id feature tag None
                                                (Some iso)
                | Some feature, Some tag, Some (JStr value) =>
                    delete_user_profile_feature user_id feature tag
                                                (Some value) (Some iso)
                | _, _, _ =>
                    cache_erase (cache_key_of user_id iso) ;;;
                    raise OtherError
                end
            | _, _ => raise OtherError
            end
          else raise ValueError
      end
  | _ => raise OtherError
  end.

Definition update_user_profile_think (record : HistoryRow)
  (wait_consolidate : bool) : M unit :=
  let citation_id := h_id record in
  let user_id := h_user record in
  let iso := h_isolations record in
  profile <- get_user_profile user_id (Some iso) ;;
  let memory_content := h_content record in
  r <- call_llm (UpdateRequest profile memory_content) ;;
  match r with
  | Raises e => if caught e then ret tt else raise e
  | Response response_text =>
      if has_think_tags response_text then
        (* strategy 1: the name [re] is local to the method and bound by
           the [import] of the other branch only *)
        if nonempty (think_json response_text)
        then raise OtherError       (* [UnboundLocalError], line 634 *)
        else ret tt                 (* no object in the empty text: return *)
      else
        match parse_update response_text with
        | None => ret tt
        | Some (JDict profile_update_commands) =>
            let commands := map snd profile_update_commands in
            let valid_commands := filter valid_command commands in
            for_each valid_commands
                     (apply_command user_id citation_id iso) ;;;
            if wait_consolidate then
              fun s =>
                let sections :=
                  get_large_profile_sections user_id 5 iso
                                             (profile_storage s) in
                gather sections (deduplicate_profile user_id) s
            else ret tt
        | Some _ => ret tt
        end
  end.

(** The request [_update_user_profile_think] sends for [record] when it
    starts in [s]: the profile is the one [get_user_profile] returns. *)
Definition update_request (record : HistoryRow) (s : PM) : request :=
  UpdateRequest
    (match fst (get_user_profile (h_user record)
                                 (Some (h_isolations record)) s) with
     | Ok profile => profile
     | Raise _ => []
     end)
    (h_content record).

(** ** A batch of messages ([process_messages]) *)

(** The loop over all messages but the last, then the last one with
    consolidation. *)
Fixpoint process_loop (messages : list HistoryRow) : M unit :=
  match messages with
  | [] => ret tt
  | [last] => update_user_profile_think last true
  | message :: rest =>
      update_user_profile_think message false ;;; process_loop rest
  end.

(** [mark_tasks] collects one [mark_messages_ingested([id])] per message;
    they run at the final [asyncio.gather]. *)
Definition process_messages (messages : list HistoryRow) : M unit :=
  match messages with
  | [] => ret tt
  | _ =>
      process_loop messages ;;;
      gather messages
        (fun message => storage_do (mark_messages_ingested [h_id message]))
  end.

Definition process_uningested_memories (user_id : string) : M unit :=
  message_isolation_groups <- get_isolation_grouped_memories user_id ;;
  gather message_isolation_groups process_messages.

(** One round of [_background_ingestion_task]. *)
Definition ingestion_tick (now : Q) : M unit :=
  fun s =>
    let (dirty, mgr) := Tracker.get_users_to_update now (dirty_users s) in
    gather dirty process_uningested_memories (with_dirty mgr s).

End ProfileMemory.

Notation "x <- c ;; k" := (bind c (fun x => k))
  (at level 61, c at next level, right associativity).
Notation "c ;;; k" := (bind c (fun _ => k))
  (at level 61, right associativity).

End ProfileMemory.

(* ===================================================================== *)
(** * Concrete collaborators and states used in the examples              *)
(* ===================================================================== *)

Module Scenario.
Import Json Storage ProfileMemory.

Local Open Scope string_scope.

(** An embedder with a one-point vector space. *)
Definition embed (_ : string) : unit := tt.

(** A language model whose every call fails with an upstream error. *)
Definition failing_model (_ : nat) (_ : request unit) : llm_result :=
  Raises ExternalServiceAPIError.

(** A language model that answers every call with the same text. *)
Definition constant_model (text : string) (_ : nat) (_ : request unit)
  : llm_result := Response text.

(** A decoder that gives up on every text. *)
Definition no_parse (_ : string) : option json := None.

(** A decoder that reads every text as the document [j]. *)
Definition parse_as (j : json) (_ : string) : option json := Some j.

(** A fresh facade: empty storage, empty cache of the default size, the
    default limits of the tracker. *)
Definition fresh : PM unit :=
  mkPM (LRU.mkLRU 1000 []) (Storage.empty unit)
       (Tracker.new_manager 5 120) 1000 0.

Definition user : string := "u".

(** One message waiting for ingestion. *)
Definition one_message : PM unit :=
  snd (add_persona_message "I like dogs" None (Some [("g", SStr "G")])
                           user 0 fresh).

(** Five entries in the section (likes, pets) of [user], and the profile
    of [user] read once, so that the cache holds it. *)
Definition five_entries : PM unit :=
  snd (for_each ["a"; "b"; "c"; "d"; "e"]
         (fun v => add_new_profile embed user "likes" v "pets" None None None)
         fresh).

Definition five_entries_cached : PM unit :=
  snd (get_user_profile user None five_entries).

Definition section : list (ProfileEntry unit) :=
  get_profile user [] (profile_storage five_entries).

(** The decoded response [{"keep_memories": []}]: the key
    ['consolidate_memories'] is missing. *)
Definition response_without_consolidate : json :=
  JDict [("keep_memories", JList [])].

(** The decoded response [{"consolidate_memories": [], "keep_memories": []}]. *)
Definition response_drop_all : json :=
  JDict [("consolidate_memories", JList []); ("keep_memories", JList [])].

(** Scenario 1 of the specification: the model answers the message with
    one [add] command. *)
Definition add_dogs : json :=
  JDict [("1", JDict [("command", JStr "add"); ("feature", JStr "likes");
                      ("tag", JStr "pets"); ("value", JStr "dogs")])].

(** Scenario 2 of the specification: a [delete] followed by an [add]. *)
Definition delete_then_add : json :=
  JDict [("1", JDict [("command", JStr "delete"); ("feature", JStr "tone");
                      ("tag", JStr "w")]);
         ("2", JDict [("command", JStr "add"); ("feature", JStr "tone");
                      ("tag", JStr "w"); ("value", JStr "formal")])].

(** The same isolation map written in two orders. *)
Definition iso_gs : isolations := [("g", SStr "G"); ("s", SStr "S")].
Definition iso_sg : isolations := [("s", SStr "S"); ("g", SStr "G")].

(** Scenario 5 of the specification. *)
Definition cited_rows : list (Z * isolations) :=
  [(1%Z, [("g", SStr "G"); ("s", SStr "S1")]);
   (2%Z, [("g", SStr "G"); ("s", SStr "S2")])].

(** The same scenario from the start: two messages under the two
    isolations, one profile entry citing each, and the consolidated entry
    the model proposes for them. *)
Definition iso_s1 : isolations := [("g", SStr "G"); ("s", SStr "S1")].
Definition iso_s2 : isolations := [("g", SStr "G"); ("s", SStr "S2")].

Definition two_sources : PM unit :=
  snd ((add_persona_message "I like dogs" None (Some iso_s1) user 0 ;;;
        add_persona_message "I like big dogs" None (Some iso_s2) user 1 ;;;
        add_new_profile embed user "likes" "dogs" "pets" None (Some iso_s1)
                        (Some [1%Z]) ;;;
        add_new_profile embed user "likes" "big dogs" "pets" None
                        (Some iso_s2) (Some [2%Z])) fresh).

Definition merged_memory : json :=
  JDict [("tag", JStr "pets"); ("feature", JStr "likes");
         ("value", JStr "dogs, big ones");
         ("metadata", JDict [("citations", JList [JInt 1; JInt 2])])].

Definition merged : ConsolidateMemory :=
  mkCM "pets" "likes" "dogs, big ones" [1%Z; 2%Z].

End Scenario.

(* ===================================================================== *)
(** * Decoding the answer of the model (lines 664-742)                    *)
(* ===================================================================== *)

Module Fallback.
Import Json.

Local Open Scope string_scope.

(** [f"{i}"] for an index of [enumerate]. *)
Definition str_of_nat (i : nat) : string :=
  DecimalString.NilZero.string_of_uint (Nat.to_uint i).

(** [f"{i}_{key}"]. *)
Definition prefixed (i : nat) (key : string) : string :=
  str_of_nat i ++ "_" ++ key.

(** The inner loop [for key, value in obj.items()] under the test
    [isinstance(obj, dict)]. *)
Definition merge_object (combined_json : PyDict.dict json)
  (iobj : nat * json) : PyDict.dict json :=
  match snd iobj with
  | JDict obj =>
      fold_left (fun acc kv =>
                   PyDict.set (prefixed (fst iobj) (fst kv)) (snd kv) acc)
                obj combined_json
  | _ => combined_json
  end.

(** [enumerate(json_objects)]. *)
Definition enumerate {A : Type} (l : list A) : list (nat * A) :=
  combine (seq 0 (length l)) l.

(** [combined_json] after the loop over [enumerate(json_objects)]. *)
Definition combine_objects (json_objects : list json) : PyDict.dict json :=
  fold_left merge_object (enumerate json_objects) [].

Section Scan.

(** [str.strip]. *)
Variable strip : string -> string.

(** [json.loads]; [None] stands for [json.JSONDecodeError] and
    [ValueError]. *)
Variable loads : string -> option json.

(** The variables of the scan; [tried] is a ghost: the texts cut out of
    the response so far, each handed (stripped) to [json.loads]. *)
Record scanner := mkScanner {
  json_objects : list json;
  brace_count : Z;
  current_json : string;
  in_string : bool;
  escape_next : bool;
  tried : list string
}.

Definition backslash_char : ascii := ascii_of_nat 92.
Definition quote_char : ascii := ascii_of_nat 34.
Definition open_brace : ascii := ascii_of_nat 123.
Definition close_brace : ascii := ascii_of_nat 125.

(** [current_json += char]. *)
Definition add_char (s : string) (char : ascii) : string :=
  s ++ String char EmptyString.

(** The body of [for char in response_json]. *)
Definition scan_char (st : scanner) (char : ascii) : scanner :=
  if escape_next st then
    mkScanner (json_objects st) (brace_count st)
              (add_char (current_json st) char) (in_string st) false
              (tried st)
  else if Ascii.eqb char backslash_char then
    mkScanner (json_objects st) (brace_count st)
              (add_char (current_json st) char) (in_string st) true
              (tried st)
  else
    let in_string :=
      if Ascii.eqb char quote_char && negb (escape_next st)
      then negb (in_string st) else in_string st in
    let current_json := add_char (current_json st) char in
    if negb in_string then
      if Ascii.eqb char open_brace then
        mkScanner (json_objects st) (brace_count st + 1) current_json
                  in_string (escape_next st) (tried st)
      else if Ascii.eqb char close_brace then
        let brace_count := (brace_count st - 1)%Z in
        if (brace_count =? 0)%Z
           && negb (String.eqb (strip current_json) EmptyString)
        then
          let json_objects :=
            match loads (strip current_json) with
            | Some obj => (json_objects st ++ [obj])%list
            | None => json_objects st
            end in
          mkScanner json_objects brace_count EmptyString in_string
                    (escape_next st) (tried st ++ [current_json])
        else
          mkScanner (json_objects st) brace_count current_json in_string
                    (escape_next st) (tried st)
      else
        mkScanner (json_objects st) (brace_count st) current_json in_string
                  (escape_next st) (tried st)
    else
      mkScanner (json_objects st) (brace_count st) current_json in_string
                (escape_next st) (tried st).

Definition start : scanner := mkScanner [] 0 EmptyString false false [].

(** [for char in response_json]. *)
Fixpoint scan_from (st : scanner) (text : string) : scanner :=
  match text with
  | EmptyString => st
  | String char rest => scan_from (scan_char st char) rest
  end.

Definition scan (response_json : string) : scanner :=
  scan_from start response_json.

End Scan.

End Fallback.

(* ===================================================================== *)
(** * Theorems                                                            *)
(* ===================================================================== *)

(** Split a conjunction into its parts, without touching the parts. *)
Ltac split_all := repeat match goal with |- _ /\ _ => split end.

(** Close a closed equation by evaluation. *)
Ltac by_eval := vm_compute; reflexivity.

Module RangeFilterFacts.
Import RangeFilter.

Unset Implicit Arguments.

Local Open Scope float_scope.

(** ** The floats of the examples *)

(** The float [0.1]. *)
Definition tenth : float := 0x1.999999999999ap-4.

(** The float [1e-17]. *)
Definition tiny : float := 0x1.70ef54646d497p-57.

(** The float [1e200]. *)
Definition huge : float := 0x1.4e718d7d7625ap+664.

(** Three candidates of equal score [0.1]. *)
Definition three_tenths : list (float * nat) :=
  [(tenth, 1%nat); (tenth, 2%nat); (tenth, 3%nat)].

(** Eight candidates in descending score order. *)
Definition eight_scores : list (float * nat) :=
  [(4, 1%nat); (1.5, 2%nat); (1.5, 3%nat); (1.5, 4%nat);
   (1, 5%nat); (1, 6%nat); (1, 7%nat); (0.5, 8%nat)].

(** The sum of a list of floats, added from the left as [accumulate]
    does. *)
Definition total (l : list float) : float :=
  match l with
  | [] => 0
  | x :: t => fold_left PrimFloat.add t x
  end.

(** The radicand the source computes for the first [n] scores. *)
Definition radicand_of (k : list float) (n : nat) : float :=
  radicand (total (firstn n k)) (total (map sqf (firstn n k))) n.

(** ** Subsequences *)

(** [l1] is [l2] with some elements left out: same elements, same order. *)
Inductive subseq {A : Type} : list A -> list A -> Prop :=
| subseq_nil : subseq [] []
| subseq_skip (x : A) (l1 l2 : list A) : subseq l1 l2 -> subseq l1 (x :: l2)
| subseq_keep (x : A) (l1 l2 : list A) :
    subseq l1 l2 -> subseq (x :: l1) (x :: l2).

Lemma subseq_nil_l {A : Type} (l : list A) : subseq [] l.
Proof. induction l; [apply subseq_nil|apply subseq_skip; assumption]. Qed.

Lemma subseq_map {A B : Type} (f : A -> B) (l1 l2 : list A) :
  subseq l1 l2 -> subseq (map f l1) (map f l2).
Proof.
  induction 1; cbn [map];
    [apply subseq_nil|apply subseq_skip|apply subseq_keep]; assumption.
Qed.

Lemma subseq_filter_all {A : Type} (p : A -> bool) (n : nat) (l : list A) :
  subseq (filter p (firstn n l)) l.
Proof.
  revert n. induction l as [|x l IH]; intros n.
  - rewrite firstn_nil. constructor.
  - destruct n as [|n]; [apply subseq_nil_l|].
    rewrite firstn_cons. cbn [filter].
    destruct (p x); [apply subseq_keep|apply subseq_skip]; apply IH.
Qed.

Lemma In_firstn_all {X : Type} (x : X) (n : nat) (l : list X) :
  In x (firstn n l) -> In x l.
Proof.
  revert n. induction l as [|y l IH]; intros n H.
  - now rewrite firstn_nil in H.
  - destruct n as [|n]; [destruct H|]. rewrite firstn_cons in H.
    destruct H as [->|H]; [now left|right; now apply (IH n)].
Qed.

Lemma combine_fst_snd {A B : Type} (l : list (A * B)) :
  combine (map fst l) (map snd l) = l.
Proof.
  induction l as [|[a b] l IH]; [reflexivity|].
  cbn [map combine fst snd]. now rewrite IH.
Qed.

(** ** Comparisons of floats *)

Lemma SFltb_nonneg_nonpos (r m : SpecFloat.spec_float) :
  SpecFloat.SFltb r (SpecFloat.S754_zero false) = false ->
  SpecFloat.SFleb m (SpecFloat.S754_zero false) = true ->
  SpecFloat.SFltb r m = false.
Proof.
  unfold SpecFloat.SFltb, SpecFloat.SFleb.
  destruct r as [sr|sr| |sr mr er], m as [sm|sm| |sm mm em];
    try destruct sr; try destruct sm; cbn; intros H1 H2;
    try reflexivity; try discriminate.
Qed.

Lemma ltb_nonneg_nonpos (r m : float) :
  (r <? 0) = false -> (m <=? 0) = true -> (r <? m) = false.
Proof.
  rewrite !FloatAxioms.ltb_spec, FloatAxioms.leb_spec. apply SFltb_nonneg_nonpos.
Qed.

Lemma abs_nonneg (x : float) : (PrimFloat.abs x <? 0) = false.
Proof.
  rewrite FloatAxioms.ltb_spec, FloatAxioms.abs_spec. unfold SpecFloat.SFltb.
  destruct (Prim2SF x) as [s|s| |s m e]; reflexivity.
Qed.

Lemma nan_nonneg (x : float) : PrimFloat.is_nan x = true -> (x <? 0) = false.
Proof.
  unfold PrimFloat.is_nan. rewrite FloatAxioms.eqb_spec, FloatAxioms.ltb_spec.
  unfold SpecFloat.SFeqb, SpecFloat.SFltb.
  destruct (Prim2SF x) as [s|s| |s m e]; cbn; try reflexivity;
    try discriminate.
  - destruct s; discriminate.
  - destruct s; cbn; rewrite ?Z.compare_refl, ?Pos.compare_refl;
      cbn; try discriminate;
      rewrite ?Pos.compare_cont_refl; cbn; discriminate.
Qed.

Lemma SFltb_irrefl (x : SpecFloat.spec_float) : SpecFloat.SFltb x x = false.
Proof.
  unfold SpecFloat.SFltb.
  destruct x as [s|s| |s m e]; cbn; try reflexivity.
  - destruct s; reflexivity.
  - destruct s; rewrite Z.compare_refl, Pos.compare_cont_refl; reflexivity.
Qed.

Lemma ltb_irrefl (x : float) : (x <? x) = false.
Proof. rewrite FloatAxioms.ltb_spec. apply SFltb_irrefl. Qed.

(** Subtracting [0.0] changes nothing. *)
Lemma sub_zero_ltb (x f : float) : (x - 0 <? f) = (x <? f).
Proof.
  rewrite !FloatAxioms.ltb_spec, FloatAxioms.sub_spec.
  change (Prim2SF 0) with (SpecFloat.S754_zero false).
  unfold SF64sub, SpecFloat.SFsub.
  destruct (Prim2SF x) as [[]|[]| |s m e]; reflexivity.
Qed.

Lemma filter_nothing {X : Type} (p : X -> bool) (l : list X) :
  (forall x, In x l -> p x = false) -> filter p l = [].
Proof.
  induction l as [|x l IH]; intros H; [reflexivity|].
  cbn [filter]. rewrite (H x (or_introl eq_refl)).
  apply IH. intros y Hy. apply H. now right.
Qed.

Section Facts.

Variable libm_pow : float -> float.

(** ** The gates *)

(** With a threshold that is not positive, and a C library whose roots
    are not negative, no gate lets a prefix through. *)
Lemma gate_no_std (max_std : float) (t : float * float * nat) (z : Z) :
  (max_std <=? 0) = true ->
  (forall x, (libm_pow x <? 0) = false) ->
  gate libm_pow max_std t = Some z -> z = (-1)%Z.
Proof.
  intros Hms Hlib. destruct t as [[s sq] d]. unfold gate, pow_half.
  set (r := radicand s sq d).
  destruct (PrimFloat.is_nan r) eqn:Hnan.
  { rewrite (ltb_nonneg_nonpos r max_std (nan_nonneg r Hnan) Hms).
    congruence. }
  destruct (PrimFloat.is_infinity r).
  { rewrite (ltb_nonneg_nonpos _ max_std (abs_nonneg r) Hms). congruence. }
  destruct (r =? 0).
  { rewrite (ltb_nonneg_nonpos 0 max_std eq_refl Hms). congruence. }
  destruct (r <? 0); [discriminate|].
  destruct (r =? 1).
  { rewrite (ltb_nonneg_nonpos 1 max_std eq_refl Hms). congruence. }
  rewrite (ltb_nonneg_nonpos _ max_std (Hlib r) Hms). congruence.
Qed.

Lemma sequence_Some {X : Type} (l : list (option X)) (r : list X) :
  sequence l = Some r -> l = map Some r.
Proof.
  revert r. induction l as [|[x|] l IH]; intros r; cbn [sequence].
  - intros [= <-]. reflexivity.
  - destruct (sequence l) as [r'|]; cbn [option_map]; [|discriminate].
    intros [= <-]. cbn [map]. now rewrite (IH r' eq_refl).
  - discriminate.
Qed.

Lemma sequence_None {X : Type} (l : list (option X)) :
  sequence l = None <-> In None l.
Proof.
  induction l as [|[x|] l IH]; cbn [sequence In].
  - split; [discriminate|tauto].
  - destruct (sequence l) as [r'|]; cbn [option_map].
    + split; [discriminate|]. intros [H|H]; [discriminate|].
      apply IH in H. discriminate.
    + split; [intros _; right; now apply IH|reflexivity].
  - split; [intros _; now left|reflexivity].
Qed.

Lemma py_max_all (x : Z) (l : list Z) (c : Z) :
  x = c -> Forall (fun z => z = c) l -> py_max x l = c.
Proof.
  intros -> H. unfold py_max. induction H as [|z l -> _ IH]; cbn [fold_left].
  - reflexivity.
  - now rewrite Z.max_id.
Qed.

Lemma take_of_no_std (k : list float) (max_std : float) (take : Z) :
  (max_std <=? 0) = true ->
  (forall x, (libm_pow x <? 0) = false) ->
  take_of libm_pow k max_std = Some take -> take = (-1)%Z.
Proof.
  intros Hms Hlib. unfold take_of.
  destruct (sequence _) as [r|] eqn:E; [|discriminate].
  apply sequence_Some in E.
  assert (H : Forall (fun z => z = (-1)%Z) r).
  { apply Forall_forall. intros z Hz.
    apply (in_map Some) in Hz. rewrite <- E in Hz.
    apply in_map_iff in Hz. destruct Hz as (t & Ht & _).
    now apply (gate_no_std max_std t z Hms Hlib). }
  destruct r as [|x l]; [congruence|].
  intros [= <-]. inversion H; subst. now apply py_max_all.
Qed.

(** ** The prefixes the gates look at *)

Lemma accumulate_from_prefixes (t : float) (l : list float) :
  accumulate_from t l
  = map (fun n => fold_left PrimFloat.add (firstn n l) t) (seq 1 (length l)).
Proof.
  revert t. induction l as [|x l IH]; intros t; [reflexivity|].
  cbn [accumulate_from length seq map firstn fold_left]. f_equal.
  rewrite IH, <- (seq_shift (length l) 1), map_map. reflexivity.
Qed.

Lemma accumulate_prefixes (k : list float) :
  accumulate k = map (fun n => total (firstn n k)) (seq 1 (length k)).
Proof.
  destruct k as [|x t]; [reflexivity|].
  cbn [accumulate length seq map firstn total fold_left]. f_equal.
  rewrite accumulate_from_prefixes, <- (seq_shift (length t) 1), map_map.
  reflexivity.
Qed.

Lemma combine_map_same {X Y W : Type} (f : X -> Y) (g : X -> W) (l : list X) :
  combine (map f l) (map g l) = map (fun x => (f x, g x)) l.
Proof.
  induction l as [|x l IH]; [reflexivity|]. cbn [map combine]. now rewrite IH.
Qed.

(** The triples of [zip(sums, square_sums, divs)]. *)
Lemma zip3_prefixes (k : list float) :
  zip3 (accumulate k) (accumulate (map sqf k)) (divs (length k))
  = map (fun n => (total (firstn n k), total (map sqf (firstn n k)), n))
        (seq 1 (length k)).
Proof.
  unfold zip3, divs. rewrite !accumulate_prefixes, length_map.
  rewrite combine_map_same.
  rewrite <- (map_id (seq 1 (length k))) at 2.
  rewrite combine_map_same. apply map_ext. intros n.
  now rewrite firstn_map.
Qed.

(** A radicand that is negative and not an infinity. *)
Definition negative (r : float) : bool :=
  (r <? 0) && negb (PrimFloat.is_infinity r).

Lemma pow_half_complex (r : float) :
  pow_half libm_pow r = PComplex <-> negative r = true.
Proof.
  unfold pow_half, negative.
  destruct (PrimFloat.is_nan r) eqn:Hnan.
  { rewrite (nan_nonneg r Hnan). cbn. split; discriminate. }
  destruct (PrimFloat.is_infinity r).
  { rewrite andb_false_r. split; discriminate. }
  destruct (r =? 0) eqn:Hz.
  { assert (H : (r <? 0) = false).
    { revert Hz. rewrite FloatAxioms.eqb_spec, FloatAxioms.ltb_spec.
      unfold SpecFloat.SFeqb, SpecFloat.SFltb.
      destruct (SpecFloat.SFcompare _ _) as [[ | | ]|];
        try discriminate; reflexivity. }
    rewrite H. cbn. split; discriminate. }
  destruct (r <? 0); cbn; [tauto|].
  destruct (r =? 1); split; discriminate.
Qed.

Lemma gate_None (max_std : float) (k : list float) (n : nat) :
  gate libm_pow max_std
       (total (firstn n k), total (map sqf (firstn n k)), n) = None
  <-> negative (radicand_of k n) = true.
Proof.
  unfold gate, radicand_of. rewrite <- pow_half_complex.
  destruct (pow_half _ _); split; congruence.
Qed.

Lemma take_of_None (k : list float) (max_std : float) :
  take_of libm_pow k max_std = None <->
  exists n : nat,
    (1 <= n <= length k)%nat /\ negative (radicand_of k n) = true.
Proof.
  unfold take_of. rewrite zip3_prefixes, map_map.
  destruct (sequence _) as [[|x l]|] eqn:E.
  1,2: split; [discriminate|]; intros (n & Hn & Hneg);
    assert (H : sequence
                  (map (fun n => gate libm_pow max_std
                     (total (firstn n k), total (map sqf (firstn n k)), n))
                     (seq 1 (length k))) = None)
      by (apply sequence_None, in_map_iff; exists n; split;
          [now apply gate_None|apply in_seq; lia]);
    congruence.
  split; [intros _|reflexivity].
  apply sequence_None, in_map_iff in E. destruct E as (n & Hg & Hin).
  exists n. split; [apply in_seq in Hin; lia|now apply gate_None in Hg].
Qed.

End Facts.

(** ** C4 *)

(** C4 (the code departs from its docstring).  A single candidate lies
    within every range and its scores have standard deviation 0, so the
    longest prefix the docstring describes is the candidate itself; the
    code returns the empty list for it when [max_std] is 0, when
    [max_range] is 0, when [max_range] is too small to move the score
    ([1.0 - 1e-17] is [1.0]) and when the square of the score is not a
    finite float, whatever the C library computes. *)
Theorem range_filter_single_dropped :
  forall (libm_pow : float -> float) (A : Type) (x : A),
    range_filter libm_pow [(1, x)] 1 0 = Returns [] /\
    range_filter libm_pow [(1, x)] 0 1 = Returns [] /\
    range_filter libm_pow [(1, x)] tiny 1 = Returns [] /\
    range_filter libm_pow [(huge, x)] 1 1 = Returns [].
Proof. intros libm_pow A x. split_all; by_eval. Qed.

(** ** C5 *)

(** Scores in descending order. *)
Fixpoint descending (k : list float) : bool :=
  match k with
  | a :: (b :: _) as t => (b <=? a) && descending t
  | _ => true
  end.

(** C5 (the code departs from its docstring).  On three candidates of
    score [0.1], in descending order, the rounded radicand of the third
    prefix is negative, its power [0.5] is a complex number and the
    comparison with [max_std] raises [TypeError]: no list is returned.
    On eight candidates in descending order with [max_range = 3] and
    [max_std = 1.0625] the whole list passes the gate of the standard
    deviation, the range then keeps the first four candidates, and the
    variance of their scores, [1.171875] by the formula of the source
    (exact here), is above the square of [max_std]. *)
Theorem range_filter_descending_fails :
  forall libm_pow : float -> float,
    descending (map fst three_tenths) = true /\
    range_filter libm_pow three_tenths 2 1 = RaisesTypeError /\
    negative (radicand_of (map fst three_tenths) 3) = true /\
    descending (map fst eight_scores) = true /\
    range_filter libm_pow eight_scores 3 1.0625
    = Returns [1; 2; 3; 4]%nat /\
    radicand_of (map fst eight_scores) 4 = 1.171875 /\
    (1.0625 * 1.0625 <? 1.171875) = true.
Proof.
  intros libm_pow. split_all; try by_eval.
  vm_compute.
  repeat match goal with
         | |- context [libm_pow ?x <? ?m] => destruct (libm_pow x <? m)
         end; reflexivity.
Qed.

End RangeFilterFacts.

Module LRUFacts.
Import LRU.

Unset Implicit Arguments.

Section Facts.

Variables K V : Type.
Variable K_eq_dec : forall a b : K, {a = b} + {a <> b}.

Abbreviation Cache := (LRUCache K V).
Abbreviation rm := (remove K_eq_dec).

(** ** Lists of keys *)

Lemma NoDup_rm (k : K) (r : list K) : NoDup r -> NoDup (rm k r).
Proof.
  induction 1 as [|x r Hx Hr IH]; cbn; [constructor|].
  destruct (K_eq_dec k x); [exact IH|].
  constructor; [|exact IH]. intros Hin. apply in_remove in Hin. tauto.
Qed.

Lemma In_firstn (x : K) (m : nat) : forall r, In x (firstn m r) -> In x r.
Proof.
  induction m as [|m IH]; intros [|y r] H; cbn in *; try tauto.
  destruct H as [->|H]; [now left|right; now apply IH].
Qed.

Lemma In_firstn_le (x : K) (a b : nat) (r : list K) :
  (a <= b)%nat -> In x (firstn a r) -> In x (firstn b r).
Proof.
  intros Hab H. replace a with (Nat.min a b) in H by lia.
  rewrite <- firstn_firstn in H. revert H. apply In_firstn.
Qed.

Lemma rm_firstn_in (k : K) (r : list K) : forall m,
  NoDup r -> In k (firstn m r) ->
  rm k (firstn m r) = firstn (m - 1) (rm k r).
Proof.
  induction r as [|x r IH]; intros m Hnd Hin.
  - rewrite firstn_nil in Hin. destruct Hin.
  - destruct m as [|m]; [destruct Hin|].
    apply NoDup_cons_iff in Hnd. destruct Hnd as [Hx Hnd].
    cbn [firstn remove]. destruct (K_eq_dec k x) as [->|Hne].
    + replace (S m - 1)%nat with m by lia.
      rewrite !notin_remove; auto.
      intros H. apply Hx. revert H. apply In_firstn.
    + destruct Hin as [->|Hin]; [congruence|].
      destruct m as [|m]; [destruct Hin|].
      replace (S (S m) - 1)%nat with (S m) by lia.
      rewrite firstn_cons. f_equal.
      rewrite (IH (S m) Hnd Hin). f_equal. lia.
Qed.

Lemma rm_firstn_notin (k : K) (r : list K) : forall m,
  ~ In k (firstn m r) -> (m <= length r)%nat ->
  firstn m (rm k r) = firstn m r.
Proof.
  induction r as [|x r IH]; intros m Hin Hm.
  - reflexivity.
  - destruct m as [|m]; [reflexivity|].
    rewrite firstn_cons in Hin. cbn [In] in Hin. cbn [length] in Hm.
    cbn [remove]. destruct (K_eq_dec k x) as [->|Hne].
    + exfalso. apply Hin. now left.
    + rewrite !firstn_cons. f_equal. apply IH; [tauto|lia].
Qed.

Lemma length_rm_in (k : K) (r : list K) :
  NoDup r -> In k r -> S (length (rm k r)) = length r.
Proof.
  induction 1 as [|x r Hx Hr IH]; intros Hin; [destruct Hin|].
  cbn [remove length]. destruct (K_eq_dec k x) as [->|Hne].
  - now rewrite notin_remove.
  - destruct Hin as [->|Hin]; [congruence|]. cbn [length]. now rewrite IH.
Qed.

(** ** Nodes and keys *)

Lemma lookup_Some (k : K) (c : Cache) (n : Node K V) :
  lookup K_eq_dec k c = Some n -> key n = k /\ In k (resident c).
Proof.
  unfold lookup, resident. intros H. apply find_some in H.
  destruct H as [Hin Hk]. destruct (K_eq_dec (key n) k) as [E|]; [|discriminate].
  split; [exact E|]. rewrite <- E. now apply in_map.
Qed.

Lemma lookup_None (k : K) (c : Cache) :
  lookup K_eq_dec k c = None -> ~ In k (resident c).
Proof.
  unfold lookup, resident. intros H Hin.
  apply in_map_iff in Hin. destruct Hin as (n & E & Hin).
  pose proof (find_none _ _ H n Hin) as Hn. cbn in Hn.
  destruct (K_eq_dec (key n) k); [discriminate|congruence].
Qed.

Lemma resident_remove_node (k : K) (l : list (Node K V)) :
  NoDup (map (@key K V) l) ->
  map (@key K V) (remove_node K_eq_dec k l) = rm k (map (@key K V) l).
Proof.
  induction l as [|n l IH]; intros Hnd; [reflexivity|].
  cbn [map] in Hnd. apply NoDup_cons_iff in Hnd. destruct Hnd as [Hn Hnd].
  cbn [remove_node map remove].
  destruct (K_eq_dec (key n) k) as [E|Hne]; destruct (K_eq_dec k (key n)) as [E'|Hne'];
    try congruence.
  - rewrite notin_remove; [reflexivity|]. now rewrite E'.
  - cbn [map]. now rewrite IH.
Qed.

Lemma length_remove_node (k : K) (l : list (Node K V)) :
  In k (map (@key K V) l) -> S (length (remove_node K_eq_dec k l)) = length l.
Proof.
  induction l as [|n l IH]; intros Hin; [destruct Hin|].
  cbn [remove_node]. destruct (K_eq_dec (key n) k) as [E|Hne]; [reflexivity|].
  cbn [length]. destruct Hin as [Hin|Hin]; [congruence|]. now rewrite IH.
Qed.

Lemma inv_NoDup_resident (c : Cache) (r : list K) :
  inv c r -> NoDup (resident c).
Proof.
  intros (Hnd & Hres & _). rewrite Hres.
  rewrite <- (firstn_skipn (length (nodes c)) r) in Hnd.
  now apply NoDup_app_remove_r in Hnd.
Qed.

Lemma inv_length (c : Cache) (r : list K) :
  inv c r -> (length (nodes c) <= length r)%nat.
Proof.
  intros (_ & Hres & _). apply (f_equal (@length K)) in Hres.
  unfold resident in Hres. rewrite length_map, length_firstn in Hres. lia.
Qed.

Lemma length_rm_ge (k : K) (r : list K) :
  NoDup r -> (length r <= S (length (rm k r)))%nat.
Proof.
  intros Hnd. destruct (in_dec K_eq_dec k r) as [Hin|Hin].
  - rewrite <- (length_rm_in k r Hnd Hin). lia.
  - rewrite notin_remove by exact Hin. lia.
Qed.

Lemma resident_in_history (c : Cache) (r : list K) (k : K) :
  inv c r -> In k (resident c) -> In k r.
Proof.
  intros (_ & Hres & _) Hin. rewrite Hres in Hin. revert Hin. apply In_firstn.
Qed.

(** ** One operation preserves the invariant *)

(** A hit ([get], or [put] on a resident key) moves the node to the front. *)
Lemma inv_promote (k : K) (x : Node K V) (c : Cache) (r : list K) :
  inv c r -> In k (resident c) -> key x = k ->
  inv (mkLRU (capacity c) (add_to_front x (remove_node K_eq_dec k (nodes c))))
      (touch K_eq_dec k r).
Proof.
  intros Hinv Hin Hx. pose proof (inv_NoDup_resident c r Hinv) as Hnd'.
  destruct Hinv as (Hnd & Hres & Hcap & Hlen).
  pose proof (length_remove_node k (nodes c) Hin) as Hl.
  unfold inv, touch, add_to_front, resident in *. cbn [nodes capacity length map].
  repeat split.
  - constructor; [apply remove_In|now apply NoDup_rm].
  - rewrite Hx, resident_remove_node by exact Hnd'.
    rewrite Hl. destruct (length (nodes c)) as [|m] eqn:Em; [lia|].
    rewrite firstn_cons. f_equal. rewrite Hres.
    rewrite rm_firstn_in; [f_equal; lia|exact Hnd|now rewrite <- Hres].
  - exact Hcap.
  - lia.
Qed.

Lemma inv_erase_hit (k : K) (c : Cache) (r : list K) :
  inv c r -> In k (resident c) ->
  inv (mkLRU (capacity c) (remove_node K_eq_dec k (nodes c))) (rm k r).
Proof.
  intros Hinv Hin. pose proof (inv_NoDup_resident c r Hinv) as Hnd'.
  destruct Hinv as (Hnd & Hres & Hcap & Hlen).
  pose proof (length_remove_node k (nodes c) Hin) as Hl.
  unfold inv, resident in *. cbn [nodes capacity].
  repeat split.
  - now apply NoDup_rm.
  - rewrite resident_remove_node by exact Hnd'. rewrite Hres.
    rewrite rm_firstn_in; [f_equal; lia|exact Hnd|now rewrite <- Hres].
  - exact Hcap.
  - lia.
Qed.

Lemma inv_erase_miss (k : K) (c : Cache) (r : list K) :
  inv c r -> ~ In k (resident c) -> inv c (rm k r).
Proof.
  intros Hinv Hin. pose proof (inv_length c r Hinv) as Hle.
  destruct Hinv as (Hnd & Hres & Hcap & Hlen).
  unfold inv. repeat split; auto.
  - now apply NoDup_rm.
  - rewrite rm_firstn_notin; [exact Hres| |exact Hle]. now rewrite <- Hres.
Qed.

Lemma resident_removelast (c : Cache) (r : list K) :
  inv c r ->
  map (@key K V) (removelast (nodes c)) = firstn (length (nodes c) - 1) r.
Proof.
  intros (_ & Hres & _). unfold resident in Hres.
  rewrite removelast_firstn_len, <- firstn_map, Hres, firstn_firstn.
  f_equal. lia.
Qed.

Lemma inv_put_miss (k : K) (v : V) (c : Cache) (r : list K) :
  inv c r -> ~ In k (resident c) ->
  inv (mkLRU (capacity c)
         (add_to_front (mkNode k v)
            (if (Z.of_nat (length (nodes c)) >=? capacity c)%Z
             then removelast (nodes c) else nodes c)))
      (touch K_eq_dec k r).
Proof.
  intros Hinv Hin. pose proof (inv_length c r Hinv) as Hle.
  pose proof (resident_removelast c r Hinv) as Hrl.
  destruct Hinv as (Hnd & Hres & Hcap & Hlen).
  assert (Hnd' : NoDup (touch K_eq_dec k r)).
  { constructor; [apply remove_In|now apply NoDup_rm]. }
  unfold inv, touch, add_to_front, resident in *.
  cbn [nodes capacity length map key].
  destruct (Z.geb_spec (Z.of_nat (length (nodes c))) (capacity c)) as [Hfull|Hfree].
  - assert (Hm : (1 <= length (nodes c))%nat) by lia.
    assert (Hlr : length (removelast (nodes c)) = (length (nodes c) - 1)%nat).
    { rewrite removelast_firstn_len, length_firstn. lia. }
    repeat split; auto.
    + rewrite Hlr, Hrl. rewrite firstn_cons. f_equal.
      rewrite rm_firstn_notin; [reflexivity| |lia].
      intros H. apply Hin. rewrite Hres.
      apply (In_firstn_le k (length (nodes c) - 1)); [lia|exact H].
    + lia.
  - repeat split; auto.
    + rewrite firstn_cons. f_equal. rewrite Hres.
      rewrite rm_firstn_notin; [reflexivity| |lia]. now rewrite <- Hres.
    + lia.
Qed.

(** ** Access sequences *)

Lemma track_step (o : op K V) (c : Cache) (r : list K) :
  fst (track K_eq_dec (c, r) o) = step K_eq_dec c o.
Proof.
  destruct o as [k|k v|k]; cbn [track]; try reflexivity.
  now destruct (lookup K_eq_dec k c).
Qed.

Lemma track_run (ops : list (op K V)) : forall (c : Cache) (r : list K),
  fst (fold_left (track K_eq_dec) ops (c, r)) = run K_eq_dec ops c.
Proof.
  induction ops as [|o ops IH]; intros c r; [reflexivity|].
  cbn [fold_left]. unfold run. cbn [fold_left].
  rewrite (surjective_pairing (track K_eq_dec (c, r) o)), track_step.
  apply IH.
Qed.

Lemma capacity_step (o : op K V) (c : Cache) :
  capacity (step K_eq_dec c o) = capacity c.
Proof.
  destruct o as [k|k v|k]; cbn [step]; unfold get, put, erase;
    now destruct (lookup K_eq_dec k c).
Qed.

Lemma capacity_run (ops : list (op K V)) : forall c : Cache,
  capacity (run K_eq_dec ops c) = capacity c.
Proof.
  unfold run. induction ops as [|o ops IH]; intros c; [reflexivity|].
  cbn [fold_left]. now rewrite IH, capacity_step.
Qed.

Lemma track_inv (o : op K V) (c : Cache) (r : list K) :
  inv c r ->
  inv (fst (track K_eq_dec (c, r) o)) (snd (track K_eq_dec (c, r) o)).
Proof.
  intros Hinv.
  destruct o as [k|k v|k]; cbn [track step]; unfold get, put, erase;
    destruct (lookup K_eq_dec k c) as [n|] eqn:E; cbn [fst snd];
    try (apply lookup_Some in E; destruct E as [Hk Hin]);
    try (apply lookup_None in E).
  - now apply inv_promote.
  - exact Hinv.
  - now apply inv_promote.
  - now apply inv_put_miss.
  - now apply inv_erase_hit.
  - now apply inv_erase_miss.
Qed.

Lemma track_filled (o : op K V) (c : Cache) (r : list K) :
  is_erase o = false -> inv c r -> filled c r ->
  filled (fst (track K_eq_dec (c, r) o)) (snd (track K_eq_dec (c, r) o)).
Proof.
  intros Ho Hinv Hf. pose proof (inv_length c r Hinv) as Hle.
  assert (Hhit : forall k x, In k (resident c) ->
    filled (mkLRU (capacity c)
              (add_to_front x (remove_node K_eq_dec k (nodes c))))
           (touch K_eq_dec k r)).
  { intros k x Hin. unfold filled, touch, add_to_front in *.
    cbn [nodes capacity length].
    rewrite (length_remove_node k (nodes c) Hin).
    rewrite (length_rm_in k r); [exact Hf|apply Hinv|].
    now apply (resident_in_history c r). }
  destruct o as [k|k v|k]; [| |discriminate]; cbn [track step];
    unfold get, put;
    destruct (lookup K_eq_dec k c) as [n|] eqn:E; cbn [fst snd];
    try (apply lookup_Some in E; destruct E as [Hk Hin]);
    try (apply lookup_None in E); auto.
  destruct Hinv as (Hnd & Hres & Hcap & Hlen).
  pose proof (length_rm_ge k r Hnd) as Hge.
  unfold filled, touch, add_to_front in *. cbn [nodes capacity length].
  destruct (Z.geb_spec (Z.of_nat (length (nodes c))) (capacity c)) as [Hfull|Hfree].
  - rewrite removelast_firstn_len, length_firstn. lia.
  - assert (Hall : length (nodes c) = length r) by lia.
    assert (Hnot : ~ In k r).
    { intros H. apply E. rewrite Hres, Hall, firstn_all. exact H. }
    rewrite notin_remove by exact Hnot. lia.
Qed.

Lemma fold_inv (ops : list (op K V)) : forall (c : Cache) (r : list K),
  inv c r ->
  inv (fst (fold_left (track K_eq_dec) ops (c, r)))
      (snd (fold_left (track K_eq_dec) ops (c, r))).
Proof.
  induction ops as [|o ops IH]; intros c r Hinv; [exact Hinv|].
  cbn [fold_left]. rewrite (surjective_pairing (track K_eq_dec (c, r) o)).
  apply IH. now apply track_inv.
Qed.

Lemma fold_filled (ops : list (op K V)) : forall (c : Cache) (r : list K),
  forallb (fun o => negb (is_erase o)) ops = true ->
  inv c r -> filled c r ->
  filled (fst (fold_left (track K_eq_dec) ops (c, r)))
         (snd (fold_left (track K_eq_dec) ops (c, r))).
Proof.
  induction ops as [|o ops IH]; intros c r Hne Hinv Hf; [exact Hf|].
  cbn [forallb] in Hne. apply andb_true_iff in Hne. destruct Hne as [Ho Hne].
  apply negb_true_iff in Ho.
  cbn [fold_left]. rewrite (surjective_pairing (track K_eq_dec (c, r) o)).
  apply IH; [exact Hne|now apply track_inv|now apply track_filled].
Qed.

Lemma new_inv (N : Z) (c0 : Cache) :
  new K V N = Some c0 -> c0 = mkLRU N [] /\ inv c0 [] /\ filled c0 [].
Proof.
  unfold new. destruct (Z.leb_spec N 0) as [|Hpos]; [discriminate|].
  intros E. injection E as <-. split; [reflexivity|]. split.
  - unfold inv, resident. cbn. repeat split; [constructor|lia|lia].
  - unfold filled. cbn. lia.
Qed.

Lemma map_removelast (l : list (Node K V)) :
  map (@key K V) (removelast l) = removelast (map (@key K V) l).
Proof.
  now rewrite !removelast_firstn_len, length_map, firstn_map.
Qed.

(** ** The held keys *)

Lemma lookup_hit (k : K) (c : Cache) :
  In k (resident c) -> exists n, lookup K_eq_dec k c = Some n /\ key n = k.
Proof.
  intros Hin. destruct (lookup K_eq_dec k c) as [n|] eqn:E.
  - exists n. split; [reflexivity|]. now apply (lookup_Some k c n).
  - now apply lookup_None in E.
Qed.

Lemma held_step_resident (o : op K V) (c : Cache) :
  NoDup (resident c) ->
  held_step K_eq_dec (capacity c) (resident c) o
  = resident (step K_eq_dec c o).
Proof.
  intros Hnd. destruct o as [k|k v|k]; cbn [held_step step].
  - unfold get. destruct (in_dec K_eq_dec k (resident c)) as [Hin|Hout].
    + destruct (lookup_hit k c Hin) as (n & -> & Hk). cbn [snd].
      unfold resident, add_to_front, touch. cbn [nodes map].
      rewrite Hk. f_equal. symmetry. now apply resident_remove_node.
    + destruct (lookup K_eq_dec k c) as [n|] eqn:E; [|reflexivity].
      destruct (lookup_Some k c n E) as [_ Hin]. contradiction.
  - unfold put. destruct (in_dec K_eq_dec k (resident c)) as [Hin|Hout].
    + destruct (lookup_hit k c Hin) as (n & -> & Hk).
      unfold resident, add_to_front, touch. cbn [nodes map key].
      rewrite Hk. f_equal. symmetry. now apply resident_remove_node.
    + destruct (lookup K_eq_dec k c) as [n|] eqn:E.
      { destruct (lookup_Some k c n E) as [_ Hin]. contradiction. }
      unfold resident, add_to_front. cbn [nodes map key].
      rewrite length_map. f_equal.
      destruct (Z.of_nat (length (nodes c)) >=? capacity c)%Z;
        [now rewrite map_removelast|reflexivity].
  - unfold erase. destruct (lookup K_eq_dec k c) as [n|] eqn:E.
    + unfold resident. cbn [nodes]. symmetry.
      now apply resident_remove_node.
    + apply notin_remove. now apply lookup_None.
Qed.

Lemma held_run (ops : list (op K V)) : forall (c : Cache) (r : list K),
  inv c r ->
  fold_left (held_step K_eq_dec (capacity c)) ops (resident c)
  = resident (run K_eq_dec ops c).
Proof.
  induction ops as [|o ops IH]; intros c r Hinv; [reflexivity|].
  cbn [fold_left]. unfold run. cbn [fold_left].
  rewrite (held_step_resident o c (inv_NoDup_resident c r Hinv)).
  pose proof (track_inv o c r Hinv) as Hinv'. rewrite track_step in Hinv'.
  rewrite <- (capacity_step o c). exact (IH _ _ Hinv').
Qed.

(** ** C7 *)

(** C7 (amended): after any sequence of [get], [put] and [erase] on a
    cache of capacity [N > 0], the resident keys are exactly the keys
    touched and since then neither erased nor evicted, in the order of
    their last touch, where the only eviction is the one of the least
    recently touched of [N] held keys by the [put] of a further key; they
    are the [m] most recently touched distinct keys among those touched
    and not subsequently erased, where [m <= N] is the number of held
    keys; when the sequence has no [erase], they are the [N] most
    recently touched distinct keys (all of them when fewer than [N] were
    touched); and a [put] of a new key on a full cache evicts the least
    recently touched resident key. *)
Theorem lru_resident_recent (N : Z) (c0 : Cache) (ops : list (op K V)) :
  new K V N = Some c0 ->
  let c := run K_eq_dec ops c0 in
  let r := live_touched K_eq_dec ops c0 in
  resident c = held K_eq_dec N ops /\
  resident c = firstn (length (held K_eq_dec N ops)) r /\
  (Z.of_nat (length (resident c)) <= N)%Z /\
  (forallb (fun o => negb (is_erase o)) ops = true ->
     resident c = firstn (Z.to_nat N) r) /\
  (forall k v,
     lookup K_eq_dec k c = None ->
     (N <= Z.of_nat (length (resident c)))%Z ->
     resident (put K_eq_dec k v c) = k :: removelast (resident c)).
Proof.
  intros Hnew c r.
  destruct (new_inv N c0 Hnew) as (Hc0 & Hinv0 & Hf0).
  pose proof (fold_inv ops c0 [] Hinv0) as Hinv.
  rewrite track_run in Hinv. fold c in Hinv.
  change (snd (fold_left (track K_eq_dec) ops (c0, []))) with r in Hinv.
  assert (HN : capacity c = N).
  { unfold c. rewrite capacity_run, Hc0. reflexivity. }
  pose proof Hinv as (Hnd & Hres & Hcap & Hlen).
  assert (Hl : length (resident c) = length (nodes c)).
  { unfold resident. apply length_map. }
  assert (Hheld : resident c = held K_eq_dec N ops).
  { pose proof (held_run ops c0 [] Hinv0) as H.
    rewrite Hc0 in H at 1 2. cbn [capacity resident nodes map] in H.
    symmetry. exact H. }
  split; [exact Hheld|].
  split; [now rewrite <- Hheld, Hl|]. split; [lia|]. split.
  - intros Hne.
    pose proof (fold_filled ops c0 [] Hne Hinv0 Hf0) as Hf.
    rewrite track_run in Hf. fold c in Hf.
    change (snd (fold_left (track K_eq_dec) ops (c0, []))) with r in Hf.
    unfold filled in Hf. rewrite HN in Hf. rewrite Hres, Hf.
    destruct (Nat.le_ge_cases (Z.to_nat N) (length r)) as [H|H].
    + f_equal. lia.
    + replace (Nat.min (Z.to_nat N) (length r)) with (length r) by lia.
      now rewrite firstn_all, firstn_all2.
  - intros k v Hmiss Hfull. unfold put. rewrite Hmiss.
    unfold resident, add_to_front. cbn [nodes map key].
    destruct (Z.geb_spec (Z.of_nat (length (nodes c))) (capacity c)) as [_|Hfree];
      [|lia].
    now rewrite map_removelast.
Qed.

End Facts.

(** C7, as stated, fails once a key was erased: an evicted key is not
    brought back.  With capacity 2, after [put 1], [put 2], [put 3] (which
    evicts 1) and [erase 3], only key 2 is resident, while the two most
    recently touched keys among those touched and not subsequently erased
    are 2 and 1. *)
Lemma lru_erase_counterexample :
  let c0 : LRUCache nat nat := mkLRU 2 [] in
  let ops := [Put 1%nat 10%nat; Put 2%nat 20%nat; Put 3%nat 30%nat;
              Erase nat 3%nat] in
  new nat nat 2 = Some c0 /\
  resident (run Nat.eq_dec ops c0) = [2%nat] /\
  firstn (Z.to_nat 2) (live_touched Nat.eq_dec ops c0) = [2%nat; 1%nat] /\
  ~ (forall k, In k (resident (run Nat.eq_dec ops c0)) <->
               In k (firstn (Z.to_nat 2) (live_touched Nat.eq_dec ops c0))).
Proof.
  cbv zeta. repeat split; try reflexivity.
  intros H. specialize (H 1%nat). cbn in H.
  destruct H as [_ H]. destruct H as [H|[]]; [|discriminate].
  now right; left.
Qed.

Lemma lru_resident_recent_witness :
  let c0 : LRUCache nat nat := mkLRU 3 [] in
  let ops := [Put 1%nat 10%nat; Get nat 1%nat; Put 2%nat 20%nat;
              Put 3%nat 30%nat; Erase nat 1%nat; Get nat 7%nat] in
  let c := run Nat.eq_dec ops c0 in
  let r := live_touched Nat.eq_dec ops c0 in
  new nat nat 3 = Some c0 /\
  (resident c = held Nat.eq_dec 3 ops /\
   resident c = firstn (length (held Nat.eq_dec 3 ops)) r /\
   (Z.of_nat (length (resident c)) <= 3)%Z /\
   (forallb (fun o => negb (is_erase o)) ops = true ->
      resident c = firstn (Z.to_nat 3) r) /\
   (forall k v,
      lookup Nat.eq_dec k c = None ->
      (3 <= Z.of_nat (length (resident c)))%Z ->
      resident (put Nat.eq_dec k v c) = k :: removelast (resident c))).
Proof.
  intros c0 ops c r. split; [reflexivity|].
  exact (@lru_resident_recent nat nat Nat.eq_dec 3 c0 ops eq_refl).
Defined.

End LRUFacts.

Module PyDictFacts.
Import PyDict.

Unset Implicit Arguments.

Section Facts.

Variable V : Type.

Lemma get_In (k : string) (v : V) (d : dict V) :
  get k d = Some v -> In (k, v) d.
Proof.
  induction d as [|[k' v'] d IH]; cbn [get]; [discriminate|].
  destruct (String.eqb_spec k' k) as [->|Hne].
  - intros E. injection E as ->. now left.
  - intros E. right. now apply IH.
Qed.

Lemma In_get (k : string) (v : V) (d : dict V) :
  NoDup (keys d) -> In (k, v) d -> get k d = Some v.
Proof.
  induction d as [|[k' v'] d IH]; intros Hnd Hin; [destruct Hin|].
  cbn [keys map fst] in Hnd. apply NoDup_cons_iff in Hnd.
  destruct Hnd as [Hk Hnd]. cbn [get].
  destruct Hin as [E|Hin].
  - injection E as -> ->. now rewrite String.eqb_refl.
  - destruct (String.eqb_spec k' k) as [->|Hne]; [|now apply IH].
    exfalso. apply Hk. change k with (fst (k, v)). now apply in_map.
Qed.

Lemma get_None (k : string) (d : dict V) :
  get k d = None <-> ~ In k (keys d).
Proof.
  induction d as [|[k' v'] d IH]; cbn [get keys map fst In]; [tauto|].
  destruct (String.eqb_spec k' k) as [->|Hne].
  - split; [discriminate|]. intros H. exfalso. apply H. now left.
  - unfold keys in IH. rewrite IH. tauto.
Qed.

Lemma contains_true (k : string) (d : dict V) :
  contains k d = true <-> In k (keys d).
Proof.
  unfold contains. destruct (get k d) as [v|] eqn:E.
  - split; [intros _|reflexivity]. apply get_In in E.
    change k with (fst (k, v)). now apply in_map.
  - apply get_None in E. split; [discriminate|tauto].
Qed.

Lemma get_set_eq (k : string) (v : V) (d : dict V) :
  get k (set k v d) = Some v.
Proof.
  induction d as [|[k' v'] d IH]; cbn [set get].
  - now rewrite String.eqb_refl.
  - destruct (String.eqb_spec k' k) as [->|Hne]; cbn [get].
    + now rewrite String.eqb_refl.
    + destruct (String.eqb_spec k' k); [congruence|exact IH].
Qed.

Lemma get_set_ne (k k' : string) (v : V) (d : dict V) :
  k <> k' -> get k' (set k v d) = get k' d.
Proof.
  intros Hne. induction d as [|[k0 v0] d IH]; cbn [set get].
  - destruct (String.eqb_spec k k'); [congruence|reflexivity].
  - destruct (String.eqb_spec k0 k) as [->|Hne0]; cbn [get].
    + destruct (String.eqb_spec k k'); [congruence|reflexivity].
    + now rewrite IH.
Qed.

Lemma keys_set (k : string) (v : V) (d : dict V) :
  keys (set k v d) = if contains k d then keys d else keys d ++ [k].
Proof.
  unfold contains.
  induction d as [|[k0 v0] d IH]; cbn [set get keys map fst app]; [reflexivity|].
  destruct (String.eqb_spec k0 k) as [->|Hne]; cbn [map fst]; [reflexivity|].
  unfold keys in IH. rewrite IH. now destruct (get k d).
Qed.

Lemma NoDup_keys_set (k : string) (v : V) (d : dict V) :
  NoDup (keys d) -> NoDup (keys (set k v d)).
Proof.
  intros Hnd. rewrite keys_set. destruct (contains k d) eqn:E; [exact Hnd|].
  assert (Hk : ~ In k (keys d)).
  { intros H. apply contains_true in H. congruence. }
  apply NoDup_app; [exact Hnd|repeat constructor; intros []|].
  intros a Ha [<-|[]]. contradiction.
Qed.

Lemma In_set (k u : string) (v t : V) (d : dict V) :
  NoDup (keys d) -> In (u, t) (set k v d) ->
  (u = k /\ t = v) \/ (u <> k /\ In (u, t) d).
Proof.
  intros Hnd Hin.
  apply In_get in Hin; [|now apply NoDup_keys_set].
  destruct (string_dec k u) as [<-|Hne].
  - rewrite get_set_eq in Hin. injection Hin as <-. now left.
  - rewrite get_set_ne in Hin by exact Hne. right. split; [congruence|].
    now apply get_In.
Qed.

Lemma keys_del_incl (k k' : string) (d : dict V) :
  In k' (keys (del k d)) -> In k' (keys d).
Proof.
  induction d as [|[k0 v0] d IH]; cbn [del keys map fst]; [tauto|].
  destruct (String.eqb k0 k); cbn [map fst In]; [tauto|].
  intros [H|H]; [now left|right; now apply IH].
Qed.

Lemma NoDup_keys_del (k : string) (d : dict V) :
  NoDup (keys d) -> NoDup (keys (del k d)).
Proof.
  induction d as [|[k0 v0] d IH]; cbn [del keys map fst]; [tauto|].
  intros Hnd. apply NoDup_cons_iff in Hnd. destruct Hnd as [Hk Hnd].
  destruct (String.eqb k0 k); [exact Hnd|].
  cbn [map fst]. constructor; [|now apply IH].
  intros H. apply Hk. now apply (keys_del_incl k).
Qed.

Lemma get_del_eq (k : string) (d : dict V) :
  NoDup (keys d) -> get k (del k d) = None.
Proof.
  induction d as [|[k0 v0] d IH]; cbn [del keys map fst]; [reflexivity|].
  intros Hnd. apply NoDup_cons_iff in Hnd. destruct Hnd as [Hk Hnd].
  destruct (String.eqb_spec k0 k) as [->|Hne].
  - now apply get_None.
  - cbn [get]. destruct (String.eqb_spec k0 k); [congruence|now apply IH].
Qed.

Lemma get_del_ne (k k' : string) (d : dict V) :
  k <> k' -> get k' (del k d) = get k' d.
Proof.
  intros Hne. induction d as [|[k0 v0] d IH]; cbn [del get]; [reflexivity|].
  destruct (String.eqb_spec k0 k) as [->|Hne0].
  - destruct (String.eqb_spec k k'); [congruence|reflexivity].
  - cbn [get]. now rewrite IH.
Qed.

(** Deleting the keys of [bad] one after the other. *)
Lemma get_del_all (bad : list string) : forall (d : dict V) (k : string),
  NoDup (keys d) ->
  get k (fold_left (fun d k => del k d) bad d)
  = if in_dec string_dec k bad then None else get k d.
Proof.
  induction bad as [|b bad IH]; intros d k Hnd; cbn [fold_left].
  - now destruct (in_dec string_dec k []).
  - rewrite IH by now apply NoDup_keys_del.
    destruct (in_dec string_dec k bad) as [Hin|Hin];
      destruct (in_dec string_dec k (b :: bad)) as [Hin'|Hin'];
      cbn [In] in *; try reflexivity; try tauto.
    + destruct (string_dec b k) as [->|Hne]; [now apply get_del_eq|tauto].
    + apply get_del_ne. tauto.
Qed.

End Facts.

End PyDictFacts.

Module TrackerFacts.
Import Tracker.

Unset Implicit Arguments.

Local Open Scope Q_scope.

(** [should_update] decides the firing condition. *)
Lemma should_update_fires (now : Q) (t : ProfileUpdateTracker) :
  (0 <= message_count t)%Z ->
  (should_update now t = true <->
   fires (message_limit t) (time_limit t) now t).
Proof.
  intros Hc. unfold should_update, fires, seconds_from_first_update.
  destruct (Z.eqb_spec (message_count t) 0) as [E|Hne].
  - split; [discriminate|]. intros [H _]. lia.
  - rewrite orb_true_iff, Z.leb_le. split.
    + intros [H|H]; (split; [lia|]).
      * destruct (first_updated t) as [f|]; [|discriminate].
        right. exists f. split; [reflexivity|]. now apply Qle_bool_iff.
      * now left.
    + intros [_ [H|(f & Ef & H)]]; [now right|left].
      rewrite Ef. now apply Qle_bool_iff.
Qed.

Lemma reset_idle (t : ProfileUpdateTracker) :
  message_count (reset t) = 0%Z /\ first_updated (reset t) = None.
Proof. split; reflexivity. Qed.

(** ** The drain loop *)

Lemma drain_keys (now : Q) (ts : PyDict.dict ProfileUpdateTracker) :
  PyDict.keys (snd (drain now ts)) = PyDict.keys ts.
Proof.
  induction ts as [|[u t] ts IH]; [reflexivity|].
  cbn [drain]. destruct (drain now ts) as [ret rest] eqn:E.
  cbn [snd] in IH. unfold PyDict.keys in *.
  destruct (should_update now t); cbn [snd map fst]; now rewrite IH.
Qed.

Lemma drain_get (now : Q) (ts : PyDict.dict ProfileUpdateTracker) (u : string) :
  PyDict.get u (snd (drain now ts))
  = match PyDict.get u ts with
    | Some t => Some (if should_update now t then reset t else t)
    | None => None
    end.
Proof.
  induction ts as [|[u' t] ts IH]; [reflexivity|].
  cbn [drain]. destruct (drain now ts) as [ret rest] eqn:E.
  cbn [snd] in IH.
  destruct (should_update now t) eqn:S; cbn [snd PyDict.get];
    destruct (String.eqb u' u); try exact IH; now rewrite ?S.
Qed.

Lemma drain_ret (now : Q) (ts : PyDict.dict ProfileUpdateTracker) (u : string) :
  In u (fst (drain now ts)) <->
  exists t, In (u, t) ts /\ should_update now t = true.
Proof.
  induction ts as [|[u' t] ts IH].
  - cbn. split; [tauto|]. intros (t & [] & _).
  - cbn [drain]. destruct (drain now ts) as [ret rest] eqn:E.
    cbn [fst] in IH.
    destruct (should_update now t) eqn:S; cbn [fst In]; rewrite IH; split.
    + intros [<-|(t' & Hin & Ht')]; [exists t; auto|exists t'; auto].
    + intros (t' & [Heq|Hin] & Ht').
      * injection Heq as <- <-. now left.
      * right. now exists t'.
    + intros (t' & Hin & Ht'). exists t'; auto.
    + intros (t' & [Heq|Hin] & Ht').
      * injection Heq as <- <-. congruence.
      * now exists t'.
Qed.

Lemma drain_In (now : Q) (ts : PyDict.dict ProfileUpdateTracker)
  (u : string) (t' : ProfileUpdateTracker) :
  In (u, t') (snd (drain now ts)) ->
  exists t, In (u, t) ts /\ t' = if should_update now t then reset t else t.
Proof.
  induction ts as [|[u0 t0] ts IH]; [intros []|].
  cbn [drain]. destruct (drain now ts) as [ret rest] eqn:E.
  cbn [snd] in IH.
  destruct (should_update now t0) eqn:S; cbn [snd In];
    (intros [Heq|Hin];
     [injection Heq as <- <-; exists t0; rewrite S; split; [now left|reflexivity]
     |destruct (IH Hin) as (t & Ht & Et); exists t; split; [now right|exact Et]]).
Qed.

(** ** Managers built by the class are well formed *)

Lemma wf_new (M : Z) (T : Q) : wf (new_manager M T).
Proof. split; [constructor|intros u t []]. Qed.

Lemma wf_drain (now : Q) (m : ProfileUpdateTrackerManager) :
  wf m -> wf (snd (get_users_to_update now m)).
Proof.
  intros [Hnd Hall]. unfold get_users_to_update.
  pose proof (drain_keys now (trackers m)) as Hk.
  pose proof (drain_In now (trackers m)) as Hin.
  destruct (drain now (trackers m)) as [ret ts]. cbn [snd] in *.
  split; cbn [trackers mgr_message_limit mgr_time_limit_sec].
  - now rewrite Hk.
  - intros u t' Ht'. destruct (Hin u t' Ht') as (t & Ht & ->).
    destruct (Hall u t Ht) as (H1 & H2 & H3 & H4).
    destruct (should_update now t); cbn; repeat split; auto; try lia; tauto.
Qed.

Lemma wf_mark_update (u : string) (now : Q) (m : ProfileUpdateTrackerManager) :
  wf m -> wf (mgr_mark_update u now m).
Proof.
  intros [Hnd Hall]. unfold mgr_mark_update.
  set (ts := if PyDict.contains u (trackers m) then trackers m
             else PyDict.set u (new_tracker u (mgr_message_limit m)
                                            (mgr_time_limit_sec m))
                             (trackers m)).
  assert (Hts : NoDup (PyDict.keys ts) /\
                forall u0 t, In (u0, t) ts ->
                  message_limit t = mgr_message_limit m /\
                  time_limit t = mgr_time_limit_sec m /\
                  (0 <= message_count t)%Z /\
                  (message_count t = 0%Z <-> first_updated t = None)).
  { unfold ts. destruct (PyDict.contains u (trackers m)); [now split|].
    split; [now apply PyDictFacts.NoDup_keys_set|].
    intros u0 t Hin. apply PyDictFacts.In_set in Hin; [|exact Hnd].
    destruct Hin as [[_ ->]|[_ Hin]]; [|now apply (Hall u0)].
    cbn. repeat split; auto; lia. }
  destruct Hts as [Hnd' Hall'].
  destruct (PyDict.get u ts) as [t|] eqn:E;
    split; cbn [trackers mgr_message_limit mgr_time_limit_sec]; auto.
  - now apply PyDictFacts.NoDup_keys_set.
  - intros u0 t0 Hin. apply PyDictFacts.In_set in Hin; [|exact Hnd'].
    destruct Hin as [[_ ->]|[_ Hin]]; [|now apply (Hall' u0)].
    apply PyDictFacts.get_In in E.
    destruct (Hall' u t E) as (H1 & H2 & H3 & H4).
    unfold mark_update. cbn. repeat split; auto; try lia.
    destruct (first_updated t); discriminate.
Qed.

(** ** C6 *)

(** C6: on a manager built by the class, [get_users_to_update] returns
    exactly the users whose tracker has [n >= 1] pending messages and
    ([n >= M] or [now - f >= T]), resets the tracker of each returned user
    (count 0, first touch cleared) and leaves the others as they were; and
    with [M = 3], [T = 60]: three marks fire, two marks and a wait of 61
    seconds fire, two marks and a wait of 10 seconds do not. *)
Theorem tracker_drain :
  (forall (now : Q) (m : ProfileUpdateTrackerManager),
     wf m ->
     let ret := fst (get_users_to_update now m) in
     let m' := snd (get_users_to_update now m) in
     (forall u, In u ret <->
        exists t, PyDict.get u (trackers m) = Some t /\
                  fires (mgr_message_limit m) (mgr_time_limit_sec m) now t) /\
     (forall u, In u ret ->
        exists t', PyDict.get u (trackers m') = Some t' /\
                   message_count t' = 0%Z /\ first_updated t' = None) /\
     (forall u, ~ In u ret ->
        PyDict.get u (trackers m') = PyDict.get u (trackers m))) /\
  (let m0 := new_manager 3 60 in
   let u := "u"%string in
   fst (get_users_to_update 0
          (mgr_mark_update u 0 (mgr_mark_update u 0 (mgr_mark_update u 0 m0))))
   = [u] /\
   fst (get_users_to_update 61 (mgr_mark_update u 0 (mgr_mark_update u 0 m0)))
   = [u] /\
   fst (get_users_to_update 10 (mgr_mark_update u 0 (mgr_mark_update u 0 m0)))
   = []).
Proof.
  split; [|cbv zeta; repeat split; reflexivity].
  intros now m [Hnd Hall] ret m'.
  assert (Hret : forall u, In u ret <->
            exists t, PyDict.get u (trackers m) = Some t /\
                      should_update now t = true).
  { intros u. unfold ret, get_users_to_update.
    pose proof (drain_ret now (trackers m) u) as H.
    destruct (drain now (trackers m)) as [r ts]. cbn [fst] in *.
    rewrite H. split; intros (t & Ht & S); exists t; split; auto.
    - now apply PyDictFacts.In_get.
    - now apply PyDictFacts.get_In. }
  assert (Hget : forall u, PyDict.get u (trackers m')
            = match PyDict.get u (trackers m) with
              | Some t => Some (if should_update now t then reset t else t)
              | None => None
              end).
  { intros u. unfold m', get_users_to_update.
    pose proof (drain_get now (trackers m) u) as H.
    destruct (drain now (trackers m)) as [r ts]. exact H. }
  split; [|split].
  - intros u. rewrite Hret.
    split; intros (t & Ht & H); exists t; (split; [exact Ht|]);
      destruct (Hall u t (PyDictFacts.get_In _ _ _ _ Ht)) as (H1 & H2 & H3 & _);
      rewrite <- H1, <- H2 in *; now apply should_update_fires.
  - intros u Hin. apply Hret in Hin. destruct Hin as (t & Ht & S).
    exists (reset t). rewrite Hget, Ht, S. repeat split.
  - intros u Hin. rewrite Hget.
    destruct (PyDict.get u (trackers m)) as [t|] eqn:Ht; [|reflexivity].
    destruct (should_update now t) eqn:S; [|reflexivity].
    exfalso. apply Hin. apply Hret. now exists t.
Qed.

Lemma tracker_drain_witness :
  let m := mgr_mark_update "v" 5
             (mgr_mark_update "u" 1 (mgr_mark_update "u" 0 (new_manager 3 60))) in
  wf m /\
  fst (get_users_to_update 61 m) = ["u"%string] /\
  (forall u, In u (fst (get_users_to_update 61 m)) <->
     exists t, PyDict.get u (trackers m) = Some t /\
               fires (mgr_message_limit m) (mgr_time_limit_sec m) 61 t).
Proof.
  intros m.
  assert (Hwf : wf m).
  { split.
    - vm_compute. repeat constructor; cbn; intuition discriminate.
    - intros u t Hin. vm_compute in Hin.
      destruct Hin as [E|[E|[]]]; injection E as <- <-; vm_compute;
        repeat split; intros; discriminate. }
  split; [exact Hwf|]. split; [reflexivity|].
  exact (proj1 (proj1 tracker_drain 61 m Hwf)).
Defined.

(** The three scenarios hold whatever the times of the marks are, as long
    as the two marks of the last one are less than 50 seconds apart. *)
Lemma trigger_three_marks (t1 t2 t3 now : Q) :
  fst (get_users_to_update now
         (mgr_mark_update "u" t3
            (mgr_mark_update "u" t2 (mgr_mark_update "u" t1 (new_manager 3 60)))))
  = ["u"%string].
Proof.
  unfold get_users_to_update. cbn.
  unfold should_update. cbn. now rewrite orb_true_r.
Qed.

Lemma trigger_two_marks_wait (t1 t2 wait : Q) :
  t1 <= t2 ->
  fst (get_users_to_update (t2 + wait)
         (mgr_mark_update "u" t2 (mgr_mark_update "u" t1 (new_manager 3 60))))
  = if Qle_bool 60 (t2 + wait - t1) then ["u"%string] else [].
Proof.
  intros _. unfold get_users_to_update. cbn.
  unfold should_update. cbn.
  rewrite orb_false_r. now destruct (Qle_bool 60 (t2 + wait - t1)).
Qed.

End TrackerFacts.

Module StorageFacts.
Import Json Storage.

Unset Implicit Arguments.

Section Sections.

Variable Emb : Type.

(** The fuel [length l] is enough: every entry lands in a section. *)
Lemma sections_cover (fuel : nat) : forall (l : list (ProfileEntry Emb)),
  (length l <= fuel)%nat ->
  forall e, In e l -> exists g, In g (sections fuel l) /\ In e g.
Proof.
  induction fuel as [|fuel IH]; intros l Hlen e Hin.
  - destruct l; [destruct Hin|cbn in Hlen; lia].
  - destruct l as [|e0 t]; [destruct Hin|]. cbn [sections].
    destruct Hin as [<-|Hin].
    + eexists. split; [now left|now left].
    + destruct (same_section e0 e) eqn:S.
      * eexists. split; [now left|]. right. apply filter_In. now split.
      * destruct (IH (filter (fun x => negb (same_section e0 x)) t)) with (e := e)
          as (g & Hg & Heg).
        -- pose proof (filter_length_le (fun x => negb (same_section e0 x)) t).
           cbn [length] in Hlen. lia.
        -- apply filter_In. split; [exact Hin|]. now rewrite S.
        -- exists g. split; [now right|exact Heg].
Qed.

End Sections.

End StorageFacts.

Module JsonFacts.
Import Json.

Unset Implicit Arguments.

(** ** The order of [sorted] on keys *)

Lemma leb_refl (a : string) : String.leb a a = true.
Proof.
  unfold String.leb.
  pose proof (proj2 (String_as_OT.cmp_eq a a) eq_refl) as H.
  unfold String_as_OT.cmp in H. now rewrite H.
Qed.

Lemma leb_trans (a b c : string) :
  String.leb a b = true -> String.leb b c = true -> String.leb a c = true.
Proof.
  unfold String.leb.
  destruct (String.compare a b) eqn:E1; [| |discriminate];
    destruct (String.compare b c) eqn:E2; try discriminate; intros _ _.
  - apply String_as_OT.cmp_eq in E1, E2. subst.
    pose proof (leb_refl c) as H. unfold String.leb in H.
    now destruct (String.compare c c).
  - apply String_as_OT.cmp_eq in E1. subst. now rewrite E2.
  - apply String_as_OT.cmp_eq in E2. subst. now rewrite E1.
  - apply String_as_OT.cmp_lt in E1, E2.
    pose proof (String_as_OT.lt_trans _ _ _ E1 E2) as H.
    apply String_as_OT.cmp_lt in H. unfold String_as_OT.cmp in H.
    now rewrite H.
Qed.

Definition key_le (x y : string * scalar) : Prop :=
  String.leb (fst x) (fst y) = true.

(** ** [sorted(d.items())] *)

Lemma insert_item_perm (x : string * scalar) (l : list (string * scalar)) :
  Permutation (insert_item x l) (x :: l).
Proof.
  induction l as [|y l IH]; cbn [insert_item]; [reflexivity|].
  destruct (String.leb (fst x) (fst y)); [reflexivity|].
  rewrite IH. apply perm_swap.
Qed.

Lemma sort_items_perm (d : isolations) : Permutation (sort_items d) d.
Proof.
  unfold sort_items. induction d as [|x d IH]; cbn [fold_right]; [reflexivity|].
  rewrite insert_item_perm. now constructor.
Qed.

Lemma insert_item_sorted (x : string * scalar) (l : list (string * scalar)) :
  StronglySorted key_le l -> StronglySorted key_le (insert_item x l).
Proof.
  induction l as [|y l IH]; intros Hs; cbn [insert_item].
  - repeat constructor.
  - apply StronglySorted_inv in Hs. destruct Hs as [Hs Hall].
    destruct (String.leb (fst x) (fst y)) eqn:E.
    + constructor; [now constructor|]. constructor; [exact E|].
      eapply Forall_impl; [|exact Hall]. intros z Hz.
      unfold key_le in *. now apply (leb_trans _ (fst y)).
    + constructor; [now apply IH|].
      apply (Permutation_Forall (Permutation_sym (insert_item_perm x l))).
      constructor; [|exact Hall].
      unfold key_le. destruct (String.leb_total (fst x) (fst y)) as [H|H];
        [congruence|exact H].
Qed.

Lemma sort_items_sorted (d : isolations) : StronglySorted key_le (sort_items d).
Proof.
  unfold sort_items. induction d as [|x d IH]; cbn [fold_right];
    [constructor|now apply insert_item_sorted].
Qed.

(** Two sorted lists with distinct keys and the same items are equal. *)
Lemma sorted_unique (l1 : list (string * scalar)) :
  forall l2,
  StronglySorted key_le l1 -> StronglySorted key_le l2 ->
  NoDup (map fst l1) -> NoDup (map fst l2) ->
  (forall x, In x l1 <-> In x l2) -> l1 = l2.
Proof.
  induction l1 as [|a l1 IH]; intros l2 S1 S2 N1 N2 Hin.
  - destruct l2 as [|b l2]; [reflexivity|].
    exfalso. apply (proj2 (Hin b)). now left.
  - destruct l2 as [|b l2]; [exfalso; apply (proj1 (Hin a)); now left|].
    apply StronglySorted_inv in S1, S2.
    destruct S1 as [S1 A1]. destruct S2 as [S2 A2].
    cbn [map] in N1, N2. apply NoDup_cons_iff in N1, N2.
    destruct N1 as [Na N1]. destruct N2 as [Nb N2].
    rewrite Forall_forall in A1, A2.
    assert (Hab : a = b).
    { destruct (proj1 (Hin a) (or_introl eq_refl)) as [E|Ha]; [now symmetry|].
      destruct (proj2 (Hin b) (or_introl eq_refl)) as [E|Hb]; [exact E|].
      pose proof (A2 a Ha) as H1. pose proof (A1 b Hb) as H2.
      unfold key_le in *.
      pose proof (String.leb_antisym _ _ H2 H1) as Hk.
      exfalso. apply Na. rewrite Hk. now apply in_map. }
    subst b. f_equal. apply IH; auto.
    intros x. split; intros Hx.
    + destruct (proj1 (Hin x) (or_intror Hx)) as [E|H]; [|exact H].
      subst x. exfalso. apply Na. now apply in_map.
    + destruct (proj2 (Hin x) (or_intror Hx)) as [E|H]; [|exact H].
      subst x. exfalso. apply Nb. now apply in_map.
Qed.

Lemma same_pairs_In (d1 d2 : isolations) :
  NoDup (PyDict.keys d1) -> NoDup (PyDict.keys d2) -> same_pairs d1 d2 ->
  forall x, In x d1 <-> In x d2.
Proof.
  intros N1 N2 Hs [k v]. split; intros H.
  - apply PyDictFacts.get_In. rewrite <- Hs. now apply PyDictFacts.In_get.
  - apply PyDictFacts.get_In. rewrite Hs. now apply PyDictFacts.In_get.
Qed.

(** The serialization of a map with [sort_keys=True] is canonical: two
    maps with the same pairs have the same text. *)
Lemma dumps_sorted_canonical (d1 d2 : isolations) :
  NoDup (PyDict.keys d1) -> NoDup (PyDict.keys d2) -> same_pairs d1 d2 ->
  dumps true d1 = dumps true d2.
Proof.
  intros N1 N2 Hs. unfold dumps.
  replace (sort_items d2) with (sort_items d1); [reflexivity|].
  apply sorted_unique; try apply sort_items_sorted.
  - apply (Permutation_NoDup (Permutation_map fst
             (Permutation_sym (sort_items_perm d1)))). exact N1.
  - apply (Permutation_NoDup (Permutation_map fst
             (Permutation_sym (sort_items_perm d2)))). exact N2.
  - intros x. split; intros H.
    + apply (Permutation_in _ (Permutation_sym (sort_items_perm d2))).
      apply (same_pairs_In d1 d2 N1 N2 Hs).
      now apply (Permutation_in _ (sort_items_perm d1)).
    + apply (Permutation_in _ (Permutation_sym (sort_items_perm d1))).
      apply (same_pairs_In d1 d2 N1 N2 Hs).
      now apply (Permutation_in _ (sort_items_perm d2)).
Qed.

End JsonFacts.

Module ConsolidationFacts.
Import Json Storage ProfileMemory.

Unset Implicit Arguments.

(** ** Python equality on isolation values *)

Lemma py_eqb_refl (a : scalar) : py_eqb a a = true.
Proof.
  destruct a as [[|]|z|x]; cbn; auto using Z.eqb_refl, String.eqb_refl.
Qed.

(** ** The loop that derives the isolations *)

Lemma vals_app (k : string) (l1 l2 : list (string * scalar)) :
  vals k (l1 ++ l2) = vals k l1 ++ vals k l2.
Proof. unfold vals. now rewrite filter_app, map_app. Qed.

Lemma derive_loop_flat (associations : list (Z * isolations)) :
  forall acc,
  fold_left (fun acc i => fold_left derive_step (snd i) acc) associations acc
  = fold_left derive_step (flat_map snd associations) acc.
Proof.
  induction associations as [|i l IH]; intros acc; [reflexivity|].
  cbn [fold_left flat_map]. now rewrite fold_left_app, IH.
Qed.

Lemma In_set_add (k k' : string) (bad : list string) :
  In k' (set_add k bad) <-> k' = k \/ In k' bad.
Proof.
  unfold set_add. destruct (existsb (String.eqb k) bad) eqn:E.
  - split; [tauto|]. intros [->|H]; [|exact H].
    apply existsb_exists in E. destruct E as (x & Hx & E).
    apply String.eqb_eq in E. now subst.
  - rewrite in_app_iff. cbn. intuition congruence.
Qed.

(** What the loop has computed after the items [l]. *)
Definition loop_inv (l : list (string * scalar))
  (acc : isolations * list string) : Prop :=
  NoDup (PyDict.keys (fst acc)) /\
  (forall k, PyDict.get k (fst acc) = hd_error (vals k l)) /\
  (forall k, In k (snd acc) <->
     exists v w, hd_error (vals k l) = Some v /\ In w (vals k l) /\
                 py_eqb v w = false).

Lemma loop_inv_step (l : list (string * scalar)) (x : string * scalar)
  (acc : isolations * list string) :
  loop_inv l acc -> loop_inv (l ++ [x]) (derive_step acc x).
Proof.
  destruct acc as [ni bad]. destruct x as [kx vx].
  intros (Hnd & Hget & Hbad). cbn [fst snd] in *.
  assert (Hv : forall k, vals k (l ++ [(kx, vx)])
                 = vals k l ++ (if String.eqb kx k then [vx] else [])).
  { intros k. rewrite vals_app. f_equal. unfold vals. cbn.
    now destruct (String.eqb kx k). }
  unfold derive_step. cbn [fst snd].
  destruct (PyDict.get kx ni) as [old|] eqn:E.
  - assert (Hold : hd_error (vals kx l) = Some old) by now rewrite <- Hget.
    assert (Hhd : forall k, hd_error (vals k (l ++ [(kx, vx)]))
                            = hd_error (vals k l)).
    { intros k. rewrite Hv. destruct (String.eqb_spec kx k) as [<-|Hne].
      - destruct (vals kx l); [discriminate|reflexivity].
      - now rewrite app_nil_r. }
    destruct (py_eqb old vx) eqn:P; unfold loop_inv; cbn [negb fst snd];
      (split; [exact Hnd|]); (split; [intros k; now rewrite Hhd, Hget|]);
      intros k; rewrite ?In_set_add, Hbad, Hhd, Hv.
    + split; intros (v & w & H1 & H2 & H3); exists v, w;
        (split; [exact H1|]); (split; [|exact H3]).
      * apply in_or_app. now left.
      * apply in_app_or in H2. destruct H2 as [H2|H2]; [exact H2|].
        destruct (String.eqb_spec kx k) as [<-|Hne]; [|destruct H2].
        destruct H2 as [<-|[]]. congruence.
    + split.
      * intros [->|(v & w & H1 & H2 & H3)].
        -- exists old, vx. rewrite String.eqb_refl.
           split; [exact Hold|]. split; [|exact P].
           apply in_or_app. right. now left.
        -- exists v, w. split; [exact H1|]. split; [|exact H3].
           apply in_or_app. now left.
      * intros (v & w & H1 & H2 & H3).
        apply in_app_or in H2. destruct H2 as [H2|H2].
        -- right. now exists v, w.
        -- destruct (String.eqb_spec kx k) as [<-|Hne]; [now left|destruct H2].
  - assert (Hnil : vals kx l = []).
    { specialize (Hget kx). rewrite E in Hget.
      destruct (vals kx l); [reflexivity|discriminate]. }
    unfold loop_inv; cbn [fst snd].
    split; [now apply PyDictFacts.NoDup_keys_set|]. split.
    + intros k. rewrite Hv. destruct (String.eqb_spec kx k) as [<-|Hne].
      * now rewrite PyDictFacts.get_set_eq, Hnil.
      * now rewrite PyDictFacts.get_set_ne, app_nil_r, Hget.
    + intros k. rewrite Hbad, Hv.
      destruct (String.eqb_spec kx k) as [<-|Hne]; [|now rewrite app_nil_r].
      rewrite Hnil. cbn. split.
      * intros (v & w & H1 & _). discriminate.
      * intros (v & w & H1 & [<-|[]] & H3). injection H1 as <-.
        now rewrite py_eqb_refl in H3.
Qed.

Lemma loop_inv_fold (l : list (string * scalar)) :
  loop_inv l (fold_left derive_step l ([], [])).
Proof.
  induction l as [|x l IH] using rev_ind.
  - cbn. repeat split; try constructor; cbn; try tauto.
    intros (v & w & H & _). discriminate.
  - rewrite fold_left_app. cbn [fold_left]. now apply loop_inv_step.
Qed.

Lemma derive_isolations_get (associations : list (Z * isolations))
  (k : string) (v : scalar) :
  PyDict.get k (derive_isolations associations) = Some v <->
  hd_error (values_seen k associations) = Some v /\
  forall w, In w (values_seen k associations) -> py_eqb v w = true.
Proof.
  unfold derive_isolations, derive_loop, values_seen.
  rewrite derive_loop_flat.
  pose proof (loop_inv_fold (flat_map snd associations)) as Hinv.
  destruct (fold_left derive_step (flat_map snd associations) ([], []))
    as [ni bad].
  destruct Hinv as (Hnd & Hget & Hbad). cbn [fst snd] in *.
  rewrite PyDictFacts.get_del_all by exact Hnd.
  destruct (in_dec string_dec k bad) as [Hin|Hin].
  - split; [discriminate|]. intros [Hhd Hall].
    apply Hbad in Hin. destruct Hin as (v' & w & H1 & H2 & H3).
    rewrite Hhd in H1. injection H1 as <-.
    rewrite (Hall w H2) in H3. discriminate.
  - rewrite Hget. split.
    + intros Hhd. split; [exact Hhd|]. intros w Hw.
      destruct (py_eqb v w) eqn:P; [reflexivity|].
      exfalso. apply Hin. apply Hbad. now exists v, w.
    + now intros [Hhd _].
Qed.

(** The storage call made for a validated consolidated entry. *)
Lemma consolidate_one_call (Emb : Type) (embed : string -> Emb)
  (user_id : string) (memory : json) (cm : ConsolidateMemory) (s : PM Emb) :
  validate_memory memory = Some cm ->
  let associations :=
    get_all_citations_for_ids (cm_citations cm) (profile_storage s) in
  calls (profile_storage (snd (consolidate_one embed user_id memory s)))
  = (calls (profile_storage s)
       ++ [CAddFeature user_id (cm_feature cm) (cm_value cm) (cm_tag cm)
                       (derive_isolations associations)
                       (map fst associations)])%list.
Proof.
  intros Hv. unfold consolidate_one. rewrite Hv. cbv zeta.
  unfold add_new_profile, bind, cache_erase, storage_do, with_storage,
    with_cache, or_empty. cbn [fst snd profile_storage].
  unfold add_profile_feature. cbv zeta.
  match goal with |- context [if ?b then _ else _] => destruct b end;
    reflexivity.
Qed.

(** ** C8 *)

(** C8: the isolation map of a consolidated entry is the isolation
    intersection with conflict pruning over the isolations of its resolved
    cited history rows: a key is kept, with the first value seen for it,
    exactly when every value seen for it over the cited rows equals that
    first value; this map is what [add_new_profile] receives; and the two
    sources of scenario 5 yield [{g: "G"}]. *)
Theorem consolidated_isolations :
  (forall (associations : list (Z * isolations)) (k : string) (v : scalar),
     PyDict.get k (derive_isolations associations) = Some v <->
     hd_error (values_seen k associations) = Some v /\
     forall w, In w (values_seen k associations) -> py_eqb v w = true) /\
  (forall (Emb : Type) (embed : string -> Emb) (user_id : string)
          (memory : json) (cm : ConsolidateMemory) (s : PM Emb),
     validate_memory memory = Some cm ->
     let associations :=
       get_all_citations_for_ids (cm_citations cm) (profile_storage s) in
     calls (profile_storage (snd (consolidate_one embed user_id memory s)))
     = (calls (profile_storage s)
          ++ [CAddFeature user_id (cm_feature cm) (cm_value cm) (cm_tag cm)
                          (derive_isolations associations)
                          (map fst associations)])%list) /\
  derive_isolations Scenario.cited_rows = [("g"%string, SStr "G")].
Proof.
  split; [exact derive_isolations_get|].
  split; [exact consolidate_one_call|reflexivity].
Qed.

Lemma consolidated_isolations_witness :
  validate_memory Scenario.merged_memory = Some Scenario.merged /\
  calls (profile_storage
           (snd (consolidate_one Scenario.embed Scenario.user
                                 Scenario.merged_memory Scenario.two_sources)))
  = (calls (profile_storage Scenario.two_sources)
       ++ [CAddFeature Scenario.user "likes" "dogs, big ones" "pets"
                       [("g"%string, SStr "G")] [1%Z; 2%Z]])%list.
Proof.
  split; [reflexivity|].
  exact (proj1 (proj2 consolidated_isolations) unit Scenario.embed
               Scenario.user Scenario.merged_memory Scenario.merged
               Scenario.two_sources eq_refl).
Defined.

End ConsolidationFacts.

Module IngestionFacts.
Import Json Storage ProfileMemory.

Unset Implicit Arguments.

(** ** Ingestion status in the storage *)

(** Every row with the id [id] is marked ingested. *)
Definition ingested (Emb : Type) (id : Z) (st : Storage.Storage Emb) : Prop :=
  forall h, In h (history st) -> h_id h = id -> h_ingested h = true.

Lemma mark_ingested (Emb : Type) (ids : list Z) (st : Storage.Storage Emb)
  (id : Z) :
  In id ids \/ ingested Emb id st ->
  ingested Emb id (mark_messages_ingested ids st).
Proof.
  intros H h Hin Hid. unfold mark_messages_ingested, with_history, log in Hin.
  cbn [history] in Hin. apply in_map_iff in Hin.
  destruct Hin as (h0 & E & Hin0).
  destruct (existsb (Z.eqb (h_id h0)) ids) eqn:X.
  - now subst h.
  - subst h0. destruct H as [H|H]; [|now apply H].
    exfalso. rewrite <- Bool.not_true_iff_false in X. apply X.
    apply existsb_exists. exists id. split; [exact H|]. now apply Z.eqb_eq.
Qed.

Lemma pending_not_ingested (Emb : Type) (st : Storage.Storage Emb)
  (user : string) (k : Z) (h : HistoryRow) (id : Z) :
  ingested Emb id st ->
  In h (get_history_messages_by_ingestion_status user k false st) ->
  h_id h <> id.
Proof.
  intros Hing Hin Hid. unfold get_history_messages_by_ingestion_status in Hin.
  assert (Hf : In h (filter (fun h => String.eqb (h_user h) user
                                     && Bool.eqb (h_ingested h) false)
                            (history st))).
  { destruct (0 <? k)%Z; [|exact Hin].
    rewrite <- (firstn_skipn (Z.to_nat k)). apply in_or_app. now left. }
  apply filter_In in Hf. destruct Hf as [Hh Hb].
  apply andb_true_iff in Hb. destruct Hb as [_ Hb].
  rewrite (Hing h Hh Hid) in Hb. discriminate.
Qed.

Section Worker.

Variable Emb : Type.
Variable ingest_embed : string -> Emb.
Variable generate_response : nat -> request Emb -> llm_result.
Variable parse_update : string -> option json.
Variable parse_consolidation : string -> option json.

Abbreviation think :=
  (update_user_profile_think ingest_embed generate_response parse_update
                             parse_consolidation).
Abbreviation process :=
  (process_messages ingest_embed generate_response parse_update
                    parse_consolidation).

Lemma get_user_profile_ok (user : string) (iso : option isolations)
  (s : PM Emb) :
  exists profile s',
    get_user_profile user iso s = (Ok profile, s') /\
    profile_storage s' = profile_storage s /\
    dirty_users s' = dirty_users s /\
    llm_calls s' = llm_calls s.
Proof.
  unfold get_user_profile.
  destruct (LRU.get cache_key_eq_dec (cache_key_of user (or_empty iso))
                    (profile_cache s)) as [[profile|] cache];
    eexists; eexists; split; try reflexivity; now cbn.
Qed.

(** A caught error of the model ends the update of the message there. *)
Lemma think_llm_error (record : HistoryRow) (wait_consolidate : bool)
  (s : PM Emb) (e : exn) :
  generate_response (llm_calls s) (update_request record s) = Raises e ->
  caught e = true ->
  exists s',
    think record wait_consolidate s = (Ok tt, s') /\
    profile_storage s' = profile_storage s /\
    dirty_users s' = dirty_users s.
Proof.
  intros Hllm Hc. unfold update_user_profile_think, update_request in *.
  destruct (get_user_profile_ok (h_user record) (Some (h_isolations record)) s)
    as (profile & s1 & E & Hst & Hd & Hn).
  unfold bind at 1. rewrite E in *. cbn [fst] in Hllm.
  unfold bind at 1. unfold call_llm at 1. rewrite Hn, Hllm.
  rewrite Hc. unfold ret. eexists. split; [reflexivity|].
  cbn [profile_storage dirty_users]. now split.
Qed.

(** The marks at the end of a batch. *)
Lemma marks_ok (messages : list HistoryRow) : forall s : PM Emb,
  exists s',
    gather messages
      (fun message => storage_do (mark_messages_ingested [h_id message])) s
    = (Ok tt, s') /\
    features (profile_storage s') = features (profile_storage s) /\
    (forall id, ingested Emb id (profile_storage s) ->
                ingested Emb id (profile_storage s')) /\
    (forall c, In c (calls (profile_storage s)) ->
               In c (calls (profile_storage s'))) /\
    (forall m, In m messages ->
               ingested Emb (h_id m) (profile_storage s') /\
               In (CMarkIngested [h_id m]) (calls (profile_storage s'))).
Proof.
  induction messages as [|m messages IH]; intros s.
  - exists s. cbn. repeat split; auto; destruct H.
  - cbn [gather]. unfold storage_do at 1.
    set (s1 := with_storage
                 (mark_messages_ingested [h_id m] (profile_storage s)) s).
    destruct (IH s1) as (s' & E & Hf & Hmono & Hcalls & Hall).
    exists s'. split; [exact E|]. split; [rewrite Hf; reflexivity|].
    split; [|split].
    + intros id Hid. apply Hmono. unfold s1. cbn [profile_storage with_storage].
      apply mark_ingested. now right.
    + intros c Hc. apply Hcalls. unfold s1. cbn. apply in_or_app. now left.
    + intros m' [<-|Hin]; [|now apply Hall]. split.
      * apply Hmono. unfold s1. cbn [profile_storage with_storage].
        apply mark_ingested. left. now left.
      * apply Hcalls. unfold s1. cbn. apply in_or_app. right. now left.
Qed.

(** A batch that completes has marked all its messages. *)
Lemma process_messages_marks (messages : list HistoryRow) (s s' : PM Emb) :
  process messages s = (Ok tt, s') ->
  forall m, In m messages -> ingested Emb (h_id m) (profile_storage s').
Proof.
  intros E m Hin. destruct messages as [|m0 rest]; [destruct Hin|].
  unfold process_messages in E. unfold bind at 1 in E.
  destruct (process_loop ingest_embed generate_response parse_update
              parse_consolidation (m0 :: rest) s) as [[[]|e] s1];
    [|discriminate].
  destruct (marks_ok (m0 :: rest) s1) as (s2 & E2 & _ & _ & _ & Hall).
  rewrite E2 in E. injection E as <-. now apply Hall.
Qed.

(** ** C1 *)

(** C1 (amended): when the model raises [ExternalServiceAPIError],
    [ValueError] or [RuntimeError] for a message, the error is swallowed:
    the update of the message returns normally and leaves the storage as it
    was.  The message is nevertheless marked ingested with the rest of its
    batch: every message of a batch that completes, and so a single message
    whose call failed, is absent from
    [get_history_messages_by_ingestion_status] with [is_ingested=false]
    afterwards, and no later round processes it again. *)
Theorem llm_error_swallowed_and_marked :
  (forall (record : HistoryRow) (wait_consolidate : bool) (s : PM Emb)
          (e : exn),
     generate_response (llm_calls s) (update_request record s) = Raises e ->
     caught e = true ->
     exists s',
       think record wait_consolidate s = (Ok tt, s') /\
       profile_storage s' = profile_storage s /\
       dirty_users s' = dirty_users s) /\
  (forall (messages : list HistoryRow) (s s' : PM Emb),
     process messages s = (Ok tt, s') ->
     forall m user k h,
       In m messages ->
       In h (get_history_messages_by_ingestion_status user k false
               (profile_storage s')) ->
       h_id h <> h_id m) /\
  (forall (message : HistoryRow) (s : PM Emb) (e : exn),
     generate_response (llm_calls s) (update_request message s) = Raises e ->
     caught e = true ->
     exists s',
       process [message] s = (Ok tt, s') /\
       features (profile_storage s') = features (profile_storage s) /\
       In (CMarkIngested [h_id message]) (calls (profile_storage s')) /\
       forall user k h,
         In h (get_history_messages_by_ingestion_status user k false
                 (profile_storage s')) ->
         h_id h <> h_id message).
Proof.
  split; [exact think_llm_error|]. split.
  - intros messages s s' E m user k h Hm Hh.
    eapply pending_not_ingested; [|exact Hh].
    now apply (process_messages_marks messages s s').
  - intros message s e Hllm Hc.
    destruct (think_llm_error message true s e Hllm Hc) as (s1 & E1 & Hst & _).
    destruct (marks_ok [message] s1) as (s2 & E2 & Hf & _ & _ & Hall).
    destruct (Hall message (or_introl eq_refl)) as [Hing Hcall].
    exists s2. split; [|split; [|split]].
    + unfold process_messages, process_loop. unfold bind at 1.
      now rewrite E1.
    + now rewrite Hf, Hst.
    + exact Hcall.
    + intros user k h Hh. eapply pending_not_ingested; [|exact Hh].
      exact Hing.
Qed.

End Worker.

(** C1, as stated, fails: a message whose model call raised is marked
    ingested all the same.  One message is pending for the user; the model
    raises [ExternalServiceAPIError]; the round completes, and afterwards
    no message of the user is pending. *)
Lemma llm_error_not_retried_counterexample :
  let s := Scenario.one_message in
  let out := process_uningested_memories Scenario.embed Scenario.failing_model
               Scenario.no_parse Scenario.no_parse Scenario.user s in
  (forall n r, Scenario.failing_model n r = Raises ExternalServiceAPIError) /\
  map h_id (get_history_messages_by_ingestion_status Scenario.user 100 false
              (profile_storage s)) = [1%Z] /\
  fst out = Ok tt /\
  llm_calls (snd out) = 1%nat /\
  get_history_messages_by_ingestion_status Scenario.user 100 false
    (profile_storage (snd out)) = [].
Proof. cbv zeta. split_all; by_eval. Qed.

Lemma llm_error_swallowed_and_marked_witness :
  let message := mkRow 1 Scenario.user "I like dogs" []
                       [("g"%string, SStr "G")] false in
  Scenario.failing_model (llm_calls Scenario.one_message)
    (update_request message Scenario.one_message)
  = Raises ExternalServiceAPIError /\
  caught ExternalServiceAPIError = true /\
  exists s',
    process_messages Scenario.embed Scenario.failing_model Scenario.no_parse
                     Scenario.no_parse [message] Scenario.one_message
    = (Ok tt, s') /\
    features (profile_storage s')
    = features (profile_storage Scenario.one_message) /\
    In (CMarkIngested [h_id message]) (calls (profile_storage s')) /\
    forall user k h,
      In h (get_history_messages_by_ingestion_status user k false
              (profile_storage s')) ->
      h_id h <> h_id message.
Proof.
  intros message. split; [reflexivity|]. split; [reflexivity|].
  exact (proj2 (proj2 (llm_error_swallowed_and_marked unit Scenario.embed
                         Scenario.failing_model Scenario.no_parse
                         Scenario.no_parse))
               message Scenario.one_message ExternalServiceAPIError
               eq_refl eq_refl).
Defined.

(** ** The success path on the scenarios of the specification *)

(** Scenario 1: the message is ingested, the entry is added with the
    message as its citation, and nothing is pending afterwards. *)
Example ingest_then_add :
  let out := process_uningested_memories Scenario.embed
               (Scenario.constant_model "")
               (Scenario.parse_as Scenario.add_dogs) Scenario.no_parse
               Scenario.user Scenario.one_message in
  fst out = Ok tt /\
  map (fun e => (pe_feature e, pe_tag e, pe_value e, pe_citations e))
      (get_profile Scenario.user [("g"%string, SStr "G")]
                   (profile_storage (snd out)))
  = [("likes", "pets", "dogs", [1%Z])]%string /\
  get_history_messages_by_ingestion_status Scenario.user 100 false
    (profile_storage (snd out)) = [].
Proof. cbv zeta. split_all; by_eval. Qed.

(** Scenario 2: a [delete] and then an [add] of the same section leave one
    live entry. *)
Example delete_before_add :
  let out := process_uningested_memories Scenario.embed
               (Scenario.constant_model "")
               (Scenario.parse_as Scenario.delete_then_add) Scenario.no_parse
               Scenario.user Scenario.one_message in
  fst out = Ok tt /\
  map (fun e => (pe_feature e, pe_tag e, pe_value e))
      (get_profile Scenario.user [("g"%string, SStr "G")]
                   (profile_storage (snd out)))
  = [("tone", "w", "formal")]%string.
Proof. cbv zeta. split_all; by_eval. Qed.

(** ** C10 *)

(** C10: [add_persona_message] hands one row to [add_history], which
    appends it uningested for the user; when the metadata has a ["speaker"]
    the stored content is [<speaker> sends '<content>'], otherwise it is
    the content itself. *)
Theorem add_persona_message_content (Emb : Type) (content : string)
  (metadata : option (PyDict.dict string)) (iso : option isolations)
  (user_id : string) (now : Q) (s : PM Emb) :
  let out := add_persona_message content metadata iso user_id now s in
  fst out = Ok tt /\
  exists row,
    history (profile_storage (snd out))
    = (history (profile_storage s) ++ [row])%list /\
    calls (profile_storage (snd out))
    = (calls (profile_storage s)
         ++ [CAddHistory user_id (h_content row) (or_empty iso)])%list /\
    h_user row = user_id /\ h_ingested row = false /\
    (forall speaker,
       PyDict.get "speaker" (or_empty metadata) = Some speaker ->
       h_content row = (speaker ++ " sends '" ++ content ++ "'")%string) /\
    (PyDict.contains "speaker" (or_empty metadata) = false ->
       h_content row = content).
Proof.
  cbv zeta. split; [reflexivity|].
  eexists. split; [reflexivity|]. cbn [h_user h_ingested h_content].
  split; [reflexivity|]. split; [reflexivity|]. split; [reflexivity|].
  unfold speaker_content, PyDict.contains. split.
  - intros speaker E. now rewrite E.
  - destruct (PyDict.get "speaker" (or_empty metadata)); [discriminate|].
    reflexivity.
Qed.

Lemma add_persona_message_content_witness :
  let metadata := Some [("speaker"%string, "Alice"%string)] in
  let out := add_persona_message "hi" metadata None Scenario.user 0
               Scenario.fresh in
  PyDict.get "speaker" (or_empty metadata) = Some "Alice"%string /\
  exists row,
    history (profile_storage (snd out)) = [row] /\
    h_content row = "Alice sends 'hi'"%string.
Proof.
  intros metadata out. split; [reflexivity|].
  destruct (add_persona_message_content unit "hi" metadata None
              Scenario.user 0 Scenario.fresh)
    as (_ & row & Hh & _ & _ & _ & Hs & _).
  exists row. split; [exact Hh|]. exact (Hs "Alice"%string eq_refl).
Defined.

End IngestionFacts.

Module CacheFacts.
Import Json Storage ProfileMemory.

Unset Implicit Arguments.

(** ** Erasing a key of the cache *)

Section Erase.

Variables K V : Type.
Variable K_eq_dec : forall a b : K, {a = b} + {a <> b}.

Lemma lookup_remove_node (k : K) (l : list (LRU.Node K V)) :
  NoDup (map (@LRU.key K V) l) ->
  find (fun n => if K_eq_dec (LRU.key n) k then true else false)
       (LRU.remove_node K_eq_dec k l) = None.
Proof.
  induction l as [|n l IH]; intros Hnd; [reflexivity|].
  cbn [map] in Hnd. apply NoDup_cons_iff in Hnd. destruct Hnd as [Hn Hnd].
  cbn [LRU.remove_node]. destruct (K_eq_dec (LRU.key n) k) as [E|Hne].
  - destruct (find _ l) as [m|] eqn:F; [|reflexivity].
    apply find_some in F. destruct F as [Hin Hk].
    destruct (K_eq_dec (LRU.key m) k) as [E'|]; [|discriminate].
    exfalso. apply Hn. rewrite E, <- E'. now apply in_map.
  - cbn [find]. destruct (K_eq_dec (LRU.key n) k); [congruence|now apply IH].
Qed.

(** After [erase(key)] the cache holds no entry for [key]. *)
Lemma lookup_erase (k : K) (c : LRU.LRUCache K V) :
  NoDup (LRU.resident c) ->
  LRU.lookup K_eq_dec k (LRU.erase K_eq_dec k c) = None.
Proof.
  intros Hnd. unfold LRU.erase.
  destruct (LRU.lookup K_eq_dec k c) eqn:E; [|exact E].
  unfold LRU.lookup. cbn [LRU.nodes]. now apply lookup_remove_node.
Qed.

Lemma find_remove_node_ne (k k' : K) (l : list (LRU.Node K V)) :
  k <> k' ->
  find (fun n => if K_eq_dec (LRU.key n) k' then true else false)
       (LRU.remove_node K_eq_dec k l)
  = find (fun n => if K_eq_dec (LRU.key n) k' then true else false) l.
Proof.
  intros Hne. induction l as [|n l IH]; [reflexivity|].
  cbn [LRU.remove_node find].
  destruct (K_eq_dec (LRU.key n) k) as [E|Hk].
  - destruct (K_eq_dec (LRU.key n) k'); [congruence|reflexivity].
  - cbn [find]. now rewrite IH.
Qed.

(** [erase(key)] leaves the entries of the other keys in place. *)
Lemma lookup_erase_ne (k k' : K) (c : LRU.LRUCache K V) :
  k <> k' ->
  LRU.lookup K_eq_dec k' (LRU.erase K_eq_dec k c) = LRU.lookup K_eq_dec k' c.
Proof.
  intros Hne. unfold LRU.erase.
  destruct (LRU.lookup K_eq_dec k c); [|reflexivity].
  unfold LRU.lookup. cbn [LRU.nodes]. now apply find_remove_node_ne.
Qed.

End Erase.

(** ** The write operations of the facade *)

Section Facade.

Variable Emb : Type.
Variable ingest_embed : string -> Emb.

(** After [add_new_profile], [delete_user_profile_feature] or
    [delete_user_profile] for user [u] under isolations [I], the cache
    holds no entry for the key these operations compute for [(u, I)]. *)
Lemma facade_write_erases (user_id : string) (iso : option isolations)
  (s : PM Emb) :
  NoDup (LRU.resident (profile_cache s)) ->
  let key := cache_key_of user_id (or_empty iso) in
  (forall feature value tag metadata citations,
     LRU.lookup cache_key_eq_dec key
       (profile_cache (snd (add_new_profile ingest_embed user_id feature value
                              tag metadata iso citations s))) = None) /\
  (forall feature tag value,
     LRU.lookup cache_key_eq_dec key
       (profile_cache (snd (delete_user_profile_feature user_id feature tag
                              value iso s))) = None) /\
  LRU.lookup cache_key_eq_dec key
    (profile_cache (snd (delete_user_profile user_id iso s))) = None.
Proof.
  intros Hnd key. repeat split; intros;
    unfold add_new_profile, delete_user_profile_feature, delete_user_profile,
      bind, cache_erase, storage_do;
    cbn [fst snd profile_cache with_storage with_cache];
    now apply lookup_erase.
Qed.

(** The calls a consolidated entry makes: never a deletion. *)
Lemma consolidate_one_no_delete (user_id : string) (memory : json)
  (s : PM Emb) (pid : Z) :
  fst (consolidate_one ingest_embed user_id memory s) = Ok tt /\
  (In (CDeleteById pid)
      (calls (profile_storage (snd (consolidate_one ingest_embed user_id
                                      memory s)))) ->
   In (CDeleteById pid) (calls (profile_storage s))).
Proof.
  destruct (validate_memory memory) as [cm|] eqn:Hv.
  - split.
    + unfold consolidate_one. now rewrite Hv.
    + rewrite (ConsolidationFacts.consolidate_one_call Emb ingest_embed
                 user_id memory cm s Hv).
      intros H. apply in_app_or in H. destruct H as [H|[H|[]]];
        [exact H|discriminate].
  - unfold consolidate_one. rewrite Hv. now split.
Qed.

Lemma consolidate_all_no_delete (user_id : string) (l : list json) (pid : Z) :
  forall s : PM Emb,
  fst (for_each l (consolidate_one ingest_embed user_id) s) = Ok tt /\
  (In (CDeleteById pid)
      (calls (profile_storage
                (snd (for_each l (consolidate_one ingest_embed user_id) s)))) ->
   In (CDeleteById pid) (calls (profile_storage s))).
Proof.
  induction l as [|memory l IH]; intros s; [now split|].
  cbn [for_each]. unfold bind at 1. unfold bind at 1.
  destruct (consolidate_one_no_delete user_id memory s pid) as [H1 H2].
  destruct (consolidate_one ingest_embed user_id memory s) as [[[]|e] s1];
    [|discriminate].
  cbn [fst snd] in *. destruct (IH s1) as [H3 H4]. split; auto.
Qed.

(** The three malformations that set [keep_all_memories]: a missing
    ['keep_memories'], a ['consolidate_memories'] that is not a list, a
    ['keep_memories'] that is not a list.  No entry is deleted. *)
Lemma dedup_keep_all (user_id : string) (memories : list (ProfileEntry Emb))
  (d : list (string * json)) (s : PM Emb) (pid : Z) :
  PyDict.contains "keep_memories" d = false \/
  (exists v, PyDict.get "consolidate_memories" d = Some v /\
             is_list v = false) \/
  (exists v, PyDict.get "keep_memories" d = Some v /\ is_list v = false) ->
  In (CDeleteById pid)
     (calls (profile_storage
               (snd (dedup_parsed ingest_embed user_id memories (JDict d) s)))) ->
  In (CDeleteById pid) (calls (profile_storage s)).
Proof.
  intros H. unfold dedup_parsed.
  set (cms := match PyDict.get "consolidate_memories" d with
              | Some v => v | None => JList [] end).
  set (kms := match PyDict.get "keep_memories" d with
              | Some v => v | None => JList [] end).
  assert (Hk : (let (_, keep_all) :=
                  match kms with
                  | JList l =>
                      (l, snd (match cms with
                               | JList l0 =>
                                   (l0, if PyDict.contains "keep_memories" d
                                        then false else true)
                               | _ => ([], true)
                               end))
                  | _ => ([], true)
                  end in keep_all) = true).
  { destruct H as [H|[(v & Hv & Hl)|(v & Hv & Hl)]].
    - rewrite H. destruct kms; try reflexivity. now destruct cms.
    - unfold cms. rewrite Hv. destruct kms; try reflexivity.
      now destruct v.
    - unfold kms. rewrite Hv. now destruct v. }
  destruct cms as [| | | | |cl|]; destruct kms as [| | | | |kl|];
    cbn [snd negb] in *;
    try (unfold bind at 1, ret at 1;
         apply (consolidate_all_no_delete user_id _ pid s));
    rewrite Hk; cbn [negb];
    unfold bind at 1, ret at 1;
    apply (consolidate_all_no_delete user_id _ pid s).
Qed.

(** The deletions of the consolidation pass erase the key [user_id]: the
    entry cached for any pair [(user, json.dumps(isolations))] stays. *)
Lemma delete_unkept_keeps_pairs (user_id : string) (valid_keep : list Z)
  (memory : ProfileEntry Emb) (s : PM Emb) (u dumped : string) :
  LRU.lookup cache_key_eq_dec (KPair u dumped)
    (profile_cache (snd (delete_unkept user_id valid_keep memory s)))
  = LRU.lookup cache_key_eq_dec (KPair u dumped) (profile_cache s).
Proof.
  unfold delete_unkept.
  destruct (negb (existsb (Z.eqb (pe_id memory)) valid_keep)); [|reflexivity].
  unfold bind, cache_erase, storage_do.
  cbn [fst snd profile_cache with_storage with_cache].
  apply lookup_erase_ne. discriminate.
Qed.

Lemma delete_loop_keeps_pairs (user_id : string) (valid_keep : list Z)
  (memories : list (ProfileEntry Emb)) (u dumped : string) :
  forall s : PM Emb,
  fst (for_each memories (delete_unkept user_id valid_keep) s) = Ok tt /\
  LRU.lookup cache_key_eq_dec (KPair u dumped)
    (profile_cache (snd (for_each memories
                           (delete_unkept user_id valid_keep) s)))
  = LRU.lookup cache_key_eq_dec (KPair u dumped) (profile_cache s).
Proof.
  induction memories as [|memory memories IH]; intros s; [now split|].
  cbn [for_each]. unfold bind at 1. unfold bind at 1.
  pose proof (delete_unkept_keeps_pairs user_id valid_keep memory s u dumped)
    as H.
  assert (Hok : fst (delete_unkept user_id valid_keep memory s) = Ok tt).
  { unfold delete_unkept.
    now destruct (negb (existsb (Z.eqb (pe_id memory)) valid_keep)). }
  destruct (delete_unkept user_id valid_keep memory s) as [[[]|e] s1];
    [|discriminate].
  cbn [fst snd] in *. destruct (IH s1) as [H1 H2]. split; [exact H1|].
  now rewrite H2.
Qed.

(** A missing ['consolidate_memories'] is handled as an empty list: the
    deletions follow ['keep_memories'] alone. *)
Lemma dedup_missing_consolidate (user_id : string)
  (memories : list (ProfileEntry Emb)) (d : list (string * json))
  (s : PM Emb) :
  PyDict.contains "consolidate_memories" d = false ->
  dedup_parsed ingest_embed user_id memories (JDict d) s
  = dedup_parsed ingest_embed user_id memories
      (JDict (("consolidate_memories"%string, JList []) :: d)) s.
Proof.
  intros H. unfold dedup_parsed, PyDict.contains in *. cbn [PyDict.get].
  change (String.eqb "consolidate_memories" "consolidate_memories") with true.
  change (String.eqb "consolidate_memories" "keep_memories") with false.
  cbv iota.
  destruct (PyDict.get "consolidate_memories" d); [discriminate|reflexivity].
Qed.

End Facade.

Local Open Scope string_scope.

(** ** C2 *)

(** C2 at the failing input: the decoded response [{"keep_memories": []}]
    lacks ['consolidate_memories'].  The key is defaulted to the empty list
    without setting [keep_all_memories], and
    [delete_profile_feature_by_id] is called for each of the five entries
    of the section, which leaves the profile empty. *)
Lemma missing_consolidate_key_deletes :
  let out := deduplicate_profile Scenario.embed (Scenario.constant_model "")
               (Scenario.parse_as Scenario.response_without_consolidate)
               Scenario.user Scenario.section Scenario.five_entries in
  PyDict.contains "consolidate_memories"
    [("keep_memories", JList [])] = false /\
  map (@pe_id unit) Scenario.section = [1; 2; 3; 4; 5]%Z /\
  fst out = Ok tt /\
  calls (profile_storage (snd out))
  = (calls (profile_storage Scenario.five_entries)
       ++ [CDeleteById 1; CDeleteById 2; CDeleteById 3; CDeleteById 4;
           CDeleteById 5])%list /\
  get_profile Scenario.user [] (profile_storage (snd out)) = [].
Proof. cbv zeta. split_all; by_eval. Qed.

(** ** C3 *)

(** C3 at the failing input: the cache holds the profile of the user under
    the empty isolation map; consolidation deletes the five entries of the
    section, erasing the key [user_id] instead of
    [(user_id, json.dumps(isolations))]; the cache still holds the entry,
    and the next read returns the five deleted entries. *)
Lemma consolidation_leaves_cache_entry :
  let s := Scenario.five_entries_cached in
  let out := deduplicate_profile Scenario.embed (Scenario.constant_model "")
               (Scenario.parse_as Scenario.response_drop_all)
               Scenario.user Scenario.section s in
  fst out = Ok tt /\
  get_profile Scenario.user [] (profile_storage (snd out)) = [] /\
  LRU.lookup cache_key_eq_dec (cache_key_of Scenario.user [])
             (profile_cache (snd out))
  = Some (LRU.mkNode (cache_key_of Scenario.user []) Scenario.section) /\
  fst (get_user_profile Scenario.user None (snd out)) = Ok Scenario.section /\
  length Scenario.section = 5%nat.
Proof. cbv zeta. split_all; by_eval. Qed.

(** ** C9 *)

(** C9 at the failing input: the maps [{"g": "G", "s": "S"}] and
    [{"s": "S", "g": "G"}] hold the same pairs and have the same sorted-key
    serialization, the one [key_fn] asks [json.dumps] for, but the cache
    key [json.dumps(isolations)] differs.  A profile cached under the first is
    not erased by a write under the second, and the next read under the
    first returns the cached profile without the new entry. *)
Lemma cache_key_follows_insertion_order :
  let u := Scenario.user in
  let s1 := snd (get_user_profile u (Some Scenario.iso_gs) Scenario.fresh) in
  let s2 := snd (add_new_profile Scenario.embed u "likes" "dogs" "pets" None
                                 (Some Scenario.iso_sg) None s1) in
  same_pairs Scenario.iso_gs Scenario.iso_sg /\
  dumps true Scenario.iso_gs = dumps true Scenario.iso_sg /\
  cache_key_of u Scenario.iso_gs <> cache_key_of u Scenario.iso_sg /\
  fst (get_user_profile u (Some Scenario.iso_gs) s2) = Ok [] /\
  map (@pe_value unit) (get_profile u Scenario.iso_gs (profile_storage s2))
  = ["dogs"].
Proof.
  cbv zeta. split; [|split_all; try by_eval; discriminate].
  intros k. unfold Scenario.iso_gs, Scenario.iso_sg. cbn [PyDict.get].
  destruct (String.eqb_spec "g" k) as [Eg|Hg];
    destruct (String.eqb_spec "s" k) as [Es|Hs]; try reflexivity.
  rewrite <- Eg in Es. discriminate Es.
Qed.

End CacheFacts.

(* ===================================================================== *)
(** * Further properties of the cache                                     *)
(* ===================================================================== *)

Module LRUExtra.
Import LRU.

Unset Implicit Arguments.

Section Extra.

Variables K V : Type.
Variable K_eq_dec : forall a b : K, {a = b} + {a <> b}.

Abbreviation Cache := (LRUCache K V).
Abbreviation found k :=
  (fun n : Node K V => if K_eq_dec (key n) k then true else false).

Lemma find_head (k : K) (x : Node K V) (l : list (Node K V)) :
  key x = k -> find (found k) (x :: l) = Some x.
Proof.
  intros E. cbn [find]. destruct (K_eq_dec (key x) k); [reflexivity|congruence].
Qed.

Lemma find_skip (k : K) (x : Node K V) (l : list (Node K V)) :
  key x <> k -> find (found k) (x :: l) = find (found k) l.
Proof.
  intros E. cbn [find]. destruct (K_eq_dec (key x) k); [congruence|reflexivity].
Qed.

Lemma find_app (k : K) (l1 l2 : list (Node K V)) :
  find (found k) (l1 ++ l2)
  = match find (found k) l1 with
    | Some x => Some x
    | None => find (found k) l2
    end.
Proof.
  induction l1 as [|x l1 IH]; [reflexivity|].
  cbn [app find]. now destruct (K_eq_dec (key x) k).
Qed.

(** A cache built by the constructor and used through its methods. *)
Lemma run_inv (N : Z) (c0 : Cache) (ops : list (op K V)) :
  new K V N = Some c0 ->
  NoDup (resident (run K_eq_dec ops c0)) /\
  capacity (run K_eq_dec ops c0) = N /\ (0 < N)%Z /\
  (Z.of_nat (length (nodes (run K_eq_dec ops c0))) <= N)%Z.
Proof.
  intros Hnew.
  destruct (LRUFacts.new_inv K V N c0 Hnew) as (Hc0 & Hinv0 & _).
  pose proof (LRUFacts.fold_inv K V K_eq_dec ops c0 [] Hinv0) as Hinv.
  rewrite LRUFacts.track_run in Hinv.
  pose proof (LRUFacts.inv_NoDup_resident K V _ _ Hinv) as Hnd.
  destruct Hinv as (_ & _ & Hcap & Hlen).
  assert (HN : capacity (run K_eq_dec ops c0) = N).
  { rewrite LRUFacts.capacity_run, Hc0. reflexivity. }
  rewrite HN in *. auto.
Qed.

Lemma find_removelast (k : K) (l : list (Node K V)) :
  NoDup (map (@key K V) l) ->
  find (found k) (removelast l)
  = if K_eq_dec k (last (map (@key K V) l) k) then None
    else find (found k) l.
Proof.
  intros Hnd. destruct l as [|a l'] using rev_ind.
  - cbn. now destruct (K_eq_dec k k).
  - clear IHl'. rewrite removelast_last, map_app. cbn [map].
    rewrite last_last. rewrite map_app in Hnd. cbn [map] in Hnd.
    rewrite find_app. cbn [find].
    destruct (K_eq_dec k (key a)) as [E|E].
    + destruct (find (found k) l') as [n|] eqn:F; [|reflexivity].
      exfalso. apply find_some in F. destruct F as [Hin Hk].
      destruct (K_eq_dec (key n) k) as [E'|]; [|discriminate].
      apply NoDup_remove_2 in Hnd. apply Hnd. rewrite app_nil_r.
      rewrite <- E, <- E'. now apply in_map.
    + destruct (K_eq_dec (key a) k); [congruence|].
      now destruct (find (found k) l').
Qed.

(** The value of the last [put] under [k] in a sequence of calls. *)
Definition last_put (k : K) (ops : list (op K V)) : option V :=
  fold_left (fun acc o =>
               match o with
               | Put k' v => if K_eq_dec k' k then Some v else acc
               | _ => acc
               end) ops None.

Lemma last_put_snoc (k : K) (ops : list (op K V)) (o : op K V) :
  last_put k (ops ++ [o])
  = match o with
    | Put k' v => if K_eq_dec k' k then Some v else last_put k ops
    | _ => last_put k ops
    end.
Proof. unfold last_put. rewrite fold_left_app. reflexivity. Qed.

Lemma In_remove_node (k : K) (n : Node K V) (l : list (Node K V)) :
  In n (remove_node K_eq_dec k l) -> In n l.
Proof.
  induction l as [|x l IH]; [easy|]. cbn [remove_node].
  destruct (K_eq_dec (key x) k); cbn [In]; tauto.
Qed.

Lemma In_removelast (A : Type) (x : A) (l : list A) :
  In x (removelast l) -> In x l.
Proof.
  destruct l as [|a l'] using rev_ind; [easy|].
  rewrite removelast_last, in_app_iff. tauto.
Qed.

Lemma key_remove_node (k : K) (n : Node K V) (l : list (Node K V)) :
  NoDup (map (@key K V) l) -> In k (map (@key K V) l) ->
  In n (remove_node K_eq_dec k l) -> key n <> k.
Proof.
  intros Hnd Hin Hn E.
  apply (in_map (@key K V)) in Hn.
  rewrite (LRUFacts.resident_remove_node K V K_eq_dec k l Hnd), E in Hn.
  now apply remove_In in Hn.
Qed.

Lemma run_snoc (ops : list (op K V)) (o : op K V) (c0 : Cache) :
  run K_eq_dec (ops ++ [o]) c0 = step K_eq_dec (run K_eq_dec ops c0) o.
Proof. unfold run. rewrite fold_left_app. reflexivity. Qed.

Lemma stored_last_put (N : Z) (c0 : Cache) (ops : list (op K V)) :
  new K V N = Some c0 ->
  forall n, In n (nodes (run K_eq_dec ops c0)) ->
            last_put (key n) ops = Some (value n).
Proof.
  intros Hnew. induction ops as [|o ops IH] using rev_ind.
  - apply (LRUFacts.new_inv K V) in Hnew.
    destruct Hnew as (-> & _). intros n [].
  - destruct (run_inv N c0 ops Hnew) as (Hnd & _).
    rewrite run_snoc. set (c := run K_eq_dec ops c0) in *.
    intros n Hn. rewrite last_put_snoc.
    destruct o as [k|k v|k]; cbn [step] in Hn.
    + unfold get in Hn. destruct (lookup K_eq_dec k c) as [m|] eqn:L.
      * cbn [snd nodes add_to_front In] in Hn. destruct Hn as [<-|Hn].
        -- apply IH. unfold lookup in L. now apply find_some in L.
        -- apply IH. eapply In_remove_node, Hn.
      * now apply IH.
    + unfold put in Hn. destruct (lookup K_eq_dec k c) as [m|] eqn:L.
      * destruct (LRUFacts.lookup_Some K V K_eq_dec k c m L) as [Ek Hin].
        cbn [nodes add_to_front In] in Hn. destruct Hn as [<-|Hn].
        -- cbn [key value]. rewrite Ek.
           destruct (K_eq_dec k k); [reflexivity|congruence].
        -- pose proof (key_remove_node k n (nodes c) Hnd Hin Hn) as Hne.
           destruct (K_eq_dec k (key n)); [congruence|].
           apply IH. eapply In_remove_node, Hn.
      * pose proof (LRUFacts.lookup_None K V K_eq_dec k c L) as Hout.
        cbn [nodes add_to_front In] in Hn. destruct Hn as [<-|Hn].
        -- cbn [key value]. destruct (K_eq_dec k k); [reflexivity|congruence].
        -- assert (Hn' : In n (nodes c)).
           { destruct (Z.of_nat (length (nodes c)) >=? capacity c)%Z;
               [now apply In_removelast|assumption]. }
           destruct (K_eq_dec k (key n)) as [E|].
           ++ exfalso. apply Hout. rewrite E. now apply in_map.
           ++ now apply IH.
    + unfold erase in Hn. destruct (lookup K_eq_dec k c) as [m|] eqn:L.
      * apply IH. eapply In_remove_node, Hn.
      * now apply IH.
Qed.

(** The representation invariant on its own: distinct keys, a positive
    capacity, and no more nodes than the capacity. *)
Definition wf (c : Cache) : Prop :=
  NoDup (resident c) /\ (0 < capacity c)%Z /\
  (Z.of_nat (length (nodes c)) <= capacity c)%Z.

Lemma NoDup_removelast (A : Type) (l : list A) :
  NoDup l -> NoDup (removelast l).
Proof.
  destruct l as [|a l'] using rev_ind; [easy|].
  rewrite removelast_last. intros H. apply NoDup_remove_1 in H.
  now rewrite app_nil_r in H.
Qed.

Lemma length_removelast (A : Type) (l : list A) :
  length (removelast l) = (length l - 1)%nat.
Proof.
  destruct l as [|a l'] using rev_ind; [reflexivity|].
  rewrite removelast_last, length_app. cbn [length]. lia.
Qed.

Lemma wf_promote (k : K) (n : Node K V) (c : Cache) :
  wf c -> key n = k -> In k (resident c) ->
  wf (mkLRU (capacity c) (n :: remove_node K_eq_dec k (nodes c))).
Proof.
  intros (Hnd & Hcap & Hlen) Ek Hin. unfold wf, resident in *.
  cbn [nodes capacity map length].
  rewrite (LRUFacts.resident_remove_node K V K_eq_dec k _ Hnd), Ek.
  pose proof (LRUFacts.length_remove_node K V K_eq_dec k _ Hin).
  split; [|split; [exact Hcap|lia]].
  constructor; [apply remove_In|now apply LRUFacts.NoDup_rm].
Qed.

Lemma wf_erase (k : K) (c : Cache) :
  wf c -> wf (erase K_eq_dec k c) /\
          capacity (erase K_eq_dec k c) = capacity c.
Proof.
  intros Hwf. unfold erase.
  destruct (lookup K_eq_dec k c) as [n|] eqn:L; [|now split].
  destruct (LRUFacts.lookup_Some K V K_eq_dec k c n L) as [_ Hin].
  destruct Hwf as (Hnd & Hcap & Hlen). split; [|reflexivity].
  unfold wf, resident in *. cbn [nodes capacity].
  rewrite (LRUFacts.resident_remove_node K V K_eq_dec k _ Hnd).
  pose proof (LRUFacts.length_remove_node K V K_eq_dec k _ Hin).
  split; [now apply LRUFacts.NoDup_rm|]. split; [exact Hcap|lia].
Qed.

Lemma wf_get (k : K) (c : Cache) :
  wf c -> wf (snd (get K_eq_dec k c)) /\
          capacity (snd (get K_eq_dec k c)) = capacity c.
Proof.
  intros Hwf. unfold get.
  destruct (lookup K_eq_dec k c) as [n|] eqn:L; cbn [snd]; [|now split].
  destruct (LRUFacts.lookup_Some K V K_eq_dec k c n L) as [Ek Hin].
  split; [|reflexivity]. now apply wf_promote.
Qed.

Lemma wf_put (k : K) (v : V) (c : Cache) :
  wf c -> wf (put K_eq_dec k v c) /\
          capacity (put K_eq_dec k v c) = capacity c.
Proof.
  intros Hwf. unfold put.
  destruct (lookup K_eq_dec k c) as [n|] eqn:L.
  - destruct (LRUFacts.lookup_Some K V K_eq_dec k c n L) as [Ek Hin].
    split; [|reflexivity]. now apply wf_promote.
  - pose proof (LRUFacts.lookup_None K V K_eq_dec k c L) as Hout.
    destruct Hwf as (Hnd & Hcap & Hlen). split; [|reflexivity].
    unfold wf, resident, add_to_front in *. cbn [nodes capacity map key].
    destruct (Z.geb_spec (Z.of_nat (length (nodes c))) (capacity c)).
    + rewrite LRUFacts.map_removelast. cbn [length].
      rewrite length_removelast.
      split; [|split; [exact Hcap|lia]].
      constructor; [|now apply NoDup_removelast].
      intros Hin. apply Hout. now apply In_removelast.
    + cbn [length]. split; [|split; [exact Hcap|lia]].
      now constructor.
Qed.

(** X1.  Insert then look up: a [get] that directly follows [put(k, v)]
    hits and returns [v], whatever the cache held before and whether or
    not the [put] had to evict. *)
Theorem put_then_get (k : K) (v : V) (c : Cache) :
  fst (get K_eq_dec k (put K_eq_dec k v c)) = Some v.
Proof.
  unfold put. destruct (lookup K_eq_dec k c) as [m|] eqn:L.
  - destruct (LRUFacts.lookup_Some K V K_eq_dec k c m L) as [Ek _].
    unfold get, lookup. cbn [nodes]; unfold add_to_front.
    rewrite find_head by exact Ek. reflexivity.
  - unfold get, lookup. cbn [nodes]; unfold add_to_front.
    rewrite find_head by reflexivity. reflexivity.
Qed.

(** X2.  The cache never serves a stale value: on a cache built by the
    constructor and used only through [get], [put] and [erase], a [get]
    that hits returns the value of the most recent [put] under that key. *)
Theorem get_returns_last_put
  (N : Z) (c0 : Cache) (ops : list (op K V)) (k : K) (v : V) :
  new K V N = Some c0 ->
  fst (get K_eq_dec k (run K_eq_dec ops c0)) = Some v ->
  last_put k ops = Some v.
Proof.
  intros Hnew Hget. unfold get in Hget.
  destruct (lookup K_eq_dec k (run K_eq_dec ops c0)) as [n|] eqn:L;
    [|discriminate].
  cbn [fst] in Hget. injection Hget as <-.
  destruct (LRUFacts.lookup_Some K V K_eq_dec k _ n L) as [<- _].
  apply (stored_last_put N c0 ops Hnew).
  unfold lookup in L. now apply find_some in L.
Qed.

(** X3.  [erase(k)] removes exactly the entry of [k]: afterwards [k]
    misses, and every other key is looked up as before. *)
Theorem erase_only_that_key
  (N : Z) (c0 : Cache) (ops : list (op K V)) (k : K) :
  new K V N = Some c0 ->
  let c := run K_eq_dec ops c0 in
  lookup K_eq_dec k (erase K_eq_dec k c) = None /\
  forall k', k' <> k ->
             lookup K_eq_dec k' (erase K_eq_dec k c) = lookup K_eq_dec k' c.
Proof.
  intros Hnew c. destruct (run_inv N c0 ops Hnew) as (Hnd & _). split.
  - now apply CacheFacts.lookup_erase.
  - intros k' Hne. apply CacheFacts.lookup_erase_ne. congruence.
Qed.

(** X4.  A [get] changes no stored entry: it returns the stored value (or
    [None] and the cache untouched on a miss), and afterwards every key,
    the one read included, is looked up exactly as before.  Only the
    recency order moves. *)
Theorem get_keeps_entries
  (N : Z) (c0 : Cache) (ops : list (op K V)) (k : K) :
  new K V N = Some c0 ->
  let c := run K_eq_dec ops c0 in
  fst (get K_eq_dec k c) = option_map (@value K V) (lookup K_eq_dec k c) /\
  (lookup K_eq_dec k c = None -> snd (get K_eq_dec k c) = c) /\
  forall k', lookup K_eq_dec k' (snd (get K_eq_dec k c))
             = lookup K_eq_dec k' c.
Proof.
  intros Hnew c. destruct (run_inv N c0 ops Hnew) as (Hnd & _).
  fold c in Hnd. unfold get.
  destruct (lookup K_eq_dec k c) as [n|] eqn:L; cbn [fst snd option_map].
  - split; [reflexivity|]. split; [discriminate|]. intros k'.
    destruct (LRUFacts.lookup_Some K V K_eq_dec k c n L) as [Ek _].
    unfold lookup. cbn [nodes]; unfold add_to_front.
    destruct (K_eq_dec k k') as [<-|Hne].
    + rewrite find_head by exact Ek. symmetry. exact L.
    + rewrite find_skip by congruence.
      now apply CacheFacts.find_remove_node_ne.
  - split; [reflexivity|]. split; reflexivity.
Qed.

(** X5.  What a [put(k, v)] does to the other keys.  When [k] is already
    resident or the cache has room, every other entry stays.  When [k] is
    new and the cache is full, exactly one other entry goes: the one at
    the tail of the recency list. *)
Theorem put_evicts_only_lru
  (N : Z) (c0 : Cache) (ops : list (op K V)) (k : K) (v : V) :
  new K V N = Some c0 ->
  let c := run K_eq_dec ops c0 in
  forall k', k' <> k ->
    lookup K_eq_dec k' (put K_eq_dec k v c)
    = match lookup K_eq_dec k c with
      | Some _ => lookup K_eq_dec k' c
      | None =>
          if (Z.of_nat (length (nodes c)) <? N)%Z then lookup K_eq_dec k' c
          else if K_eq_dec k' (last (resident c) k') then None
               else lookup K_eq_dec k' c
      end.
Proof.
  intros Hnew c k' Hne.
  destruct (run_inv N c0 ops Hnew) as (Hnd & Hcap & _).
  fold c in Hnd, Hcap. unfold put.
  destruct (lookup K_eq_dec k c) as [n|] eqn:L.
  - destruct (LRUFacts.lookup_Some K V K_eq_dec k c n L) as [Ek _].
    unfold lookup. cbn [nodes]; unfold add_to_front.
    rewrite find_skip by (cbn [key]; congruence).
    apply CacheFacts.find_remove_node_ne. congruence.
  - unfold lookup. cbn [nodes]; unfold add_to_front.
    rewrite find_skip by (cbn [key]; congruence).
    rewrite Hcap.
    destruct (Z.ltb_spec (Z.of_nat (length (nodes c))) N) as [Hlt|Hge].
    + destruct (Z.geb_spec (Z.of_nat (length (nodes c))) N); [lia|].
      reflexivity.
    + destruct (Z.geb_spec (Z.of_nat (length (nodes c))) N); [|lia].
      now apply find_removelast.
Qed.

(** X6.  The representation invariant of the class: after any sequence of
    calls the list holds at most [capacity] nodes and no key twice, so the
    dictionary and the linked list describe the same entries. *)
Theorem cache_keys_distinct_and_bounded
  (N : Z) (c0 : Cache) (ops : list (op K V)) :
  new K V N = Some c0 ->
  NoDup (resident (run K_eq_dec ops c0)) /\
  (Z.of_nat (length (resident (run K_eq_dec ops c0))) <= N)%Z.
Proof.
  intros Hnew. destruct (run_inv N c0 ops Hnew) as (Hnd & _ & _ & Hlen).
  split; [exact Hnd|]. unfold resident. now rewrite length_map.
Qed.

End Extra.

(** A cache of capacity 2 over numbers, and a run that fills it, updates
    a key and evicts. *)
Definition small : LRUCache nat nat := mkLRU 2 [].

Definition busy : list (op nat nat) :=
  [Put 1%nat 10%nat; Put 2%nat 20%nat; Put 1%nat 11%nat; Get nat 2%nat].

Lemma get_returns_last_put_witness :
  new nat nat 2 = Some small /\
  fst (get Nat.eq_dec 1%nat (run Nat.eq_dec busy small)) = Some 11%nat /\
  last_put nat nat Nat.eq_dec 1%nat busy = Some 11%nat.
Proof.
  split; [reflexivity|]. split; [reflexivity|].
  apply (get_returns_last_put nat nat Nat.eq_dec 2 small busy 1%nat 11%nat);
    reflexivity.
Defined.

Lemma erase_only_that_key_witness :
  new nat nat 2 = Some small /\
  lookup Nat.eq_dec 1%nat
    (erase Nat.eq_dec 1%nat (run Nat.eq_dec busy small)) = None /\
  forall k', k' <> 1%nat ->
    lookup Nat.eq_dec k' (erase Nat.eq_dec 1%nat (run Nat.eq_dec busy small))
    = lookup Nat.eq_dec k' (run Nat.eq_dec busy small).
Proof.
  split; [reflexivity|].
  exact (erase_only_that_key nat nat Nat.eq_dec 2 small busy 1%nat eq_refl).
Defined.

Lemma get_keeps_entries_witness :
  new nat nat 2 = Some small /\
  let c := run Nat.eq_dec busy small in
  fst (get Nat.eq_dec 1%nat c)
  = option_map (@value nat nat) (lookup Nat.eq_dec 1%nat c) /\
  (lookup Nat.eq_dec 1%nat c = None -> snd (get Nat.eq_dec 1%nat c) = c) /\
  forall k', lookup Nat.eq_dec k' (snd (get Nat.eq_dec 1%nat c))
             = lookup Nat.eq_dec k' c.
Proof.
  split; [reflexivity|].
  exact (get_keeps_entries nat nat Nat.eq_dec 2 small busy 1%nat eq_refl).
Defined.

Lemma put_evicts_only_lru_witness :
  new nat nat 2 = Some small /\
  3%nat <> 1%nat /\
  lookup Nat.eq_dec 1%nat
    (put Nat.eq_dec 3%nat 30%nat (run Nat.eq_dec busy small)) = None.
Proof.
  split; [reflexivity|]. split; [discriminate|].
  rewrite (put_evicts_only_lru nat nat Nat.eq_dec 2 small busy 3%nat 30%nat
             eq_refl 1%nat); [reflexivity|discriminate].
Defined.

Lemma cache_keys_distinct_and_bounded_witness :
  new nat nat 2 = Some small /\
  NoDup (resident (run Nat.eq_dec busy small)) /\
  (Z.of_nat (length (resident (run Nat.eq_dec busy small))) <= 2)%Z.
Proof.
  split; [reflexivity|].
  exact (cache_keys_distinct_and_bounded nat nat Nat.eq_dec 2 small busy
           eq_refl).
Defined.

End LRUExtra.

(* ===================================================================== *)
(** * Further properties of the update trackers                           *)
(* ===================================================================== *)

Module TrackerExtra.
Import Tracker.

Unset Implicit Arguments.

Local Open Scope Q_scope.

(** The calls a [ProfileUpdateTrackerManager] receives, each with the
    reading of the clock at the call. *)
Inductive call : Type :=
| MarkUpdate (u : string) (now : Q)
| GetUsersToUpdate (now : Q).

Definition step (m : ProfileUpdateTrackerManager) (c : call)
  : ProfileUpdateTrackerManager :=
  match c with
  | MarkUpdate u now => mgr_mark_update u now m
  | GetUsersToUpdate now => snd (get_users_to_update now m)
  end.

(** The tracker [mark_update] works on: the stored one, or a fresh one. *)
Definition tracker_of (u : string) (m : ProfileUpdateTrackerManager)
  : ProfileUpdateTracker :=
  match PyDict.get u (trackers m) with
  | Some t => t
  | None => new_tracker u (mgr_message_limit m) (mgr_time_limit_sec m)
  end.

Lemma should_update_reset (now : Q) (t : ProfileUpdateTracker) :
  should_update now (reset t) = false.
Proof. reflexivity. Qed.

Lemma should_update_later (now now' : Q) (t : ProfileUpdateTracker) :
  now <= now' -> should_update now t = true -> should_update now' t = true.
Proof.
  intros Hle. unfold should_update, seconds_from_first_update.
  destruct (message_count t =? 0)%Z; [easy|].
  destruct (first_updated t) as [f|]; [|easy].
  cbv zeta. rewrite !orb_true_iff, !Qle_bool_iff.
  intros [H|H]; [left; lra|now right].
Qed.

Lemma drain_again (now : Q) (ts : PyDict.dict ProfileUpdateTracker) :
  fst (drain now (snd (drain now ts))) = [].
Proof.
  induction ts as [|[u t] ts IH]; [reflexivity|].
  cbn [drain]. destruct (drain now ts) as [ret rest] eqn:E.
  cbn [snd] in IH.
  destruct (should_update now t) eqn:S; cbn [snd drain];
    destruct (drain now rest) as [ret' rest'']; cbn [fst] in IH; subst ret'.
  - rewrite should_update_reset. reflexivity.
  - rewrite S. reflexivity.
Qed.

Lemma returned_iff (now : Q) (m : ProfileUpdateTrackerManager) (u : string) :
  In u (fst (get_users_to_update now m)) <->
  exists t, In (u, t) (trackers m) /\ should_update now t = true.
Proof.
  unfold get_users_to_update.
  pose proof (TrackerFacts.drain_ret now (trackers m) u) as H.
  destruct (drain now (trackers m)) as [r ts]. exact H.
Qed.

Lemma trackers_after (now : Q) (m : ProfileUpdateTrackerManager) :
  trackers (snd (get_users_to_update now m)) = snd (drain now (trackers m)).
Proof.
  unfold get_users_to_update.
  destruct (drain now (trackers m)) as [r ts]. reflexivity.
Qed.

Lemma returned_fst (now : Q) (m : ProfileUpdateTrackerManager) :
  fst (get_users_to_update now m) = fst (drain now (trackers m)).
Proof.
  unfold get_users_to_update.
  destruct (drain now (trackers m)) as [r ts]. reflexivity.
Qed.

(** X7.  [mark_update(user)] counts one more pending message for that
    user, creating the tracker on first use, and keeps the time of the
    first pending message; it touches no other user's tracker. *)
Theorem mark_update_counts
  (u : string) (now : Q) (m : ProfileUpdateTrackerManager) :
  let t0 := tracker_of u m in
  let m' := mgr_mark_update u now m in
  (exists t', PyDict.get u (trackers m') = Some t' /\
              message_count t' = (message_count t0 + 1)%Z /\
              first_updated t'
              = Some (match first_updated t0 with
                      | Some f => f
                      | None => now
                      end)) /\
  (forall u', u' <> u ->
              PyDict.get u' (trackers m') = PyDict.get u' (trackers m)).
Proof.
  cbv zeta. unfold mgr_mark_update, tracker_of, PyDict.contains.
  destruct (PyDict.get u (trackers m)) as [t|] eqn:G; cbn [trackers].
  - rewrite G. split.
    + exists (mark_update now t). rewrite PyDictFacts.get_set_eq.
      split; [reflexivity|]. split; [reflexivity|].
      cbn [mark_update first_updated]. now destruct (first_updated t).
    + intros u' Hne. apply PyDictFacts.get_set_ne. congruence.
  - rewrite PyDictFacts.get_set_eq. split.
    + eexists. rewrite PyDictFacts.get_set_eq.
      split; [reflexivity|]. split; reflexivity.
    + intros u' Hne. rewrite !PyDictFacts.get_set_ne by congruence.
      reflexivity.
Qed.

(** X8.  A user handed out by [get_users_to_update] is not handed out
    again, however late the next call comes, until a new message marks
    that user; and a second call at the same instant returns nobody. *)
Theorem drained_until_marked
  (now now' : Q) (m : ProfileUpdateTrackerManager) :
  wf m ->
  let ret := fst (get_users_to_update now m) in
  let m1 := snd (get_users_to_update now m) in
  (forall u, In u ret -> ~ In u (fst (get_users_to_update now' m1))) /\
  fst (get_users_to_update now m1) = [].
Proof.
  intros Hwf ret m1.
  pose proof (TrackerFacts.wf_drain now m Hwf) as [Hnd1 _]. fold m1 in Hnd1.
  destruct Hwf as [Hnd _]. split.
  - intros u Hu Hu'. apply returned_iff in Hu, Hu'.
    destruct Hu as (t & Hin & S). destruct Hu' as (t1 & Hin1 & S1).
    apply (PyDictFacts.In_get _ u t1 _ Hnd1) in Hin1.
    apply (PyDictFacts.In_get _ u t _ Hnd) in Hin.
    unfold m1 in Hin1. rewrite trackers_after, TrackerFacts.drain_get in Hin1.
    rewrite Hin, S in Hin1. injection Hin1 as <-. discriminate S1.
  - unfold m1. rewrite returned_fst, trackers_after. apply drain_again.
Qed.

(** X9.  A user who is due stays due: without a drain in between, whoever
    [get_users_to_update] would return at one instant it also returns at
    every later instant. *)
Theorem due_stays_due
  (now now' : Q) (m : ProfileUpdateTrackerManager) (u : string) :
  now <= now' ->
  In u (fst (get_users_to_update now m)) ->
  In u (fst (get_users_to_update now' m)).
Proof.
  intros Hle. rewrite !returned_iff. intros (t & Hin & S).
  exists t. split; [exact Hin|]. now apply (should_update_later now now').
Qed.

(** X10.  The state the manager keeps: after any sequence of
    [mark_update] and [get_users_to_update] calls there is one tracker per
    user, every tracker carries the manager's two limits, its count is
    never negative, and the count is zero exactly when no first-message
    time is recorded. *)
Theorem manager_state_wf (M : Z) (T : Q) (calls : list call) :
  wf (fold_left step calls (new_manager M T)).
Proof.
  assert (H : forall m, wf m -> wf (fold_left step calls m)).
  { induction calls as [|c calls IH]; intros m Hm; [exact Hm|].
    cbn [fold_left]. apply IH. destruct c as [u now|now]; cbn [step].
    - now apply TrackerFacts.wf_mark_update.
    - now apply TrackerFacts.wf_drain. }
  apply H, TrackerFacts.wf_new.
Qed.

Lemma drained_until_marked_witness :
  let m := mgr_mark_update "u" 1 (mgr_mark_update "u" 0 (new_manager 2 60)) in
  wf m /\
  fst (get_users_to_update 5 m) = ["u"%string] /\
  (forall u, In u (fst (get_users_to_update 5 m)) ->
     ~ In u (fst (get_users_to_update 1000
                    (snd (get_users_to_update 5 m))))) /\
  fst (get_users_to_update 5 (snd (get_users_to_update 5 m))) = [].
Proof.
  cbv zeta.
  assert (Hwf : wf (mgr_mark_update "u" 1
                      (mgr_mark_update "u" 0 (new_manager 2 60)))).
  { split.
    - vm_compute. repeat constructor. intros [].
    - intros u t Hin. vm_compute in Hin. destruct Hin as [E|[]].
      injection E as <- <-. vm_compute.
      repeat split; intros; discriminate. }
  split; [exact Hwf|]. split; [reflexivity|].
  exact (drained_until_marked 5 1000 _ Hwf).
Defined.

Lemma due_stays_due_witness :
  let m := mgr_mark_update "u" 0 (new_manager 5 60) in
  60 <= 61 /\
  In "u"%string (fst (get_users_to_update 60 m)) /\
  In "u"%string (fst (get_users_to_update 61 m)).
Proof.
  cbv zeta. split; [discriminate|]. split; [left; reflexivity|].
  apply (due_stays_due 60 61); [discriminate|left; reflexivity].
Defined.

End TrackerExtra.

(* ===================================================================== *)
(** * Further properties of [range_filter]                                *)
(* ===================================================================== *)

Module RangeFilterExtra.
Import RangeFilter RangeFilterFacts.

Unset Implicit Arguments.

Local Open Scope float_scope.

(** A C library whose root is never negative. *)
Definition libm_abs_sqrt (x : float) : float :=
  PrimFloat.abs (PrimFloat.sqrt x).

(** X11.  [range_filter] raises [TypeError] exactly when the radicand
    [(sq - s * s / d) / d] of some prefix of the scores, as rounded by
    the float operations of the source, is negative and finite; the
    thresholds and the C library play no part in it. *)
Theorem range_filter_raises_iff :
  forall (libm_pow : float -> float) (A : Type) (arr : list (float * A))
         (max_range max_std : float),
    range_filter libm_pow arr max_range max_std = RaisesTypeError <->
    exists n : nat,
      (1 <= n <= length arr)%nat /\
      negative (radicand_of (map fst arr) n) = true.
Proof.
  intros libm_pow A arr max_range max_std.
  rewrite <- (length_map fst arr), <- (take_of_None libm_pow _ max_std).
  unfold range_filter. destruct arr as [|[s0 x0] rest].
  - cbn. split; discriminate.
  - destruct (take_of _ _ _); split; congruence.
Qed.

(** X12.  Whenever [range_filter] returns, it returns items of its
    input, in the input's order and without repetition, for every input
    (sorted or not), all thresholds and every C library. *)
Theorem range_filter_subseq :
  forall (libm_pow : float -> float) (A : Type) (arr : list (float * A))
         (max_range max_std : float) (l : list A),
    range_filter libm_pow arr max_range max_std = Returns l ->
    subseq l (map snd arr).
Proof.
  intros libm_pow A arr max_range max_std l. unfold range_filter.
  destruct arr as [|[s0 x0] rest] eqn:E.
  - intros [= <-]. apply subseq_nil.
  - rewrite <- E. destruct (take_of _ _ _) as [take|]; [|discriminate].
    intros [= <-]. rewrite combine_fst_snd.
    apply subseq_map, subseq_filter_all.
Qed.

Lemma range_filter_subseq_witness :
  range_filter PrimFloat.sqrt eight_scores 3 1.0625
  = Returns [1; 2; 3; 4]%nat /\
  subseq [1; 2; 3; 4]%nat (map snd eight_scores).
Proof.
  assert (H : range_filter PrimFloat.sqrt eight_scores 3 1.0625
              = Returns [1; 2; 3; 4]%nat) by (vm_compute; reflexivity).
  split; [exact H|].
  exact (range_filter_subseq PrimFloat.sqrt nat eight_scores 3 1.0625
           [1; 2; 3; 4]%nat H).
Defined.

(** X13.  With [max_std <= 0], and a C library whose roots are not
    negative, no prefix passes the gate of the standard deviation:
    [range_filter] returns the empty list, or raises [TypeError], for
    every input and every [max_range]. *)
Theorem range_filter_no_std :
  forall (libm_pow : float -> float) (A : Type) (arr : list (float * A))
         (max_range max_std : float),
    (max_std <=? 0) = true ->
    (forall x : float, (libm_pow x <? 0) = false) ->
    range_filter libm_pow arr max_range max_std = Returns [] \/
    range_filter libm_pow arr max_range max_std = RaisesTypeError.
Proof.
  intros libm_pow A arr max_range max_std Hms Hlib. unfold range_filter.
  destruct arr as [|[s0 x0] rest] eqn:E; [now left|]. rewrite <- E.
  destruct (take_of _ _ _) as [take|] eqn:T; [left|now right].
  apply (take_of_no_std libm_pow _ max_std take Hms Hlib) in T.
  subst take. reflexivity.
Qed.

(** X14.  With [max_range = 0] nothing is kept of a list no score of
    which is above the first, a list in descending order in particular:
    not even the first item is strictly above the first score minus
    [max_range].  [range_filter] returns the empty list, or raises
    [TypeError], for every [max_std] and every C library. *)
Theorem range_filter_no_range :
  forall (libm_pow : float -> float) (A : Type) (s0 : float) (x0 : A)
         (rest : list (float * A)) (max_std : float),
    (forall f : float, In f (map fst rest) -> (s0 <? f) = false) ->
    range_filter libm_pow ((s0, x0) :: rest) 0 max_std = Returns [] \/
    range_filter libm_pow ((s0, x0) :: rest) 0 max_std = RaisesTypeError.
Proof.
  intros libm_pow A s0 x0 rest max_std Htop. unfold range_filter.
  destruct (take_of _ _ _) as [take|]; [left|now right].
  rewrite combine_fst_snd, filter_nothing; [reflexivity|].
  intros [f v] Hin. apply In_firstn_all in Hin. cbn [fst].
  rewrite sub_zero_ltb. destruct Hin as [E|Hin].
  - injection E as <- _. apply ltb_irrefl.
  - apply Htop. apply in_map_iff. now exists (f, v).
Qed.

Lemma range_filter_no_range_witness :
  range_filter PrimFloat.sqrt eight_scores 0 1.0625 = Returns [] \/
  range_filter PrimFloat.sqrt eight_scores 0 1.0625 = RaisesTypeError.
Proof.
  apply (range_filter_no_range PrimFloat.sqrt nat 4 1%nat
           (tl eight_scores) 1.0625).
  intros f Hin. cbn in Hin.
  repeat (destruct Hin as [<-|Hin]; [reflexivity|]). destruct Hin.
Defined.

Lemma range_filter_no_std_witness :
  range_filter libm_abs_sqrt eight_scores 3 0 = Returns [] \/
  range_filter libm_abs_sqrt eight_scores 3 0 = RaisesTypeError.
Proof.
  apply (range_filter_no_std libm_abs_sqrt nat eight_scores 3 0).
  - reflexivity.
  - intros x. apply abs_nonneg.
Defined.

End RangeFilterExtra.

(* ===================================================================== *)
(** * Grouping of the pending messages by isolation                       *)
(* ===================================================================== *)

Module GroupingExtra.
Import Json Storage ProfileMemory.

Unset Implicit Arguments.

(** The text of the isolations column shared by the rows of a group. *)
Definition group_text (g : list HistoryRow) : string :=
  match g with
  | [] => EmptyString
  | r :: _ => isolations_text r
  end.

(** ** The quoted text determines the text *)

Definition unhex (c : ascii) : nat :=
  let n := nat_of_ascii c in if Nat.ltb n 58 then n - 48 else n - 87.

(** The character an escape [\d] other than [\u] stands for. *)
Definition unescape_char (d : ascii) : ascii :=
  let m := nat_of_ascii d in
  if Nat.eqb m 110 then ascii_of_nat 10
  else if Nat.eqb m 114 then ascii_of_nat 13
  else if Nat.eqb m 116 then ascii_of_nat 9
  else if Nat.eqb m 98 then ascii_of_nat 8
  else if Nat.eqb m 102 then ascii_of_nat 12
  else d.

(** A decoder of [escape]. *)
Fixpoint unescape (s : string) : string :=
  match s with
  | EmptyString => EmptyString
  | String c t =>
      if Nat.eqb (nat_of_ascii c) 92 then
        match t with
        | EmptyString => EmptyString
        | String d t' =>
            if Nat.eqb (nat_of_ascii d) 117 then
              match t' with
              | String _ (String _ (String a (String b t''))) =>
                  String (ascii_of_nat (16 * unhex a + unhex b))
                         (unescape t'')
              | _ => EmptyString
              end
            else String (unescape_char d) (unescape t')
        end
      else String c (unescape t)
  end.

Lemma unescape_escape_char (c : ascii) (rest : string) :
  unescape (escape_char c ++ rest) = String c (unescape rest).
Proof.
  destruct c as [[] [] [] [] [] [] [] []]; reflexivity.
Qed.

Lemma string_app_assoc (a b c : string) : ((a ++ b) ++ c = a ++ (b ++ c))%string.
Proof. induction a as [|x a IH]; cbn; [reflexivity|now rewrite IH]. Qed.

Lemma unescape_escape (s rest : string) :
  unescape (escape s ++ rest) = (s ++ unescape rest)%string.
Proof.
  induction s as [|c s IH]; [reflexivity|].
  cbn [escape]. rewrite string_app_assoc, unescape_escape_char, IH.
  reflexivity.
Qed.

Lemma string_app_length (a b : string) :
  String.length (a ++ b) = (String.length a + String.length b)%nat.
Proof. induction a as [|x a IH]; cbn; [reflexivity|now rewrite IH]. Qed.

Lemma string_app_inv_tail (a b c : string) :
  (a ++ c = b ++ c)%string -> a = b.
Proof.
  revert b. induction a as [|x a IH]; intros [|y b] H.
  - reflexivity.
  - apply (f_equal String.length) in H.
    rewrite (string_app_length (String y b) c) in H. cbn in H. lia.
  - apply (f_equal String.length) in H.
    rewrite (string_app_length (String x a) c) in H. cbn in H. lia.
  - cbn in H. injection H as -> H. f_equal. now apply IH.
Qed.

Lemma dumps_str_inj (a b : string) : dumps_str a = dumps_str b -> a = b.
Proof.
  unfold dumps_str, quote. cbn [append]. intros H. injection H as H.
  apply (f_equal unescape) in H. rewrite !unescape_escape in H.
  now apply string_app_inv_tail in H.
Qed.

Lemma key_fn_eqb (r1 r2 : HistoryRow) :
  String.eqb (key_fn r1) (key_fn r2)
  = String.eqb (isolations_text r1) (isolations_text r2).
Proof.
  unfold key_fn.
  destruct (String.eqb_spec (isolations_text r1) (isolations_text r2))
    as [->|Hne].
  - apply String.eqb_refl.
  - apply String.eqb_neq. intros H. apply Hne. now apply dumps_str_inj.
Qed.

Section Grouping.

Variable A : Type.
Variable key : A -> string.

Definition gkey (g : list A) : string :=
  match g with
  | [] => EmptyString
  | x :: _ => key x
  end.

Abbreviation has k := (fun x : A => String.eqb (key x) k).
Abbreviation le := (fun x y : A => String.leb (key x) (key y) = true).

Lemma leb_antisym (a b : string) :
  String.leb a b = true -> String.leb b a = true -> a = b.
Proof.
  unfold String.leb. rewrite (String.compare_antisym b a).
  destruct (String.compare a b) eqn:E; cbn [CompOpp]; try discriminate.
  intros _ _. now apply String.compare_eq_iff.
Qed.

Lemma leb_total (a b : string) :
  String.leb a b = false -> String.leb b a = true.
Proof.
  unfold String.leb. rewrite (String.compare_antisym b a).
  now destruct (String.compare a b).
Qed.

(** [sorted] is a stable sort. *)
Lemma insert_by_perm (x : A) (l : list A) :
  Permutation (insert_by key x l) (x :: l).
Proof.
  induction l as [|y t IH]; cbn [insert_by]; [reflexivity|].
  destruct (String.leb (key x) (key y)); [reflexivity|].
  rewrite IH. apply perm_swap.
Qed.

Lemma sorted_by_perm (l : list A) : Permutation (sorted_by key l) l.
Proof.
  induction l as [|x l IH]; [reflexivity|].
  unfold sorted_by. cbn [fold_right]. fold (sorted_by key l).
  rewrite insert_by_perm. now constructor.
Qed.

Lemma insert_by_sorted (x : A) (l : list A) :
  StronglySorted le l -> StronglySorted le (insert_by key x l).
Proof.
  induction 1 as [|y t Hs IH Hall]; cbn [insert_by].
  - repeat constructor.
  - destruct (String.leb (key x) (key y)) eqn:E.
    + constructor; [now constructor|].
      constructor; [exact E|]. rewrite Forall_forall in *.
      intros z Hz. eapply JsonFacts.leb_trans; [exact E|now apply Hall].
    + constructor; [exact IH|]. rewrite Forall_forall in *.
      intros z Hz. apply (Permutation_in _ (insert_by_perm x t)) in Hz.
      destruct Hz as [<-|Hz]; [now apply leb_total|now apply Hall].
Qed.

Lemma sorted_by_sorted (l : list A) : StronglySorted le (sorted_by key l).
Proof.
  induction l as [|x l IH]; [constructor|].
  unfold sorted_by. cbn [fold_right]. now apply insert_by_sorted.
Qed.

Lemma insert_by_filter (k : string) (x : A) (l : list A) :
  filter (has k) (insert_by key x l) = filter (has k) (x :: l).
Proof.
  induction l as [|y t IH]; cbn [insert_by]; [reflexivity|].
  destruct (String.leb (key x) (key y)) eqn:E; [reflexivity|].
  cbn [filter] in *. rewrite IH.
  destruct (String.eqb_spec (key x) k) as [Ex|]; [|reflexivity].
  destruct (String.eqb_spec (key y) k) as [Ey|]; [|reflexivity].
  rewrite <- Ex in Ey. rewrite Ey, JsonFacts.leb_refl in E. discriminate.
Qed.

Lemma sorted_by_filter (k : string) (l : list A) :
  filter (has k) (sorted_by key l) = filter (has k) l.
Proof.
  induction l as [|x l IH]; [reflexivity|].
  unfold sorted_by. cbn [fold_right]. fold (sorted_by key l).
  rewrite insert_by_filter. cbn [filter]. now rewrite IH.
Qed.

Lemma filter_none (k : string) (l : list A) :
  (forall z, In z l -> key z <> k) -> filter (has k) l = [].
Proof.
  induction l as [|y t IH]; intros H; [reflexivity|]. cbn [filter].
  destruct (String.eqb_spec (key y) k) as [E|_].
  - exfalso. now apply (H y (or_introl eq_refl)).
  - apply IH. intros z Hz. apply H. now right.
Qed.

(** What [groupby] yields on a list sorted by the key. *)
Definition grouped (l : list A) (gs : list (list A)) : Prop :=
  (forall g, In g gs -> g <> [] /\ g = filter (has (gkey g)) l) /\
  NoDup (map gkey gs) /\
  concat gs = l.

Lemma In_filter_key (k : string) (z : A) (l : list A) :
  In z (filter (has k) l) -> In z l /\ key z = k.
Proof.
  rewrite filter_In. intros [H E]. split; [exact H|].
  now apply String.eqb_eq.
Qed.

Lemma groupby_sorted (l : list A) :
  StronglySorted le l -> grouped l (groupby key l).
Proof.
  induction 1 as [|x t Hs IH Hall].
  - split; [intros g []|]. split; [constructor|reflexivity].
  - destruct IH as (Hg & Hnd & Hcat). rewrite Forall_forall in Hall.
    assert (Hkeys : forall g, In g (groupby key t) ->
                    exists z, In z t /\ key z = gkey g).
    { intros g Hin. destruct (Hg g Hin) as [Hne Hf].
      destruct g as [|z g']; [congruence|]. exists z. cbn [gkey].
      assert (Hz : In z (filter (has (key z)) t)).
      { cbn [gkey] in Hf. rewrite <- Hf. now left. }
      apply In_filter_key in Hz. tauto. }
    cbn [groupby]. destruct (groupby key t) as [|[|y g0] gs] eqn:G.
    + assert (t = []) by (now rewrite <- Hcat). subst t.
      split; [|split; [repeat constructor; intros []|reflexivity]].
      intros g [<-|[]]. split; [discriminate|]. cbn [gkey filter].
      now rewrite String.eqb_refl.
    + exfalso. destruct (Hg [] (or_introl eq_refl)) as [Hne _]. congruence.
    + assert (Ht : exists t', t = y :: t').
      { rewrite <- Hcat. cbn [concat app]. eauto. }
      destruct Ht as [t' ->].
      destruct (String.eqb_spec (key x) (key y)) as [E|Hne].
      * split; [|split].
        -- intros g [<-|Hin].
           ++ split; [discriminate|]. cbn [gkey].
              destruct (Hg (y :: g0) (or_introl eq_refl)) as [_ Hf].
              cbn [gkey] in Hf. rewrite E.
              change (filter (has (key y)) (x :: y :: t'))
                with (if String.eqb (key x) (key y)
                      then x :: filter (has (key y)) (y :: t')
                      else filter (has (key y)) (y :: t')).
              rewrite E, String.eqb_refl, <- Hf. reflexivity.
           ++ destruct (Hg g (or_intror Hin)) as [Hne Hf].
              split; [exact Hne|].
              change (filter (has (gkey g)) (x :: y :: t'))
                with (if String.eqb (key x) (gkey g)
                      then x :: filter (has (gkey g)) (y :: t')
                      else filter (has (gkey g)) (y :: t')).
              destruct (String.eqb_spec (key x) (gkey g)) as [E'|_];
                [|exact Hf].
              exfalso. cbn [map gkey] in Hnd.
              apply NoDup_cons_iff in Hnd. apply (proj1 Hnd).
              rewrite <- E, E'. now apply in_map.
        -- cbn [map gkey] in *. now rewrite E.
        -- cbn [concat app] in *. now rewrite <- Hcat.
      * assert (Hfresh : forall z, In z (y :: t') -> key z <> key x).
        { intros z Hz Ez. apply Hne. apply leb_antisym.
          - apply Hall. now left.
          - rewrite <- Ez. apply StronglySorted_inv in Hs.
            destruct Hs as [_ Hy]. rewrite Forall_forall in Hy.
            destruct Hz as [<-|Hz]; [apply JsonFacts.leb_refl|now apply Hy]. }
        split; [|split].
        -- intros g [<-|Hin].
           ++ split; [discriminate|]. cbn [gkey].
              change (filter (has (key x)) (x :: y :: t'))
                with (if String.eqb (key x) (key x)
                      then x :: filter (has (key x)) (y :: t')
                      else filter (has (key x)) (y :: t')).
              rewrite String.eqb_refl, filter_none; [reflexivity|exact Hfresh].
           ++ destruct (Hg g Hin) as [Hne' Hf]. split; [exact Hne'|].
              change (filter (has (gkey g)) (x :: y :: t'))
                with (if String.eqb (key x) (gkey g)
                      then x :: filter (has (gkey g)) (y :: t')
                      else filter (has (gkey g)) (y :: t')).
              destruct (String.eqb_spec (key x) (gkey g)) as [E'|_];
                [|exact Hf].
              exfalso. destruct (Hkeys g Hin) as (z & Hz & Ez).
              apply (Hfresh z Hz). congruence.
        -- change (NoDup (key x :: map gkey ((y :: g0) :: gs))).
           constructor; [|exact Hnd].
           intros Hin. apply in_map_iff in Hin.
           destruct Hin as (g & Eg & Hin).
           destruct (Hkeys g Hin) as (z & Hz & Ez).
           apply (Hfresh z Hz). congruence.
        -- cbn [concat app] in *. now rewrite <- Hcat.
Qed.

(** [groupby(sorted(l, key), key)]: one group per key, holding the
    elements of that key in the order of [l]. *)
Lemma groupby_sorted_by (l : list A) :
  let gs := groupby key (sorted_by key l) in
  (forall g, In g gs -> g <> [] /\ g = filter (has (gkey g)) l) /\
  (forall x, In x l -> exists g, In g gs /\ In x g) /\
  NoDup (map gkey gs).
Proof.
  intros gs.
  destruct (groupby_sorted _ (sorted_by_sorted l)) as (Hg & Hnd & Hcat).
  fold gs in Hg, Hnd, Hcat. split; [|split; [|exact Hnd]].
  - intros g Hin. destruct (Hg g Hin) as [Hne Hf]. split; [exact Hne|].
    now rewrite <- sorted_by_filter.
  - intros x Hx.
    apply (Permutation_in _ (Permutation_sym (sorted_by_perm l))) in Hx.
    rewrite <- Hcat in Hx. apply in_concat in Hx.
    destruct Hx as (g & Hg' & Hx). eauto.
Qed.

End Grouping.

Lemma NoDup_map_finer {A B C : Type} (f : A -> B) (g : A -> C)
  (l : list A) :
  (forall x y, In x l -> In y l -> g x = g y -> f x = f y) ->
  NoDup (map f l) -> NoDup (map g l).
Proof.
  induction l as [|x l IH]; intros Hfg Hnd; cbn [map]; [constructor|].
  cbn [map] in Hnd. inversion Hnd as [|? ? Hx Hl]; subst.
  constructor.
  - intros Hin. apply Hx. apply in_map_iff in Hin.
    destruct Hin as (y & Hy & Hyl). apply in_map_iff. exists y.
    split; [|exact Hyl].
    apply Hfg; [now right|now left|exact Hy].
  - apply IH; [|exact Hl]. intros a b Ha Hb. apply Hfg; now right.
Qed.

Section Rows.

Variable Emb : Type.

Lemma groups_of_rows (rows : list HistoryRow) :
  let groups := groupby key_fn (sorted_by key_fn rows) in
  (forall g, In g groups ->
     g <> [] /\
     g = filter (fun r => String.eqb (isolations_text r) (group_text g))
                rows) /\
  (forall r, In r rows -> exists g, In g groups /\ In r g) /\
  NoDup (map group_text groups).
Proof.
  intros groups.
  destruct (groupby_sorted_by HistoryRow key_fn rows) as (Hg & Hall & Hnd).
  fold groups in Hg, Hall, Hnd. split; [|split; [exact Hall|]].
  - intros g Hin. destruct (Hg g Hin) as [Hne Hf]. split; [exact Hne|].
    rewrite Hf at 1. destruct g as [|r0 g]; [congruence|].
    apply filter_ext. intros r. cbn [gkey group_text]. apply key_fn_eqb.
  - apply (NoDup_map_finer (gkey HistoryRow key_fn)); [|exact Hnd].
    intros x y Hx Hy. destruct (Hg x Hx) as [Hnx _].
    destruct (Hg y Hy) as [Hny _].
    destruct x as [|rx x]; [congruence|]. destruct y as [|ry y]; [congruence|].
    cbn [gkey group_text]. unfold key_fn. now intros ->.
Qed.

(** X16.  [_get_isolation_grouped_memories] splits the pending rows of a
    user into one group per text of the isolations column: no group is
    empty, a group holds exactly the pending rows with its text, in the
    order the storage returned them, every pending row is in a group, and
    no two groups share a text.  The state is left as it was. *)
Theorem grouped_by_isolation (user_id : string) (s : PM Emb) :
  let rows := get_history_messages_by_ingestion_status
                user_id 100 false (profile_storage s) in
  exists groups,
    get_isolation_grouped_memories user_id s = (Ok groups, s) /\
    (forall g, In g groups ->
       g <> [] /\
       g = filter (fun r => String.eqb (isolations_text r) (group_text g))
                  rows) /\
    (forall r, In r rows -> exists g, In g groups /\ In r g) /\
    NoDup (map group_text groups).
Proof.
  intros rows. exists (groupby key_fn (sorted_by key_fn rows)).
  split; [reflexivity|]. apply groups_of_rows.
Qed.


End Rows.

(** Three messages of one user wait for ingestion; the first and the last
    carry the same isolation, written in two orders. *)
Definition three_pending : PM unit :=
  snd ((add_persona_message "one" None (Some Scenario.iso_gs) "u" 0 ;;;
        add_persona_message "two" None (Some Scenario.iso_s1) "u" 1 ;;;
        add_persona_message "three" None (Some Scenario.iso_sg) "u" 2)
         Scenario.fresh).

Definition row (id : Z) (content : string) (iso : isolations) : HistoryRow :=
  mkRow id "u" content [] iso false.



End GroupingExtra.

(* ===================================================================== *)
(** * What the methods of the facade leave alone                          *)
(* ===================================================================== *)

Module EffectExtra.
Import Json Storage ProfileMemory.

Unset Implicit Arguments.

Section Effects.

Variable Emb : Type.
Variable ingest_embed : string -> Emb.
Variable generate_response : nat -> request Emb -> llm_result.
Variable parse_update : string -> option json.
Variable parse_consolidation : string -> option json.

Abbreviation think :=
  (update_user_profile_think ingest_embed generate_response parse_update
                             parse_consolidation).
Abbreviation dedup :=
  (deduplicate_profile ingest_embed generate_response parse_consolidation).
Abbreviation process :=
  (process_messages ingest_embed generate_response parse_update
                    parse_consolidation).
Abbreviation process_user :=
  (process_uningested_memories ingest_embed generate_response parse_update
                               parse_consolidation).
Abbreviation tick :=
  (ingestion_tick ingest_embed generate_response parse_update
                  parse_consolidation).

(** ** A relation between the state before and after a method *)

Section Keeps.

Variable R : PM Emb -> PM Emb -> Prop.
Hypothesis R_refl : forall s, R s s.
Hypothesis R_trans : forall a b c, R a b -> R b c -> R a c.

Definition keeps {A : Type} (m : M Emb A) : Prop :=
  forall s, R s (snd (m s)).

Lemma keeps_ret {A : Type} (a : A) : keeps (ret a).
Proof. intros s. apply R_refl. Qed.

Lemma keeps_raise {A : Type} (e : exn) : keeps (@raise Emb A e).
Proof. intros s. apply R_refl. Qed.

Lemma keeps_bind {A B : Type} (m : M Emb A) (k : A -> M Emb B) :
  keeps m -> (forall a, keeps (k a)) -> keeps (bind m k).
Proof.
  intros Hm Hk s. unfold bind. specialize (Hm s).
  destruct (m s) as [[a|e] s1]; cbn [snd] in *; [|exact Hm].
  eapply R_trans; [exact Hm|apply Hk].
Qed.

Lemma keeps_for_each {A : Type} (l : list A) (body : A -> M Emb unit) :
  (forall x, keeps (body x)) -> keeps (for_each l body).
Proof.
  intros Hb. induction l as [|x l IH]; cbn [for_each].
  - apply keeps_ret.
  - apply keeps_bind; [apply Hb|intros _; exact IH].
Qed.

Lemma keeps_for_each_in {A : Type} (l : list A) (body : A -> M Emb unit) :
  (forall x, In x l -> keeps (body x)) -> keeps (for_each l body).
Proof.
  induction l as [|x l IH]; intros Hb; cbn [for_each].
  - apply keeps_ret.
  - apply keeps_bind; [apply Hb; now left|].
    intros _. apply IH. intros y Hy. apply Hb. now right.
Qed.

Lemma keeps_gather_in {A : Type} (l : list A) (body : A -> M Emb unit) :
  (forall x, In x l -> keeps (body x)) -> keeps (gather l body).
Proof.
  induction l as [|x l IH]; intros Hb; cbn [gather].
  - apply keeps_ret.
  - intros s. pose proof (Hb x (or_introl eq_refl) s) as Hx.
    assert (Hl : keeps (gather l body))
      by (apply IH; intros y Hy; apply Hb; now right).
    destruct (body x s) as [[a|e] s1]; cbn [snd] in *;
      (eapply R_trans; [exact Hx|apply Hl]).
Qed.

Lemma keeps_gather {A : Type} (l : list A) (body : A -> M Emb unit) :
  (forall x, keeps (body x)) -> keeps (gather l body).
Proof. intros Hb. apply keeps_gather_in. intros x _. apply Hb. Qed.

(** The answer carries the two think tags. *)
Lemma keeps_think_tags (text : string) :
  keeps (if nonempty (think_json text)
         then @raise Emb unit OtherError else ret tt).
Proof. destruct (nonempty _); [apply keeps_raise|apply keeps_ret]. Qed.

(** The steps the update and the consolidation are made of: reading the
    profile through the cache, dropping a cache key, asking the model,
    and the three writes to the table of profile entries. *)
Hypothesis R_read : forall u iso, keeps (get_user_profile u iso).
Hypothesis R_erase : forall k, keeps (@cache_erase Emb k).
Hypothesis R_llm : forall r, keeps (call_llm generate_response r).
Hypothesis R_add : forall u f v t e md iso cs,
  keeps (storage_do (add_profile_feature u f v t e md iso cs)).
Hypothesis R_delete : forall u f t v iso,
  keeps (storage_do (@delete_profile_feature Emb u f t v iso)).
Hypothesis R_delete_id : forall id,
  keeps (storage_do (@delete_profile_feature_by_id Emb id)).

Lemma keeps_add_new_profile u f v t md iso cs :
  keeps (add_new_profile ingest_embed u f v t md iso cs).
Proof.
  unfold add_new_profile. cbv zeta.
  apply keeps_bind; [apply R_erase|intros _; apply R_add].
Qed.

Lemma keeps_delete_user_profile_feature u f t v iso :
  keeps (@delete_user_profile_feature Emb u f t v iso).
Proof.
  unfold delete_user_profile_feature. cbv zeta.
  apply keeps_bind; [apply R_erase|intros _; apply R_delete].
Qed.

Lemma keeps_consolidate_one u memory :
  keeps (consolidate_one ingest_embed u memory).
Proof.
  unfold consolidate_one. destruct (validate_memory memory) as [cm|].
  - intros s. apply keeps_add_new_profile.
  - apply keeps_ret.
Qed.

Lemma keeps_delete_unkept u keep memory :
  keeps (@delete_unkept Emb u keep memory).
Proof.
  unfold delete_unkept.
  destruct (negb (existsb (Z.eqb (pe_id memory)) keep)).
  - apply keeps_bind; [apply R_erase|intros _; apply R_delete_id].
  - apply keeps_ret.
Qed.

Lemma keeps_dedup_parsed u memories j :
  keeps (dedup_parsed ingest_embed u memories j).
Proof.
  unfold dedup_parsed. destruct j; try apply keeps_ret. cbv zeta.
  destruct (match PyDict.get "consolidate_memories" _ with
            | Some v => v | None => JList [] end);
    destruct (match PyDict.get "keep_memories" _ with
              | Some v => v | None => JList [] end);
    (apply keeps_bind;
     [ match goal with
       | |- keeps (if ?b then _ else _) =>
           destruct b;
           [apply keeps_for_each; intros x; apply keeps_delete_unkept
           |apply keeps_ret]
       end
     | intros _; apply keeps_for_each; intros x;
       apply keeps_consolidate_one ]).
Qed.

Lemma keeps_dedup u memories : keeps (dedup u memories).
Proof.
  unfold deduplicate_profile.
  apply keeps_bind; [apply R_llm|intros [text|e]].
  - destruct (has_think_tags text); [apply keeps_think_tags|].
    destruct (parse_consolidation text) as [j|];
      [apply keeps_dedup_parsed|apply keeps_ret].
  - destruct (caught e); [apply keeps_ret|apply keeps_raise].
Qed.

Lemma keeps_apply_command u cid iso c :
  keeps (@apply_command Emb ingest_embed u cid iso c).
Proof.
  assert (Hr : keeps (cache_erase (cache_key_of u iso) ;;;
                      @raise Emb unit OtherError))
    by (apply keeps_bind; [apply R_erase|intros _; apply keeps_raise]).
  unfold apply_command. destruct c; try apply keeps_raise.
  destruct (PyDict.get "command" _) as [cmd|]; [|apply keeps_raise].
  destruct (eq_str cmd "add").
  - destruct (PyDict.get "feature" _) as [f|]; [|apply keeps_raise].
    destruct (PyDict.get "value" _) as [v|]; [|apply keeps_raise].
    destruct (PyDict.get "tag" _) as [t|]; [|apply keeps_raise].
    destruct (text_field f); [|exact Hr].
    destruct (text_field v); [|exact Hr].
    destruct (text_field t); [|exact Hr].
    apply keeps_add_new_profile.
  - destruct (eq_str cmd "delete"); [|apply keeps_raise]. cbv zeta.
    destruct (PyDict.get "feature" _) as [f|]; [|apply keeps_raise].
    destruct (PyDict.get "tag" _) as [t|]; [|apply keeps_raise].
    destruct (text_field f); [|exact Hr].
    destruct (text_field t); [|exact Hr].
    destruct (PyDict.get "value" _) as [[]|];
      try exact Hr; apply keeps_delete_user_profile_feature.
Qed.

Lemma keeps_think record wait : keeps (think record wait).
Proof.
  unfold update_user_profile_think. cbv zeta.
  apply keeps_bind; [apply R_read|intros profile].
  apply keeps_bind; [apply R_llm|intros [text|e]].
  - destruct (has_think_tags text); [apply keeps_think_tags|].
    destruct (parse_update text) as [[]|]; try apply keeps_ret.
    apply keeps_bind.
    + apply keeps_for_each. intros c. apply keeps_apply_command.
    + intros _. destruct wait; [|apply keeps_ret].
      intros s. apply keeps_gather. intros x. apply keeps_dedup.
  - destruct (caught e); [apply keeps_ret|apply keeps_raise].
Qed.

Lemma keeps_process_loop messages :
  keeps (process_loop ingest_embed generate_response parse_update
                      parse_consolidation messages).
Proof.
  induction messages as [|m rest IH]; [apply keeps_ret|].
  cbn [process_loop]. destruct rest as [|m' rest'].
  - apply keeps_think.
  - apply keeps_bind; [apply keeps_think|intros _; exact IH].
Qed.

End Keeps.

(** ** The profile update writes profile entries and nothing else *)

(** The calls that write the table of profile entries. *)
Definition feature_write (c : @call) : bool :=
  match c with
  | CAddFeature _ _ _ _ _ _ | CDeleteFeature _ _ _ _ _ | CDeleteById _ => true
  | _ => false
  end.

(** From [s] to [s'] the storage received only writes of profile entries,
    the message history is the same, and so is the tracker. *)
Definition quiet (s s' : PM Emb) : Prop :=
  history (profile_storage s') = history (profile_storage s) /\
  dirty_users s' = dirty_users s /\
  exists l, calls (profile_storage s') = (calls (profile_storage s) ++ l)%list
            /\ forallb feature_write l = true.

Lemma quiet_refl (s : PM Emb) : quiet s s.
Proof.
  split; [reflexivity|]. split; [reflexivity|].
  exists []. now rewrite app_nil_r.
Qed.

Lemma quiet_trans (a b c : PM Emb) : quiet a b -> quiet b c -> quiet a c.
Proof.
  intros (H1 & D1 & l1 & C1 & F1) (H2 & D2 & l2 & C2 & F2).
  split; [congruence|]. split; [congruence|].
  exists (l1 ++ l2)%list. rewrite C2, C1, app_assoc. split; [reflexivity|].
  now rewrite forallb_app, F1, F2.
Qed.

Lemma quiet_same_storage (s s' : PM Emb) :
  profile_storage s' = profile_storage s -> dirty_users s' = dirty_users s ->
  quiet s s'.
Proof.
  intros Hs Hd. unfold quiet. rewrite Hs. split; [reflexivity|].
  split; [exact Hd|]. exists []. now rewrite app_nil_r.
Qed.

Lemma quiet_read u iso : keeps quiet (@get_user_profile Emb u iso).
Proof.
  intros s. unfold get_user_profile. cbv zeta.
  destruct (LRU.get _ _ _) as [[profile|] cache]; cbn [snd];
    now apply quiet_same_storage.
Qed.

Lemma quiet_erase k : keeps quiet (@cache_erase Emb k).
Proof. intros s. now apply quiet_same_storage. Qed.

Lemma quiet_llm r : keeps quiet (call_llm generate_response r).
Proof. intros s. now apply quiet_same_storage. Qed.

Lemma quiet_write (f : Storage.Storage Emb -> Storage.Storage Emb) (c : call) :
  feature_write c = true ->
  (forall st, history (f st) = history st /\
              calls (f st) = (calls st ++ [c])%list) ->
  keeps quiet (storage_do f).
Proof.
  intros Hc Hf s. destruct (Hf (profile_storage s)) as [Hh Hcalls].
  unfold storage_do. cbn [snd]. split; [exact Hh|]. split; [reflexivity|].
  exists [c]. split; [exact Hcalls|]. cbn [forallb]. now rewrite Hc.
Qed.

Lemma quiet_add u f v t e md iso cs :
  keeps quiet (storage_do (@add_profile_feature Emb u f v t e md iso cs)).
Proof.
  apply (quiet_write _ (CAddFeature u f v t iso cs)); [reflexivity|].
  intros st. unfold add_profile_feature. cbv zeta.
  destruct (existsb _ _); split; reflexivity.
Qed.

Lemma quiet_delete u f t v iso :
  keeps quiet (storage_do (@delete_profile_feature Emb u f t v iso)).
Proof.
  apply (quiet_write _ (CDeleteFeature u f t v iso)); [reflexivity|].
  intros st. split; reflexivity.
Qed.

Lemma quiet_delete_id id :
  keeps quiet (storage_do (@delete_profile_feature_by_id Emb id)).
Proof.
  apply (quiet_write _ (CDeleteById id)); [reflexivity|].
  intros st. split; reflexivity.
Qed.

Lemma quiet_think record wait : keeps quiet (think record wait).
Proof.
  apply (keeps_think quiet quiet_refl quiet_trans quiet_read quiet_erase
           quiet_llm quiet_add quiet_delete quiet_delete_id).
Qed.

Lemma quiet_process_loop messages :
  keeps quiet (process_loop ingest_embed generate_response parse_update
                            parse_consolidation messages).
Proof.
  apply (keeps_process_loop quiet quiet_refl quiet_trans quiet_read
           quiet_erase quiet_llm quiet_add quiet_delete quiet_delete_id).
Qed.

(** X18.  Updating the profile from one message, consolidation included,
    reaches the storage only through writes of profile entries
    ([add_profile_feature], [delete_profile_feature],
    [delete_profile_feature_by_id]): whatever the model answers, and
    whether the method returns or raises, it adds no message, marks none
    as ingested and leaves the update trackers alone. *)
Theorem think_writes_only_entries
  (record : HistoryRow) (wait_consolidate : bool) (s : PM Emb) :
  let s' := snd (think record wait_consolidate s) in
  history (profile_storage s') = history (profile_storage s) /\
  dirty_users s' = dirty_users s /\
  exists l, calls (profile_storage s') = (calls (profile_storage s) ++ l)%list
            /\ forallb feature_write l = true.
Proof. apply quiet_think. Qed.

(** X19.  A batch that fails marks nothing: when an error escapes from the
    update of any message of a batch, no [mark_messages_ingested] call is
    made for any message of the batch, the ones already processed
    included, so the whole batch is still pending. *)
Theorem failed_batch_marks_nothing
  (messages : list HistoryRow) (s s' : PM Emb) (e : exn) :
  process messages s = (Raise unit e, s') ->
  history (profile_storage s') = history (profile_storage s) /\
  exists l, calls (profile_storage s') = (calls (profile_storage s) ++ l)%list
            /\ forallb feature_write l = true.
Proof.
  intros H. unfold process_messages in H.
  destruct messages as [|m rest]; [discriminate|].
  unfold bind in H.
  pose proof (quiet_process_loop (m :: rest) s) as Hq.
  destruct (process_loop _ _ _ _ (m :: rest) s) as [[[]|e1] s1] eqn:L.
  - destruct (IngestionFacts.marks_ok Emb (m :: rest) s1) as (s2 & E2 & _).
    rewrite E2 in H. discriminate.
  - injection H as _ <-. cbn [snd] in Hq.
    destruct Hq as (Hh & _ & Hc). split; assumption.
Qed.

(** ** The cache stays well formed *)

(** The public calls of the facade, and one round of the background
    task; each with the reading of the clock where the code reads it. *)
Inductive facade_call : Type :=
| GetUserProfile (user_id : string) (iso : option isolations)
| DeleteUserProfile (user_id : string) (iso : option isolations)
| AddNewProfile (user_id feature value tag : string)
                (metadata : option (PyDict.dict string))
                (iso : option isolations) (citations : option (list Z))
| DeleteUserProfileFeature (user_id feature tag : string)
                           (value : option string) (iso : option isolations)
| AddPersonaMessage (content : string)
                    (metadata : option (PyDict.dict string))
                    (iso : option isolations) (user_id : string) (now : Q)
| IngestionTick (now : Q).

Definition exec (s : PM Emb) (c : facade_call) : PM Emb :=
  match c with
  | GetUserProfile u iso => snd (get_user_profile u iso s)
  | DeleteUserProfile u iso => snd (delete_user_profile u iso s)
  | AddNewProfile u f v t md iso cs =>
      snd (add_new_profile ingest_embed u f v t md iso cs s)
  | DeleteUserProfileFeature u f t v iso =>
      snd (delete_user_profile_feature u f t v iso s)
  | AddPersonaMessage c md iso u now =>
      snd (add_persona_message c md iso u now s)
  | IngestionTick now => snd (tick now s)
  end.

Abbreviation cache_wf c := (LRUExtra.wf cache_key (list (ProfileEntry Emb)) c).

Definition cache_kept (s s' : PM Emb) : Prop :=
  cache_wf (profile_cache s) ->
  cache_wf (profile_cache s') /\
  LRU.capacity (profile_cache s') = LRU.capacity (profile_cache s).

Lemma cache_kept_refl (s : PM Emb) : cache_kept s s.
Proof. intros H. now split. Qed.

Lemma cache_kept_trans (a b c : PM Emb) :
  cache_kept a b -> cache_kept b c -> cache_kept a c.
Proof.
  intros Hab Hbc Ha. destruct (Hab Ha) as [Hb Eb].
  destruct (Hbc Hb) as [Hc Ec]. split; [exact Hc|congruence].
Qed.

Lemma cache_kept_same (s s' : PM Emb) :
  profile_cache s' = profile_cache s -> cache_kept s s'.
Proof. intros E H. rewrite E. now split. Qed.

Lemma cache_kept_read u iso : keeps cache_kept (@get_user_profile Emb u iso).
Proof.
  intros s Hwf. unfold get_user_profile. cbv zeta.
  pose proof (LRUExtra.wf_get _ _ cache_key_eq_dec
                (cache_key_of u (or_empty iso)) _ Hwf) as [Hg Eg].
  destruct (LRU.get _ _ _) as [[profile|] cache];
    cbn [snd profile_cache with_cache] in *.
  - now split.
  - destruct (LRUExtra.wf_put _ _ cache_key_eq_dec
                (cache_key_of u (or_empty iso))
                (get_profile u (or_empty iso) (profile_storage s))
                cache Hg) as [Hp Ep].
    split; [exact Hp|congruence].
Qed.

Lemma cache_kept_erase k : keeps cache_kept (@cache_erase Emb k).
Proof.
  intros s Hwf. unfold cache_erase. cbn [snd profile_cache with_cache].
  now apply LRUExtra.wf_erase.
Qed.

Lemma cache_kept_llm r : keeps cache_kept (call_llm generate_response r).
Proof. intros s. now apply cache_kept_same. Qed.

Lemma cache_kept_storage_do f : keeps cache_kept (@storage_do Emb f).
Proof. intros s. now apply cache_kept_same. Qed.

Lemma cache_kept_think record wait : keeps cache_kept (think record wait).
Proof.
  apply (keeps_think cache_kept cache_kept_refl cache_kept_trans
           cache_kept_read cache_kept_erase cache_kept_llm);
    intros; apply cache_kept_storage_do.
Qed.

Lemma cache_kept_process messages : keeps cache_kept (process messages).
Proof.
  unfold process_messages. destruct messages as [|m rest].
  - apply keeps_ret, cache_kept_refl.
  - apply (keeps_bind _ cache_kept_trans).
    + apply (keeps_process_loop cache_kept cache_kept_refl cache_kept_trans
               cache_kept_read cache_kept_erase cache_kept_llm);
        intros; apply cache_kept_storage_do.
    + intros _. apply (keeps_gather _ cache_kept_refl cache_kept_trans).
      intros x. apply cache_kept_storage_do.
Qed.

Lemma cache_kept_process_user u : keeps cache_kept (process_user u).
Proof.
  unfold process_uningested_memories.
  apply (keeps_bind _ cache_kept_trans).
  - intros s. now apply cache_kept_same.
  - intros groups. apply (keeps_gather _ cache_kept_refl cache_kept_trans).
    apply cache_kept_process.
Qed.

Lemma cache_kept_exec (c : facade_call) (s : PM Emb) :
  cache_kept s (exec s c).
Proof.
  destruct c; cbn [exec].
  - apply cache_kept_read.
  - unfold delete_user_profile. cbv zeta.
    apply (keeps_bind _ cache_kept_trans);
      [apply cache_kept_erase|intros _; apply cache_kept_storage_do].
  - apply (keeps_add_new_profile cache_kept cache_kept_trans
             cache_kept_erase).
    intros; apply cache_kept_storage_do.
  - apply (keeps_delete_user_profile_feature cache_kept cache_kept_trans
             cache_kept_erase).
    intros; apply cache_kept_storage_do.
  - unfold add_persona_message. cbv zeta.
    apply (keeps_bind _ cache_kept_trans);
      [apply cache_kept_storage_do|].
    intros _ s'. now apply cache_kept_same.
  - unfold ingestion_tick.
    destruct (Tracker.get_users_to_update now (dirty_users s)) as [dirty mgr].
    apply (cache_kept_trans _ (with_dirty mgr s));
      [now apply cache_kept_same|].
    apply (keeps_gather _ cache_kept_refl cache_kept_trans).
    apply cache_kept_process_user.
Qed.

(** X20.  Every public call of the facade and every round of the
    background task keeps the profile cache well formed: no key is held
    twice, the cache holds at most [capacity] profiles, and the capacity
    stays the one the cache was built with. *)
Theorem cache_stays_well_formed (calls : list facade_call) (s : PM Emb) :
  cache_wf (profile_cache s) ->
  cache_wf (profile_cache (fold_left exec calls s)) /\
  LRU.capacity (profile_cache (fold_left exec calls s))
  = LRU.capacity (profile_cache s).
Proof.
  revert s. induction calls as [|c calls IH]; intros s Hwf; [now split|].
  cbn [fold_left]. destruct (cache_kept_exec c s Hwf) as [H1 E1].
  destruct (IH _ H1) as [H2 E2]. split; [exact H2|congruence].
Qed.

(** ** The calls a method sends to the storage *)

Section Logged.

Variable P : @call -> Prop.

(** From [s] to [s'] the storage received some calls, all of them [P]. *)
Definition logged (s s' : PM Emb) : Prop :=
  exists l, calls (profile_storage s') = (calls (profile_storage s) ++ l)%list
            /\ Forall P l.

Lemma logged_refl (s : PM Emb) : logged s s.
Proof. exists []. now rewrite app_nil_r. Qed.

Lemma logged_trans (a b c : PM Emb) : logged a b -> logged b c -> logged a c.
Proof.
  intros (l1 & C1 & F1) (l2 & C2 & F2). exists (l1 ++ l2)%list.
  rewrite C2, C1, app_assoc. split; [reflexivity|].
  apply Forall_app. now split.
Qed.

Lemma logged_same (s s' : PM Emb) :
  profile_storage s' = profile_storage s -> logged s s'.
Proof. intros E. exists []. now rewrite E, app_nil_r. Qed.


Lemma logged_erase k : keeps logged (@cache_erase Emb k).
Proof. intros s. now apply logged_same. Qed.


Lemma logged_write (f : Storage.Storage Emb -> Storage.Storage Emb)
  (c : call) :
  P c -> (forall st, calls (f st) = (calls st ++ [c])%list) ->
  keeps logged (storage_do f).
Proof.
  intros Hc Hf s. exists [c]. split; [apply Hf|]. now constructor.
Qed.

Lemma logged_add u f v t e md iso cs :
  P (CAddFeature u f v t iso cs) ->
  keeps logged (storage_do (@add_profile_feature Emb u f v t e md iso cs)).
Proof.
  intros Hc. apply (logged_write _ _ Hc). intros st.
  unfold add_profile_feature. cbv zeta. now destruct (existsb _ _).
Qed.

Lemma logged_add_new_profile u f v t md iso cs :
  P (CAddFeature u f v t (or_empty iso)
                 (match cs with Some c => c | None => [] end)) ->
  keeps logged (add_new_profile ingest_embed u f v t md iso cs).
Proof.
  intros Hc. unfold add_new_profile. cbv zeta.
  apply (keeps_bind _ logged_trans); [apply logged_erase|].
  intros _. now apply logged_add.
Qed.


End Logged.

(** ** A write is seen by the next read *)

Lemma read_miss (u : string) (iso : option isolations) (s : PM Emb) :
  LRU.lookup cache_key_eq_dec (cache_key_of u (or_empty iso))
             (profile_cache s) = None ->
  fst (get_user_profile u iso s)
  = Ok (get_profile u (or_empty iso) (profile_storage s)).
Proof.
  intros L. unfold get_user_profile, LRU.get. now rewrite L.
Qed.

(** X21.  A write through the facade is seen by the next read under the
    same isolation dictionary: after [add_new_profile],
    [delete_user_profile_feature] or [delete_user_profile] for
    [(user_id, isolations)], [get_user_profile(user_id, isolations)]
    returns what the storage now holds, not a cached copy. *)
Theorem read_after_write
  (u : string) (iso : option isolations) (s : PM Emb) :
  NoDup (LRU.resident (profile_cache s)) ->
  let fresh_read s' :=
    fst (get_user_profile u iso s')
    = Ok (get_profile u (or_empty iso) (profile_storage s')) in
  (forall f v t md cs,
     fresh_read (snd (add_new_profile ingest_embed u f v t md iso cs s))) /\
  (forall f t v,
     fresh_read (snd (delete_user_profile_feature u f t v iso s))) /\
  fresh_read (snd (delete_user_profile u iso s)).
Proof.
  intros Hnd fresh_read.
  destruct (CacheFacts.facade_write_erases Emb ingest_embed u iso s Hnd)
    as (Ha & Hd & Hp).
  split; [|split]; intros; apply read_miss; auto.
Qed.

(** An answer the update cannot read: it carries the two think tags
    and nothing after the last closing tag; or it carries no such tags
    and the extraction gives up, or yields a JSON value that is not an
    object. *)
Definition unreadable (text : string) : Prop :=
  if has_think_tags text then think_json text = EmptyString
  else forall d, parse_update text <> Some (JDict d).

Lemma think_after_llm
  (record : HistoryRow) (wait_consolidate : bool) (s : PM Emb)
  (text : string) :
  generate_response (llm_calls s) (update_request record s)
  = Response text ->
  exists s1,
    profile_storage s1 = profile_storage s /\
    dirty_users s1 = dirty_users s /\
    llm_calls s1 = S (llm_calls s) /\
    think record wait_consolidate s
    = (if has_think_tags text then
         if nonempty (think_json text) then raise OtherError else ret tt
       else
         match parse_update text with
         | None => ret tt
         | Some (JDict profile_update_commands) =>
             for_each (filter valid_command (map snd profile_update_commands))
               (apply_command ingest_embed (h_user record) (h_id record)
                              (h_isolations record)) ;;;
             if wait_consolidate then
               fun s =>
                 gather (get_large_profile_sections
                           (h_user record) 5 (h_isolations record)
                           (profile_storage s))
                        (dedup (h_user record)) s
             else ret tt
         | Some _ => ret tt
         end) s1.
Proof.
  intros Hllm.
  unfold update_user_profile_think, update_request in *.
  destruct (IngestionFacts.get_user_profile_ok Emb (h_user record)
              (Some (h_isolations record)) s)
    as (profile & s1 & E & Hst & Hd & Hn).
  unfold bind at 1. rewrite E in *. cbn [fst] in Hllm.
  unfold bind at 1. unfold call_llm at 1. rewrite Hn, Hllm.
  eexists. split; [|split; [|split; [|reflexivity]]];
    cbn [profile_storage dirty_users llm_calls]; congruence.
Qed.

(** X22.  An answer that cannot be read changes nothing: when the answer
    carries the think tags and no text after them, or carries no tags
    and the extraction gives up on it or yields a JSON value that is not
    an object, the method returns normally with the storage and the
    trackers as they were, and the consolidation step is not reached
    even for the last message of a batch. *)
Theorem unreadable_answer_discarded
  (record : HistoryRow) (wait_consolidate : bool) (s : PM Emb)
  (text : string) :
  generate_response (llm_calls s) (update_request record s)
  = Response text ->
  unreadable text ->
  exists s',
    think record wait_consolidate s = (Ok tt, s') /\
    profile_storage s' = profile_storage s /\
    dirty_users s' = dirty_users s /\
    llm_calls s' = S (llm_calls s).
Proof.
  intros Hllm Hun.
  destruct (think_after_llm record wait_consolidate s text Hllm)
    as (s1 & Hst & Hd & Hn & ->).
  exists s1. split; [|now repeat split]. unfold unreadable in Hun.
  destruct (has_think_tags text).
  - now rewrite Hun.
  - destruct (parse_update text) as [[]|] eqn:Pj; try reflexivity.
    exfalso. now apply (Hun d).
Qed.

(** X15.  An answer with the think tags and any text after the last
    closing tag, the usual place of the JSON document, is never read:
    the clean-up of the text uses the name [re], which the method binds
    in the other branch only, and the method raises; the storage and
    the trackers are as they were. *)
Theorem tagged_answer_raises
  (record : HistoryRow) (wait_consolidate : bool) (s : PM Emb)
  (text : string) :
  generate_response (llm_calls s) (update_request record s)
  = Response text ->
  has_think_tags text = true ->
  think_json text <> EmptyString ->
  exists s',
    think record wait_consolidate s = (Raise unit OtherError, s') /\
    profile_storage s' = profile_storage s /\
    dirty_users s' = dirty_users s /\
    llm_calls s' = S (llm_calls s).
Proof.
  intros Hllm Htags Htail.
  destruct (think_after_llm record wait_consolidate s text Hllm)
    as (s1 & Hst & Hd & Hn & ->).
  exists s1. split; [|now repeat split]. rewrite Htags.
  destruct (think_json text); [congruence|reflexivity].
Qed.

(** ** Where the commands of a message go *)










(** ** What a consolidation may delete *)

(** A call of the consolidation of [memories] under [user_id], decoded
    answer [j]: an added entry belongs to [user_id]; a deleted entry is
    one of [memories] and not among the integers of ['keep_memories']. *)
Definition consolidation_call (user_id : string)
  (memories : list (ProfileEntry Emb)) (j : json) (c : @call) : Prop :=
  match c with
  | CAddFeature u _ _ _ _ _ => u = user_id
  | CDeleteById pid =>
      In pid (map (@pe_id Emb) memories) /\
      forall d keep,
        j = JDict d ->
        PyDict.get "keep_memories" d = Some (JList keep) ->
        ~ In pid (valid_keep keep)
  | _ => False
  end.

Lemma confined_consolidate_one u memories j memory :
  keeps (logged (consolidation_call u memories j))
        (consolidate_one ingest_embed u memory).
Proof.
  unfold consolidate_one. destruct (validate_memory memory) as [cm|].
  - intros s. apply logged_add_new_profile. reflexivity.
  - apply keeps_ret, logged_refl.
Qed.

Lemma confined_dedup_parsed u memories j :
  keeps (logged (consolidation_call u memories j))
        (dedup_parsed ingest_embed u memories j).
Proof.
  set (P := consolidation_call u memories j).
  assert (Hadd : forall l, keeps (logged P)
                   (for_each l (consolidate_one ingest_embed u))).
  { intros l. apply (keeps_for_each _ (logged_refl P) (logged_trans P)).
    intros x. apply confined_consolidate_one. }
  unfold dedup_parsed. destruct j as [| | | | | |d] eqn:Ej;
    try apply keeps_ret, logged_refl.
  cbv zeta. unfold PyDict.contains.
  destruct (PyDict.get "keep_memories" d) as [kj|] eqn:Gk.
  - destruct (match PyDict.get "consolidate_memories" d with
              | Some v => v | None => JList [] end) as [| | | | |cl|];
      destruct kj as [| | | | |keep|];
      apply (keeps_bind _ (logged_trans P));
      try (apply keeps_ret, logged_refl); try (intros _; apply Hadd).
    cbn [negb].
    apply (keeps_for_each_in _ (logged_refl P) (logged_trans P)).
    intros m Hm. unfold delete_unkept.
    destruct (existsb (Z.eqb (pe_id m)) (valid_keep keep)) eqn:Ex;
      cbn [negb]; [apply keeps_ret, logged_refl|].
    apply (keeps_bind _ (logged_trans P)); [apply logged_erase|].
    intros _. apply (logged_write P _ (CDeleteById (pe_id m)));
      [|reflexivity].
    split; [now apply in_map|].
    intros d' keep' Ed Gk' Hin. injection Ed as <-.
    rewrite Gk in Gk'. injection Gk' as <-.
    assert (Hex : existsb (Z.eqb (pe_id m)) (valid_keep keep) = true).
    { apply existsb_exists. exists (pe_id m). split; [exact Hin|].
      apply Z.eqb_refl. }
    congruence.
  - destruct (match PyDict.get "consolidate_memories" d with
              | Some v => v | None => JList [] end);
      apply (keeps_bind _ (logged_trans P));
      try (apply keeps_ret, logged_refl); intros _; apply Hadd.
Qed.

(** X24.  A consolidation is confined to the section it was given:
    whatever the model answers, the only entries it deletes are entries
    of that section that the answer does not list under
    ['keep_memories'], the only entries it adds belong to the same user,
    and it sends the storage no other write. *)
Theorem consolidation_confined
  (user_id : string) (memories : list (ProfileEntry Emb)) (s : PM Emb) :
  let s' := snd (dedup user_id memories s) in
  let answer :=
    match generate_response (llm_calls s) (ConsolidationRequest memories) with
    | Response text => match parse_consolidation text with
                       | Some j => j
                       | None => JNull
                       end
    | Raises _ => JNull
    end in
  exists l,
    calls (profile_storage s') = (calls (profile_storage s) ++ l)%list /\
    Forall (consolidation_call user_id memories answer) l.
Proof.
  cbv zeta. unfold deduplicate_profile, bind at 1, call_llm at 1.
  destruct (generate_response (llm_calls s) (ConsolidationRequest memories))
    as [text|e].
  - destruct (has_think_tags text).
    { exists []. destruct (nonempty _); cbn; now rewrite app_nil_r. }
    destruct (parse_consolidation text) as [j|].
    + destruct (confined_dedup_parsed user_id memories j
                  (mkPM (profile_cache s) (profile_storage s) (dirty_users s)
                        (max_cache_size s) (S (llm_calls s))))
        as (l & Hl & HP).
      exists l. split; assumption.
    + exists []. cbn. now rewrite app_nil_r.
  - exists []. destruct (caught e); cbn; now rewrite app_nil_r.
Qed.

(** X25.  A consolidation that gets no usable answer changes nothing:
    when the model fails with one of the caught errors, or its answer
    carries the think tags and no text after them, or carries no tags
    and cannot be decoded or decodes to something that is not an object,
    the method returns normally and neither the storage nor the cache is
    touched. *)
Theorem consolidation_without_answer
  (user_id : string) (memories : list (ProfileEntry Emb)) (s : PM Emb) :
  match generate_response (llm_calls s) (ConsolidationRequest memories) with
  | Response text =>
      if has_think_tags text then think_json text = EmptyString
      else forall d, parse_consolidation text <> Some (JDict d)
  | Raises e => caught e = true
  end ->
  exists s',
    dedup user_id memories s = (Ok tt, s') /\
    profile_storage s' = profile_storage s /\
    profile_cache s' = profile_cache s /\
    dirty_users s' = dirty_users s.
Proof.
  intros H. unfold deduplicate_profile, bind at 1, call_llm at 1.
  destruct (generate_response (llm_calls s) (ConsolidationRequest memories))
    as [text|e].
  - destruct (has_think_tags text).
    { rewrite H. eexists. split; [reflexivity|]. now repeat split. }
    destruct (parse_consolidation text) as [j|] eqn:Pj.
    + destruct j; try (eexists; split; [reflexivity|]; now repeat split).
      exfalso. now apply (H d).
    + eexists. split; [reflexivity|]. now repeat split.
  - rewrite H. eexists. split; [reflexivity|]. now repeat split.
Qed.

(** X27.  A consolidation whose answer carries the think tags and any
    text after the last closing tag raises, for the same unbound name
    [re], and deletes and adds nothing: the section stays as large as it
    was, and the error leaves through the update of the last message of
    the batch. *)
Theorem tagged_consolidation_raises
  (user_id : string) (memories : list (ProfileEntry Emb)) (s : PM Emb)
  (text : string) :
  generate_response (llm_calls s) (ConsolidationRequest memories)
  = Response text ->
  has_think_tags text = true ->
  think_json text <> EmptyString ->
  exists s',
    dedup user_id memories s = (Raise unit OtherError, s') /\
    profile_storage s' = profile_storage s /\
    profile_cache s' = profile_cache s /\
    dirty_users s' = dirty_users s.
Proof.
  intros Hllm Htags Htail.
  unfold deduplicate_profile, bind at 1, call_llm at 1.
  rewrite Hllm, Htags.
  destruct (think_json text); [congruence|].
  eexists. split; [reflexivity|]. now repeat split.
Qed.

(** ** A round of ingestion for one user *)

Abbreviation ingested := (IngestionFacts.ingested Emb).

Lemma process_keeps_ingested (messages : list HistoryRow) (s s' : PM Emb) :
  process messages s = (Ok tt, s') ->
  forall id, ingested id (profile_storage s) ->
             ingested id (profile_storage s').
Proof.
  intros H. unfold process_messages in H.
  destruct messages as [|m rest]; [now injection H as <-|].
  unfold bind in H.
  pose proof (quiet_process_loop (m :: rest) s) as (Hh & _).
  destruct (process_loop _ _ _ _ (m :: rest) s) as [[[]|e1] s1] eqn:L;
    [|discriminate].
  cbn [snd] in Hh.
  destruct (IngestionFacts.marks_ok Emb (m :: rest) s1)
    as (s2 & E2 & _ & Hkeep & _).
  rewrite E2 in H. injection H as <-. intros id Hid. apply Hkeep.
  unfold IngestionFacts.ingested in *. now rewrite Hh.
Qed.

Lemma groups_ingested (groups : list (list HistoryRow)) :
  forall s s' : PM Emb,
  gather groups process s = (Ok tt, s') ->
  (forall id, ingested id (profile_storage s) ->
              ingested id (profile_storage s')) /\
  (forall g m, In g groups -> In m g ->
               ingested (h_id m) (profile_storage s')).
Proof.
  induction groups as [|g groups IH]; intros s s' H.
  - injection H as <-. split; [auto|intros g m []].
  - cbn [gather] in H.
    destruct (process g s) as [[[]|e] s1] eqn:Eg; [|discriminate].
    destruct (IH s1 s' H) as [Hkeep Hall]. split.
    + intros id Hid. apply Hkeep.
      now apply (process_keeps_ingested g s s1 Eg).
    + intros g' m [<-|Hg] Hm.
      * apply Hkeep.
        now apply (IngestionFacts.process_messages_marks Emb ingest_embed
                     generate_response parse_update parse_consolidation
                     g s s1 Eg).
      * now apply (Hall g' m).
Qed.

(** X26.  A round that succeeds leaves nothing behind: when
    [_process_uningested_memories(user_id)] returns normally, every
    pending row it fetched for the user (the oldest hundred) has been
    marked as ingested, in whichever isolation group it was processed, so
    no later fetch of pending rows returns it. *)
Theorem successful_round_ingests_all
  (user_id : string) (s s' : PM Emb) (r : HistoryRow) :
  process_user user_id s = (Ok tt, s') ->
  In r (get_history_messages_by_ingestion_status user_id 100 false
          (profile_storage s)) ->
  forall user k h,
    In h (get_history_messages_by_ingestion_status user k false
            (profile_storage s')) ->
    h_id h <> h_id r.
Proof.
  intros H Hr user k h Hh.
  unfold process_uningested_memories, bind at 1,
    get_isolation_grouped_memories in H.
  destruct (groups_ingested _ s s' H) as [_ Hall].
  destruct (GroupingExtra.groups_of_rows
              (get_history_messages_by_ingestion_status user_id 100 false
                 (profile_storage s))) as (_ & Hcover & _).
  destruct (Hcover r Hr) as (g & Hg & Hin).
  apply (IngestionFacts.pending_not_ingested Emb (profile_storage s')
           user k h (h_id r)); [|exact Hh].
  now apply (Hall g r).
Qed.





End Effects.

(** ** Instances *)

(** A model that answers its first call and fails, with an error the
    module does not catch, from the second call on. *)
Definition flaky (n : nat) (_ : request unit) : llm_result :=
  match n with
  | O => Response ""
  | S _ => Raises OtherError
  end.

(** Two messages of one user wait for ingestion under one isolation. *)
Definition two_pending : PM unit :=
  snd ((add_persona_message "I like dogs" None (Some Scenario.iso_gs) "u" 0 ;;;
        add_persona_message "I like cats" None (Some Scenario.iso_gs) "u" 1)
         Scenario.fresh).

Definition batch : list HistoryRow :=
  get_history_messages_by_ingestion_status "u" 100 false
    (profile_storage two_pending).

Lemma failed_batch_marks_nothing_witness :
  let out := process_messages Scenario.embed flaky
               (Scenario.parse_as Scenario.add_dogs) Scenario.no_parse
               batch two_pending in
  fst out = Raise unit OtherError /\
  map (@pe_value unit) (features (profile_storage (snd out)))
  = ["dogs"%string] /\
  map h_ingested (history (profile_storage (snd out))) = [false; false] /\
  history (profile_storage (snd out)) = history (profile_storage two_pending)
  /\
  exists l,
    calls (profile_storage (snd out))
    = (calls (profile_storage two_pending) ++ l)%list /\
    forallb feature_write l = true.
Proof.
  cbv zeta. split; [by_eval|]. split; [by_eval|]. split; [by_eval|].
  apply (failed_batch_marks_nothing unit Scenario.embed flaky
           (Scenario.parse_as Scenario.add_dogs) Scenario.no_parse
           batch two_pending _ OtherError).
  by_eval.
Defined.

Lemma cache_stays_well_formed_witness :
  let calls :=
    [AddPersonaMessage "I like dogs" None (Some Scenario.iso_gs) "u" 0;
     GetUserProfile "u" (Some Scenario.iso_gs);
     AddNewProfile "u" "likes" "cats" "pets" None (Some Scenario.iso_gs) None;
     IngestionTick 200;
     GetUserProfile "u" None] in
  let run := fold_left
               (exec unit Scenario.embed (Scenario.constant_model "")
                     (Scenario.parse_as Scenario.add_dogs) Scenario.no_parse)
               calls Scenario.fresh in
  LRUExtra.wf _ _ (profile_cache Scenario.fresh) /\
  LRUExtra.wf _ _ (profile_cache run) /\
  LRU.capacity (profile_cache run) = 1000%Z.
Proof.
  cbv zeta.
  assert (H : LRUExtra.wf cache_key (list (ProfileEntry unit))
                (profile_cache Scenario.fresh)).
  { split; [constructor|]. split; vm_compute; [reflexivity|discriminate]. }
  split; [exact H|].
  exact (cache_stays_well_formed unit Scenario.embed
           (Scenario.constant_model "")
           (Scenario.parse_as Scenario.add_dogs) Scenario.no_parse
           _ Scenario.fresh H).
Defined.

Lemma read_after_write_witness :
  let s := Scenario.five_entries_cached in
  let s' := snd (add_new_profile Scenario.embed Scenario.user "likes" "f"
                                 "pets" None None None s) in
  NoDup (LRU.resident (profile_cache s)) /\
  length (LRU.resident (profile_cache s)) = 1%nat /\
  fst (get_user_profile Scenario.user None s')
  = Ok (get_profile Scenario.user [] (profile_storage s')).
Proof.
  cbv zeta.
  assert (H : NoDup (LRU.resident (profile_cache Scenario.five_entries_cached))).
  { vm_compute. repeat constructor. intros []. }
  split; [exact H|]. split; [reflexivity|].
  exact (proj1 (read_after_write unit Scenario.embed Scenario.user None
                  Scenario.five_entries_cached H)
           "likes" "f" "pets" None None)%string.
Defined.

Lemma unreadable_answer_discarded_witness :
  let record := mkRow 1 Scenario.user "I like dogs" []
                      [("g"%string, SStr "G")] false in
  let text := "<think>nothing to add</think>"%string in
  Scenario.constant_model text
    (llm_calls Scenario.one_message)
    (update_request record Scenario.one_message)
  = Response text /\
  unreadable (Scenario.parse_as Scenario.add_dogs) text /\
  exists s',
    update_user_profile_think Scenario.embed
      (Scenario.constant_model text) (Scenario.parse_as Scenario.add_dogs)
      Scenario.no_parse record true Scenario.one_message = (Ok tt, s') /\
    profile_storage s' = profile_storage Scenario.one_message /\
    dirty_users s' = dirty_users Scenario.one_message /\
    llm_calls s' = S (llm_calls Scenario.one_message).
Proof.
  cbv zeta. split; [reflexivity|]. split; [reflexivity|].
  apply (unreadable_answer_discarded unit Scenario.embed
           (Scenario.constant_model "<think>nothing to add</think>")
           (Scenario.parse_as Scenario.add_dogs)
           Scenario.no_parse _ true Scenario.one_message
           "<think>nothing to add</think>");
    reflexivity.
Defined.

Lemma tagged_answer_raises_witness :
  let record := mkRow 1 Scenario.user "I like dogs" []
                      [("g"%string, SStr "G")] false in
  let text := "<think>a dog person</think>{}"%string in
  has_think_tags text = true /\
  think_json text = "{}"%string /\
  exists s',
    update_user_profile_think Scenario.embed
      (Scenario.constant_model text) (Scenario.parse_as Scenario.add_dogs)
      Scenario.no_parse record true Scenario.one_message
    = (Raise unit OtherError, s') /\
    profile_storage s' = profile_storage Scenario.one_message /\
    dirty_users s' = dirty_users Scenario.one_message /\
    llm_calls s' = S (llm_calls Scenario.one_message).
Proof.
  cbv zeta. split; [reflexivity|]. split; [reflexivity|].
  apply (tagged_answer_raises unit Scenario.embed
           (Scenario.constant_model "<think>a dog person</think>{}")
           (Scenario.parse_as Scenario.add_dogs)
           Scenario.no_parse _ true Scenario.one_message
           "<think>a dog person</think>{}");
    [reflexivity|reflexivity|vm_compute; discriminate].
Defined.


Lemma consolidation_without_answer_witness :
  caught ExternalServiceAPIError = true /\
  exists s',
    deduplicate_profile Scenario.embed Scenario.failing_model
      Scenario.no_parse Scenario.user Scenario.section
      Scenario.five_entries_cached = (Ok tt, s') /\
    profile_storage s' = profile_storage Scenario.five_entries_cached /\
    profile_cache s' = profile_cache Scenario.five_entries_cached /\
    dirty_users s' = dirty_users Scenario.five_entries_cached.
Proof.
  split; [reflexivity|].
  apply (consolidation_without_answer unit Scenario.embed
           Scenario.failing_model Scenario.no_parse Scenario.user
           Scenario.section Scenario.five_entries_cached).
  reflexivity.
Defined.

Lemma tagged_consolidation_raises_witness :
  let text := "<think>all the same</think>{}"%string in
  has_think_tags text = true /\
  think_json text = "{}"%string /\
  exists s',
    deduplicate_profile Scenario.embed (Scenario.constant_model text)
      (Scenario.parse_as Scenario.response_drop_all) Scenario.user
      Scenario.section Scenario.five_entries_cached
    = (Raise unit OtherError, s') /\
    profile_storage s' = profile_storage Scenario.five_entries_cached /\
    profile_cache s' = profile_cache Scenario.five_entries_cached /\
    dirty_users s' = dirty_users Scenario.five_entries_cached.
Proof.
  cbv zeta. split; [reflexivity|]. split; [reflexivity|].
  apply (tagged_consolidation_raises unit Scenario.embed
           (Scenario.constant_model "<think>all the same</think>{}")
           (Scenario.parse_as Scenario.response_drop_all) Scenario.user
           Scenario.section Scenario.five_entries_cached
           "<think>all the same</think>{}");
    [reflexivity|reflexivity|vm_compute; discriminate].
Defined.



Lemma successful_round_ingests_all_witness :
  let out := process_uningested_memories Scenario.embed
               (Scenario.constant_model "")
               (Scenario.parse_as Scenario.add_dogs) Scenario.no_parse
               "u" GroupingExtra.three_pending in
  let r := GroupingExtra.row 2 "two" Scenario.iso_s1 in
  fst out = Ok tt /\
  In r (get_history_messages_by_ingestion_status "u" 100 false
          (profile_storage GroupingExtra.three_pending)) /\
  forall user k h,
    In h (get_history_messages_by_ingestion_status user k false
            (profile_storage (snd out))) ->
    h_id h <> h_id r.
Proof.
  cbv zeta. split; [by_eval|].
  assert (H : In (GroupingExtra.row 2 "two" Scenario.iso_s1)
                (get_history_messages_by_ingestion_status "u" 100 false
                   (profile_storage GroupingExtra.three_pending))).
  { vm_compute. tauto. }
  split; [exact H|].
  apply (successful_round_ingests_all unit Scenario.embed
           (Scenario.constant_model "")
           (Scenario.parse_as Scenario.add_dogs) Scenario.no_parse
           "u" GroupingExtra.three_pending _ _); [by_eval|exact H].
Defined.

End EffectExtra.

(* ===================================================================== *)
(** * The fallback decoding of a malformed answer                         *)
(* ===================================================================== *)

Module FallbackExtra.
Import Json Fallback.

Unset Implicit Arguments.

Local Open Scope string_scope.

(** ** Texts *)

Lemma append_assoc (a b c : string) : (a ++ b) ++ c = a ++ (b ++ c).
Proof. induction a as [|x a IH]; cbn [append]; [reflexivity|now rewrite IH]. Qed.

Lemma append_nil_r (a : string) : a ++ "" = a.
Proof. induction a as [|x a IH]; cbn [append]; [reflexivity|now rewrite IH]. Qed.

Lemma add_char_app (a : string) (c : ascii) (t : string) :
  add_char a c ++ t = a ++ String c t.
Proof. unfold add_char. now rewrite append_assoc. Qed.

(** ** Keys of the merged document *)

Definition underscore : ascii := ascii_of_nat 95.

(** No character of the text is an underscore. *)
Fixpoint no_underscore (s : string) : bool :=
  match s with
  | EmptyString => true
  | String c t => negb (Ascii.eqb c underscore) && no_underscore t
  end.

Lemma digits_no_underscore (d : Decimal.uint) :
  no_underscore (DecimalString.NilEmpty.string_of_uint d) = true.
Proof. induction d; cbn; auto. Qed.

Lemma str_of_nat_no_underscore (i : nat) : no_underscore (str_of_nat i) = true.
Proof.
  unfold str_of_nat, DecimalString.NilZero.string_of_uint.
  destruct (Nat.to_uint i); try reflexivity; apply digits_no_underscore.
Qed.

Lemma to_uint_nonnil (i : nat) : Nat.to_uint i <> Decimal.Nil.
Proof.
  rewrite <- (DecimalNat.Unsigned.of_to i) at 1.
  rewrite DecimalNat.Unsigned.to_of. unfold Decimal.unorm.
  destruct (Decimal.nzhead (Nat.to_uint i)); discriminate.
Qed.

Lemma str_of_nat_inj (i j : nat) : str_of_nat i = str_of_nat j -> i = j.
Proof.
  unfold str_of_nat. intros E.
  apply DecimalNat.Unsigned.to_uint_inj.
  pose proof (DecimalString.NilZero.usu _ (to_uint_nonnil i)) as Hi.
  pose proof (DecimalString.NilZero.usu _ (to_uint_nonnil j)) as Hj.
  rewrite E in Hi. rewrite Hi in Hj. now injection Hj.
Qed.

(** A text is split in one way only at its first underscore. *)
Lemma split_at_underscore (a b x y : string) :
  no_underscore a = true -> no_underscore b = true ->
  a ++ String underscore x = b ++ String underscore y ->
  a = b /\ x = y.
Proof.
  revert b. induction a as [|c a IH]; intros [|c' b] Ha Hb E;
    cbn [append no_underscore] in *.
  - injection E as ->. now split.
  - injection E as E _. rewrite <- E in Hb.
    rewrite Ascii.eqb_refl in Hb. discriminate.
  - injection E as E _. rewrite E in Ha.
    rewrite Ascii.eqb_refl in Ha. discriminate.
  - injection E as -> E.
    apply andb_prop in Ha, Hb. destruct Ha as [_ Ha], Hb as [_ Hb].
    destruct (IH b Ha Hb E) as [-> ->]. now split.
Qed.

Lemma prefixed_inj (i j : nat) (k k' : string) :
  prefixed i k = prefixed j k' -> i = j /\ k = k'.
Proof.
  unfold prefixed. intros E.
  destruct (split_at_underscore (str_of_nat i) (str_of_nat j) k k'
              (str_of_nat_no_underscore i) (str_of_nat_no_underscore j) E)
    as [Hij Hk].
  split; [now apply str_of_nat_inj|exact Hk].
Qed.

(** The entries of object number [i], renamed. *)
Definition renamed (iobj : nat * json) : PyDict.dict json :=
  match snd iobj with
  | JDict obj => map (fun kv => (prefixed (fst iobj) (fst kv), snd kv)) obj
  | _ => []
  end.

Lemma set_fresh (V : Type) (k : string) (v : V) (d : PyDict.dict V) :
  ~ In k (PyDict.keys d) -> PyDict.set k v d = (d ++ [(k, v)])%list.
Proof.
  induction d as [|[k' v'] d IH]; intros Hk; [reflexivity|].
  cbn [PyDict.set app]. cbn [PyDict.keys map fst In] in Hk.
  destruct (String.eqb_spec k' k) as [E|_]; [tauto|].
  f_equal. apply IH. unfold PyDict.keys. tauto.
Qed.

Lemma merge_items (i : nat) (obj : PyDict.dict json) :
  forall acc : PyDict.dict json,
  NoDup (PyDict.keys obj) ->
  (forall k, In k (PyDict.keys obj) ->
             ~ In (prefixed i k) (PyDict.keys acc)) ->
  fold_left (fun acc kv => PyDict.set (prefixed i (fst kv)) (snd kv) acc)
            obj acc
  = (acc ++ map (fun kv => (prefixed i (fst kv), snd kv)) obj)%list.
Proof.
  induction obj as [|[k v] obj IH]; intros acc Hnd Hun.
  - cbn. now rewrite app_nil_r.
  - cbn [fold_left map fst snd]. cbn [PyDict.keys map fst] in Hnd, Hun.
    apply NoDup_cons_iff in Hnd. destruct Hnd as [Hk Hnd].
    rewrite set_fresh by (apply Hun; now left). rewrite IH.
    + now rewrite <- app_assoc.
    + exact Hnd.
    + intros k' Hk' Hin. unfold PyDict.keys in Hin.
      rewrite map_app, in_app_iff in Hin. cbn [map fst In] in Hin.
      destruct Hin as [Hin|[E|[]]].
      * apply (Hun k'); [now right|exact Hin].
      * apply prefixed_inj in E. destruct E as [_ <-]. now apply Hk.
Qed.

(** Every key of [acc] carries a number below [a]. *)
Definition below (a : nat) (acc : PyDict.dict json) : Prop :=
  forall key, In key (PyDict.keys acc) ->
              exists j k, (j < a)%nat /\ key = prefixed j k.

Lemma merge_from (objs : list json) :
  forall (a : nat) (acc : PyDict.dict json),
  (forall d, In (JDict d) objs -> NoDup (PyDict.keys d)) ->
  below a acc ->
  fold_left merge_object (combine (seq a (length objs)) objs) acc
  = (acc ++ flat_map renamed (combine (seq a (length objs)) objs))%list.
Proof.
  induction objs as [|obj objs IH]; intros a acc Hnd Hb.
  - cbn. now rewrite app_nil_r.
  - cbn [length seq combine fold_left flat_map].
    assert (Hstep : merge_object acc (a, obj)
                    = (acc ++ renamed (a, obj))%list /\
                    below (S a) (merge_object acc (a, obj))).
    { unfold merge_object, renamed. cbn [fst snd].
      destruct obj as [| | | | | |d];
        try (rewrite app_nil_r; split; [reflexivity|];
             intros key Hk; destruct (Hb key Hk) as (j & k & Hj & E);
             exists j, k; split; [lia|exact E]).
      rewrite merge_items.
      - split; [reflexivity|]. intros key Hk. unfold PyDict.keys in Hk.
        rewrite map_app, in_app_iff, map_map in Hk. cbn [fst] in Hk.
        destruct Hk as [Hk|Hk].
        + destruct (Hb key Hk) as (j & k & Hj & E).
          exists j, k. split; [lia|exact E].
        + apply in_map_iff in Hk. destruct Hk as ([k v] & <- & _).
          exists a, k. split; [lia|reflexivity].
      - apply Hnd. now left.
      - intros k _ Hin. destruct (Hb _ Hin) as (j & k' & Hj & E).
        apply prefixed_inj in E. lia. }
    destruct Hstep as [-> Hb'].
    rewrite IH; [now rewrite <- app_assoc| |exact Hb'].
    intros d Hd. apply Hnd. now right.
Qed.

(** X28.  Merging the objects recovered from a malformed answer loses no
    command: the merged document holds every entry of every recovered
    object, in order, under the key [f"{i}_{key}"], and no entry
    overwrites another, because the number in front keeps the keys of
    different objects apart.  Values that are not objects are skipped but
    counted. *)
Theorem merge_keeps_every_entry (json_objects : list json) :
  (forall d, In (JDict d) json_objects -> NoDup (PyDict.keys d)) ->
  combine_objects json_objects = flat_map renamed (enumerate json_objects) /\
  NoDup (PyDict.keys (combine_objects json_objects)).
Proof.
  intros Hnd. unfold combine_objects, enumerate.
  assert (E : fold_left merge_object
                (combine (seq 0 (length json_objects)) json_objects) []
              = flat_map renamed
                  (combine (seq 0 (length json_objects)) json_objects)).
  { rewrite (merge_from json_objects 0 [] Hnd); [reflexivity|].
    intros key []. }
  split; [exact E|]. rewrite E. clear E.
  generalize 0%nat as a. induction json_objects as [|obj objs IH]; intros a.
  - constructor.
  - cbn [length seq combine flat_map]. unfold PyDict.keys in *.
    rewrite map_app. apply NoDup_app.
    + unfold renamed. cbn [fst snd].
      destruct obj as [| | | | | |d]; try constructor.
      rewrite map_map. cbn [fst].
      specialize (Hnd d (or_introl eq_refl)).
      induction d as [|[k v] d IHd]; [constructor|].
      cbn [map fst] in *. apply NoDup_cons_iff in Hnd.
      destruct Hnd as [Hk Hnd]. constructor; [|now apply IHd].
      intros Hin. apply in_map_iff in Hin.
      destruct Hin as ([k' v'] & E & Hin). cbn [fst] in E.
      apply prefixed_inj in E. destruct E as [_ ->].
      apply Hk. now apply (in_map fst _ (k, v')).
    + apply IH. intros d Hd. apply Hnd. now right.
    + intros key H1 H2. unfold renamed in H1. cbn [fst snd] in H1.
      destruct obj as [| | | | | |d]; try (now destruct H1).
      rewrite map_map in H1. cbn [fst] in H1.
      apply in_map_iff in H1. destruct H1 as ([k v] & <- & _).
      cbn [fst] in H2. apply in_map_iff in H2.
      destruct H2 as ([key' v'] & E & H2). cbn [fst] in E. subst key'.
      apply in_flat_map in H2. destruct H2 as ([j o] & Hjo & Hin).
      apply in_combine_l in Hjo. apply in_seq in Hjo.
      unfold renamed in Hin. cbn [fst snd] in Hin.
      destruct o as [| | | | | |d']; try (now destruct Hin).
      apply in_map_iff in Hin. destruct Hin as ([k2 v2] & E & _).
      injection E as E _. apply prefixed_inj in E. lia.
Qed.

(** ** The scan for objects *)

(** The character is none of the four the scan reacts to. *)
Definition plain_char (c : ascii) : bool :=
  negb (Ascii.eqb c backslash_char || Ascii.eqb c quote_char
        || Ascii.eqb c open_brace || Ascii.eqb c close_brace).

Fixpoint plain (s : string) : bool :=
  match s with
  | EmptyString => true
  | String c t => plain_char c && plain t
  end.

(** An object without nesting, with the text in front of it. *)
Definition piece (p : string * string) : string :=
  fst p ++ String open_brace (snd p ++ String close_brace EmptyString).

Definition text_of (pieces : list (string * string)) (rest : string)
  : string :=
  fold_right (fun p acc => piece p ++ acc) rest pieces.

Section Scan.

Variable strip : string -> string.
Variable loads : string -> option json.

Abbreviation scanner := (Fallback.scanner).
Abbreviation scan_from := (Fallback.scan_from strip loads).
Abbreviation scan_char := (Fallback.scan_char strip loads).

(** What the scan appends to [json_objects] for the text [c]. *)
Definition decoded (c : string) : list json :=
  match loads (strip c) with
  | Some obj => [obj]
  | None => []
  end.

Lemma scan_from_app (a b : string) : forall st : scanner,
  scan_from st (a ++ b) = scan_from (scan_from st a) b.
Proof.
  induction a as [|c a IH]; intros st; [reflexivity|].
  cbn [append Fallback.scan_from]. apply IH.
Qed.

Lemma scan_plain (s : string) : forall (objs : list json) (n : Z)
  (cur : string) (tr : list string),
  plain s = true ->
  scan_from (mkScanner objs n cur false false tr) s
  = mkScanner objs n (cur ++ s) false false tr.
Proof.
  induction s as [|c s IH]; intros objs n cur tr Hp.
  - now rewrite append_nil_r.
  - cbn [plain] in Hp. apply andb_prop in Hp. destruct Hp as [Hc Hs].
    unfold plain_char in Hc. apply negb_true_iff in Hc.
    apply orb_false_iff in Hc. destruct Hc as [Hc Hclose].
    apply orb_false_iff in Hc. destruct Hc as [Hc Hopen].
    apply orb_false_iff in Hc. destruct Hc as [Hback Hquote].
    cbn [Fallback.scan_from]. unfold Fallback.scan_char.
    cbn [escape_next in_string json_objects brace_count current_json tried].
    rewrite Hback, Hquote, Hopen, Hclose. cbn [andb negb].
    rewrite IH by exact Hs. now rewrite add_char_app.
Qed.

Lemma scan_open (objs : list json) (n : Z) (cur : string)
  (tr : list string) :
  scan_char (mkScanner objs n cur false false tr) open_brace
  = mkScanner objs (n + 1) (add_char cur open_brace) false false tr.
Proof. reflexivity. Qed.

Lemma scan_close (objs : list json) (cur : string) (tr : list string) :
  strip (add_char cur close_brace) <> EmptyString ->
  scan_char (mkScanner objs 1 cur false false tr) close_brace
  = mkScanner (objs ++ decoded (add_char cur close_brace)) 0 EmptyString
              false false (tr ++ [add_char cur close_brace]).
Proof.
  intros Hs. unfold Fallback.scan_char.
  cbn [escape_next in_string json_objects brace_count current_json tried].
  change (Ascii.eqb close_brace backslash_char) with false.
  change (Ascii.eqb close_brace quote_char) with false.
  change (Ascii.eqb close_brace open_brace) with false.
  change (Ascii.eqb close_brace close_brace) with true.
  cbn [andb negb]. change (1 - 1 =? 0)%Z with true. cbn [andb].
  destruct (String.eqb_spec (strip (add_char cur close_brace)) EmptyString)
    as [Es|_]; [contradiction|].
  cbn [negb]. unfold decoded.
  destruct (loads _); [reflexivity|now rewrite app_nil_r].
Qed.

Lemma scan_piece (p : string * string) (objs : list json)
  (tr : list string) :
  plain (fst p) = true -> plain (snd p) = true ->
  strip (piece p) <> EmptyString ->
  scan_from (mkScanner objs 0 EmptyString false false tr) (piece p)
  = mkScanner (objs ++ decoded (piece p)) 0 EmptyString false false
              (tr ++ [piece p]).
Proof.
  intros Hsep Hbody Hstrip.
  assert (E : add_char (add_char (fst p) open_brace ++ snd p) close_brace
              = piece p).
  { unfold piece, add_char. now rewrite !append_assoc. }
  unfold piece.
  rewrite scan_from_app, scan_plain by exact Hsep.
  cbn [append Fallback.scan_from]. rewrite scan_open.
  rewrite scan_from_app, scan_plain by exact Hbody.
  cbn [Fallback.scan_from]. change (0 + 1)%Z with 1%Z.
  rewrite scan_close; rewrite E; [reflexivity|exact Hstrip].
Qed.

Lemma scan_flat (pieces : list (string * string)) (rest : string) :
  (forall p, In p pieces ->
             plain (fst p) = true /\ plain (snd p) = true /\
             strip (piece p) <> EmptyString) ->
  plain rest = true ->
  forall objs tr,
    scan_from (mkScanner objs 0 EmptyString false false tr)
              (text_of pieces rest)
    = mkScanner (objs ++ flat_map (fun p => decoded (piece p)) pieces)
                0 rest false false (tr ++ map piece pieces).
Proof.
  intros Hp Hrest. induction pieces as [|p pieces IH]; intros objs tr.
  - cbn [text_of fold_right flat_map map].
    rewrite scan_plain by exact Hrest. now rewrite !app_nil_r.
  - cbn [text_of fold_right flat_map map].
    destruct (Hp p (or_introl eq_refl)) as (H1 & H2 & H3).
    rewrite scan_from_app, scan_piece by assumption.
    fold (text_of pieces rest). rewrite IH.
    + now rewrite <- !app_assoc.
    + intros q Hq. apply Hp. now right.
Qed.

(** X29.  The scan finds objects that stand side by side: in a text made
    of objects without nesting, strings or backslashes, each with any
    plain text in front of it, every object, taken with the text in front
    of it and stripped, is handed to [json.loads] exactly once and in
    order; [json_objects] collects the ones that decode, and what follows
    the last object stays in [current_json]. *)
Theorem scan_finds_flat_objects
  (pieces : list (string * string)) (rest : string) :
  (forall p, In p pieces ->
             plain (fst p) = true /\ plain (snd p) = true /\
             strip (piece p) <> EmptyString) ->
  plain rest = true ->
  let st := Fallback.scan strip loads (text_of pieces rest) in
  tried st = map piece pieces /\
  json_objects st = flat_map (fun p => decoded (piece p)) pieces /\
  current_json st = rest /\
  brace_count st = 0%Z.
Proof.
  intros Hp Hrest. cbv zeta. unfold Fallback.scan, Fallback.start.
  rewrite (scan_flat pieces rest Hp Hrest). cbn. auto.
Qed.

End Scan.

Lemma merge_keeps_every_entry_witness :
  let objs := [JDict [("1", JStr "a")]; JInt 5;
               JDict [("1", JStr "b"); ("2", JStr "c")]] in
  (forall d, In (JDict d) objs -> NoDup (PyDict.keys d)) /\
  combine_objects objs
  = [("0_1", JStr "a"); ("2_1", JStr "b"); ("2_2", JStr "c")] /\
  combine_objects objs = flat_map renamed (enumerate objs) /\
  NoDup (PyDict.keys (combine_objects objs)).
Proof.
  cbv zeta.
  assert (H : forall d,
             In (JDict d) [JDict [("1", JStr "a")]; JInt 5;
                           JDict [("1", JStr "b"); ("2", JStr "c")]] ->
             NoDup (PyDict.keys d)).
  { intros d [E|[E|[E|[]]]]; try discriminate E; injection E as <-;
      vm_compute; repeat constructor; cbn; intuition discriminate. }
  split; [exact H|]. split; [by_eval|].
  exact (merge_keeps_every_entry _ H).
Defined.

Lemma scan_finds_flat_objects_witness :
  let strip (s : string) := s in
  let loads (s : string) := Some (JStr s) in
  let pieces := [("", "1"); (" and ", "2")] in
  (forall p, In p pieces ->
             plain (fst p) = true /\ plain (snd p) = true /\
             strip (piece p) <> EmptyString) /\
  plain " end" = true /\
  text_of pieces " end" = "{1} and {2} end" /\
  let st := Fallback.scan strip loads (text_of pieces " end") in
  tried st = map piece pieces /\
  json_objects st = flat_map (fun p => decoded strip loads (piece p)) pieces
  /\ current_json st = " end" /\
  brace_count st = 0%Z.
Proof.
  cbv zeta.
  assert (H : forall p, In p [("", "1"); (" and ", "2")] ->
                        plain (fst p) = true /\ plain (snd p) = true /\
                        piece p <> EmptyString).
  { intros p [<-|[<-|[]]]; split_all; try reflexivity; discriminate. }
  split; [exact H|]. split; [reflexivity|]. split; [reflexivity|].
  exact (scan_finds_flat_objects (fun s => s) (fun s => Some (JStr s))
           _ " end" H eq_refl).
Defined.

End FallbackExtra.

